(** * Hotel-AR: payment allocation and invoice reconciliation

    A shallow embedding of the ledger logic of the Hotel-AR back office
    (Next.js pages talking to a Supabase/Postgres store):

    - [src/app/invoices/new/page.tsx]   invoice creation       ([NewInvoice])
    - the "Record payment" page         payment + allocations  ([NewPayment])
    - [src/app/payments/page.tsx]       payment deletion       ([Payments])
    - the invoices listing page         fetchRows, updateTotal,
                                        voidInvoice            ([Invoices])
                                        summary, statusCounts  ([InvoicesView])
                                        the row menu           ([RowMenu])
    - [src/app/payments/page.tsx]       appliedByPayment,
                                        filteredRows, summary  ([PaymentsView])
    - the aging report page             filtered, groups,
                                        byCompanyAllBuckets,
                                        companyTotalsForBucket ([Aging])

    Modelling conventions.

    - Money.  The store holds exact decimals; the pages compute with
      JavaScript numbers (doubles) holding dollar amounts.  Amounts are
      modelled as integers counting millionths of a dollar, so that the
      tolerance [1e-6] used by the payment form is one unit, and they are
      added exactly.  That is what the pages compute wherever their
      floating-point sums do not round, as on whole dollars up to 2^53
      ([safe_sum]); a theorem that states a status, a stored balance or
      an order that a page derives from such a sum assumes so.
      [AgingDouble] is the company breakdown computed with the doubles
      themselves.
    - Store.  The Postgres tables the pages read and write are lists of
      rows in a record [DB].  Every call to the store may fail; which calls
      fail is given by an oracle [fails : Call -> bool].
    - Handlers.  An event handler is a function from the store (and the
      user's answers to the dialogs it opens) to the new store and an
      [Outcome] telling what the page reported.
*)

From Stdlib Require Import ZArith Lia.
From Stdlib Require PrimFloat Uint63.
From stdpp Require Import base tactics option list gmap strings sorting.

Local Open Scope Z_scope.

(** ** Money *)

(** One dollar, in millionths. *)
Definition dollars (n : Z) : Z := n * 1000000.

(** One cent, in millionths. *)
Definition cents (n : Z) : Z := n * 10000.

(** The literal [1e-6] of the payment form. *)
Definition EPSILON : Z := 1.

(** [xs.reduce((s, a) => s + a, 0)] *)
Definition sum (xs : list Z) : Z := fold_left Z.add xs 0.

(** An amount with no fraction of a dollar. *)
Definition whole_dollars (x : Z) : Prop := x mod 1000000 = 0.

(** [Number.MAX_SAFE_INTEGER] *)
Definition MAX_SAFE_INTEGER : Z := 2 ^ 53 - 1.

(** An amount a double holds exactly: a whole number of dollars that is
    not negative and at most [MAX_SAFE_INTEGER]. *)
Definition safe (x : Z) : Prop :=
  whole_dollars x /\ 0 <= x <= dollars MAX_SAFE_INTEGER.

(** Amounts a page adds up without rounding, in whatever order it gets
    them: each is [safe] and so is their sum, hence every partial sum. *)
Definition safe_sum (xs : list Z) : Prop :=
  Forall safe xs /\ sum xs <= dollars MAX_SAFE_INTEGER.

(** The two, decided. *)
Definition safeb (x : Z) : bool :=
  (x mod 1000000 =? 0) && (0 <=? x) && (x <=? dollars MAX_SAFE_INTEGER).

Definition safe_sumb (xs : list Z) : bool :=
  forallb safeb xs && (sum xs <=? dollars MAX_SAFE_INTEGER).

(** ** Strings *)

Definition lower_ascii (c : Ascii.ascii) : Ascii.ascii :=
  let n := Ascii.nat_of_ascii c in
  if ((65 <=? n) && (n <=? 90))%nat then Ascii.ascii_of_nat (n + 32) else c.

(** [s.toLowerCase()], on the ASCII letters: other letters, which the
    host lower-cases too, are left as they are. *)
Fixpoint toLowerCase (s : string) : string :=
  match s with
  | EmptyString => EmptyString
  | String c s' => String (lower_ascii c) (toLowerCase s')
  end.

(** [s.includes(sub)] *)
Fixpoint includes (s sub : string) : bool :=
  String.prefix sub s ||
  match s with
  | EmptyString => false
  | String _ s' => includes s' sub
  end.

Definition is_blank (c : Ascii.ascii) : bool :=
  let n := Ascii.nat_of_ascii c in
  ((n =? 32) || ((9 <=? n) && (n <=? 13)))%nat.

Fixpoint trimStart (s : string) : string :=
  match s with
  | String c s' => if is_blank c then trimStart s' else s
  | EmptyString => EmptyString
  end.

(** [s.trim()], on the ASCII white space. *)
Definition trim (s : string) : string :=
  String.rev (trimStart (String.rev (trimStart s))).

Definition is_digit (c : Ascii.ascii) : bool :=
  let n := Ascii.nat_of_ascii c in ((48 <=? n) && (n <=? 57))%nat.

(** [/^\d{4}$/.test(s)] *)
Definition four_digits (s : string) : bool :=
  match s with
  | String a (String b (String c (String d EmptyString))) =>
      is_digit a && is_digit b && is_digit c && is_digit d
  | _ => false
  end.

(** ** The store *)

Module Db.

(** The calls the pages make to the store. *)
Inductive Call :=
| SelectAllocations
| InsertAllocations
| DeleteAllocations
| SelectInvoices
| InsertInvoice
| UpdateInvoices
| InsertPayment
| DeletePayments
| LogInvoiceEvent.

(** [public.invoices].  [total] is the column the store derives as
    [subtotal + tax]; dates are day numbers; [deleted_at] is the
    tombstone. *)
Record InvoiceRow := {
  inv_id : string;
  inv_number : option string;
  inv_hotel_id : string;
  inv_company_id : option string;
  inv_client_id : option string;
  inv_confirmation_no : option string;
  inv_case_no : option string;
  inv_issue_date : Z;
  inv_due_date : Z;
  inv_check_in : option Z;
  inv_check_out : option Z;
  inv_rate_night : option Z;
  inv_subtotal : Z;
  inv_tax : Z;
  inv_balance : Z;
  inv_status : string;
  inv_deleted_at : option Z
}.

Definition inv_total (i : InvoiceRow) : Z := inv_subtotal i + inv_tax i.

(** [nights integer DEFAULT GREATEST(0, check_out - check_in)] *)
Definition inv_nights (i : InvoiceRow) : option Z :=
  match inv_check_in i, inv_check_out i with
  | Some a, Some b => Some (Z.max 0 (b - a))
  | _, _ => None
  end.

(** [public.payments] *)
Record PaymentRow := {
  pay_id : string;
  pay_method : string;
  pay_reference : string;
  pay_amount : Z;
  pay_received_date : string;
  pay_check_date : option string
}.

(** [public.allocations] *)
Record AllocationRow := {
  al_payment_id : string;
  al_invoice_id : string;
  al_amount : Z;
  al_deleted_at : option Z
}.

(** [public.invoice_audit]; [details] is a JSON object of numbers. *)
Record AuditRow := {
  au_invoice_id : string;
  au_action : string;
  au_note : option string;
  au_details : list (string * Z)
}.

Record DB := {
  invoices : list InvoiceRow;
  payments : list PaymentRow;
  allocations : list AllocationRow;
  invoice_audit : list AuditRow
}.

Definition with_invoices (l : list InvoiceRow) (db : DB) : DB :=
  {| invoices := l; payments := payments db;
     allocations := allocations db; invoice_audit := invoice_audit db |}.

Definition with_payments (l : list PaymentRow) (db : DB) : DB :=
  {| invoices := invoices db; payments := l;
     allocations := allocations db; invoice_audit := invoice_audit db |}.

Definition with_allocations (l : list AllocationRow) (db : DB) : DB :=
  {| invoices := invoices db; payments := payments db;
     allocations := l; invoice_audit := invoice_audit db |}.

Definition with_audit (l : list AuditRow) (db : DB) : DB :=
  {| invoices := invoices db; payments := payments db;
     allocations := allocations db; invoice_audit := l |}.

Definition is_null {A} (o : option A) : bool :=
  match o with None => true | Some _ => false end.

Definition eqs (a b : string) : bool := bool_decide (a = b).

(** [from('allocations').select('amount').eq('invoice_id', id)
      .is('deleted_at', null)] *)
Definition active_amounts (db : DB) (id : string) : list Z :=
  al_amount <$>
    filter (fun a => eqs (al_invoice_id a) id && is_null (al_deleted_at a) = true)
           (allocations db).

(** Paid-to-date of an invoice: the sum of its active allocations. *)
Definition paid_to_date (db : DB) (id : string) : Z :=
  sum (active_amounts db id).

(** What of a payment is allocated: the sum of its active allocations. *)
Definition allocated_of_payment (db : DB) (pid : string) : Z :=
  sum (al_amount <$>
    filter (fun a => eqs (al_payment_id a) pid && is_null (al_deleted_at a) = true)
           (allocations db)).

(** [from('allocations').delete().eq(col, v)] *)
Definition delete_allocations (keep : AllocationRow -> bool) (db : DB) : DB :=
  with_allocations (filter (fun a => keep a = true) (allocations db)) db.

(** [from('invoices').update(f).eq('id', id).is('deleted_at', null)
      .select('id')]: the new table and the ids of the rows updated. *)
Definition update_invoices (id : string) (f : InvoiceRow -> InvoiceRow)
    (db : DB) : DB * list string :=
  let hit i := eqs (inv_id i) id && is_null (inv_deleted_at i) in
  (with_invoices ((fun i => if hit i then f i else i) <$> invoices db) db,
   inv_id <$> filter (fun i => hit i = true) (invoices db)).

(** Modelled from the spec: the stored procedure [log_invoice_event] is
    not part of the repository.  It appends one row to [invoice_audit]
    with the invoice id, the action tag, the note and the detail
    payload. *)
Definition log_invoice_event (p_invoice_id p_action : string)
    (p_note : option string) (p_details : list (string * Z)) (db : DB) : DB :=
  with_audit (invoice_audit db ++
    [ {| au_invoice_id := p_invoice_id; au_action := p_action;
         au_note := p_note; au_details := p_details |} ]) db.

End Db.

(** What a handler reported to the user. *)
Inductive Outcome :=
| Dismissed                    (* a prompt or confirm was cancelled *)
| Alerted (m : string)         (* alert(m) *)
| ClientError (m : string)     (* setErr(m), raised by the page itself *)
| StoreError (c : Db.Call)     (* setErr(error.message) of a failed call *)
| Succeeded (m : string).      (* setMsg(m) / redirect *)

(** What submitting a validated form does: the issues the validation
    raised, as (field, message), or the outcome of the page's [onSubmit]. *)
Inductive Submitted :=
| Invalid (issues : list (string * string))
| Ran (o : Outcome).

(** A [window.prompt]: cancelled, or answered with a text. *)
Inductive Prompt (A : Type) :=
| Cancel
| Answer (a : A).
Arguments Cancel {A}.
Arguments Answer {A} a.

(** ** The invoices listing page *)

Module Invoices.
Import Db.

(** [Row & { payments: number }]: a row of [select('*')] on invoices
    together with the sum of its allocations. *)
Record RowWithAgg := {
  id : string;
  number : option string;
  hotel_id : string;
  company_id : option string;
  client_id : option string;
  check_in : option Z;
  check_out : option Z;
  subtotal : option Z;
  tax : option Z;
  total : option Z;
  balance : option Z;
  status : string;
  case_no : option string;
  payments : Z
}.

(** [{ ...(r as Row), payments: p }] *)
Definition merge_row (r : InvoiceRow) (p : Z) : RowWithAgg :=
  {| id := inv_id r; number := inv_number r; hotel_id := inv_hotel_id r;
     company_id := inv_company_id r; client_id := inv_client_id r;
     check_in := inv_check_in r; check_out := inv_check_out r;
     subtotal := Some (inv_subtotal r); tax := Some (inv_tax r);
     total := Some (inv_total r); balance := Some (inv_balance r);
     status := inv_status r; case_no := inv_case_no r; payments := p |}.

(** [{ ...r, payments: 0, balance: 0 }] *)
Definition zeroed (r : RowWithAgg) : RowWithAgg :=
  {| id := id r; number := number r; hotel_id := hotel_id r;
     company_id := company_id r; client_id := client_id r;
     check_in := check_in r; check_out := check_out r;
     subtotal := subtotal r; tax := tax r; total := total r;
     balance := Some 0; status := status r; case_no := case_no r;
     payments := 0 |}.

(** The filters of the page.  [window] is the interval of check-in days
    selected by the year and month boxes; ['all'] is [None]. *)
Record Filters := {
  search : string;
  window : Z * Z;
  companyId : option string;
  hotelId : option string;
  hotels : list (string * string);
  clients : list (string * string)
}.

(** [clients.find(c => c.id === id)?.name ?? ''] *)
Definition clientName (f : Filters) (id : option string) : string :=
  match id with
  | None => ""
  | Some i =>
      match List.find (fun c => eqs (fst c) i) (clients f) with
      | Some c => snd c
      | None => ""
      end
  end.

Definition in_window (f : Filters) (d : option Z) : bool :=
  match d with
  | Some x => (fst (window f) <=? x) && (x <=? snd (window f))
  | None => false
  end.

Definition hotel_ok (f : Filters) (h : string) : bool :=
  match hotelId f with
  | Some want => eqs h want
  | None =>
      match hotels f with
      | [] => true
      | hs => existsb (fun x => eqs (fst x) h) hs
      end
  end.

Definition company_ok (f : Filters) (c : option string) : bool :=
  match companyId f with
  | Some want => match c with Some x => eqs x want | None => false end
  | None => true
  end.

(** The query on [invoices]: live rows in the window, of the chosen
    hotel and company.  (The order of the rows is not modelled.) *)
Definition base_query (f : Filters) (db : DB) : list InvoiceRow :=
  filter (fun r => is_null (inv_deleted_at r) && in_window f (inv_check_in r)
                   && hotel_ok f (inv_hotel_id r)
                   && company_ok f (inv_company_id r) = true)
         (invoices db).

(** The query on [allocations]: live rows of the listed invoices. *)
Definition alloc_query (ids : list string) (db : DB) : list (string * Z) :=
  (fun a => (al_invoice_id a, al_amount a)) <$>
    filter (fun a => existsb (eqs (al_invoice_id a)) ids
                     && is_null (al_deleted_at a) = true)
           (allocations db).

(** [for (const a of alloc) pay.set(a.invoice_id,
      (pay.get(a.invoice_id) ?? 0) + a.amount)] *)
Definition pay_map (alloc : list (string * Z)) : gmap string Z :=
  fold_left (fun pay a => <[fst a := default 0 (pay !! fst a) + snd a]> pay)
            alloc ∅.

Definition matches (f : Filters) (r : RowWithAgg) : bool :=
  let s := toLowerCase (search f) in
  let number := toLowerCase (default "" (number r)) in
  let status := toLowerCase (status r) in
  let caseAny := toLowerCase (default "" (case_no r)) in
  let cName := toLowerCase (clientName f (client_id r)) in
  includes number s || includes status s || includes caseAny s
  || includes cName s.

(** The part of [fetchRows] after the two queries. *)
Definition merge_rows (f : Filters) (base : list InvoiceRow)
    (alloc : list (string * Z)) : list RowWithAgg :=
  let pay := pay_map alloc in
  let merged := (fun r => merge_row r (default 0 (pay !! inv_id r))) <$> base in
  let merged :=
    if eqs (search f) "" then merged
    else filter (fun r => matches f r = true) merged in
  (fun r => if eqs (toLowerCase (status r)) "void" then zeroed r else r)
    <$> merged.

Section Handlers.
Variable fails : Call -> bool.

(** [fetchRows]: the rows the page shows; a failed query shows none.
    (The lookup of problem badges, which changes no row, is left out.) *)
Definition fetchRows (f : Filters) (db : DB) : list RowWithAgg :=
  if fails SelectInvoices then [] else
  let base := base_query f db in
  let ids := inv_id <$> base in
  match ids with
  | [] => merge_rows f base []
  | _ =>
      if fails SelectAllocations then []
      else merge_rows f base (alloc_query ids db)
  end.

(** [allocatedSum] *)
Definition allocatedSum (invoiceId : string) (db : DB) : Z :=
  if fails SelectAllocations then 0 else sum (active_amounts db invoiceId).

(** The status [updateTotal] derives. *)
Definition newStatus (newTotal paid : Z) : string :=
  if newTotal =? 0 then "void"
  else if paid <=? 0 then "open"
  else if paid <? newTotal then "partial"
  else "paid".

(** [.update({ subtotal: newTotal, tax: 0, balance, status })] *)
Definition set_total (newTotal newBalance : Z) (st : string)
    (i : InvoiceRow) : InvoiceRow :=
  {| inv_id := inv_id i; inv_number := inv_number i;
     inv_hotel_id := inv_hotel_id i; inv_company_id := inv_company_id i;
     inv_client_id := inv_client_id i;
     inv_confirmation_no := inv_confirmation_no i;
     inv_case_no := inv_case_no i; inv_issue_date := inv_issue_date i;
     inv_due_date := inv_due_date i; inv_check_in := inv_check_in i;
     inv_check_out := inv_check_out i; inv_rate_night := inv_rate_night i;
     inv_subtotal := newTotal; inv_tax := 0; inv_balance := newBalance;
     inv_status := st; inv_deleted_at := inv_deleted_at i |}.

(** [updateTotal(row)].  [ans] is the answer to the prompt; its text is
    [None] when [Number(ans)] is not finite.  The page adds the amounts
    and compares the sum with the new total in doubles; here they are
    added and compared exactly, which is the same when the amounts are a
    [safe_sum] and the new total is [safe]. *)
Definition updateTotal (row : RowWithAgg) (ans : Prompt (option Z))
    (db : DB) : DB * Outcome :=
  match ans with
  | Cancel => (db, Dismissed)
  | Answer None => (db, ClientError "Please enter a valid number.")
  | Answer (Some newTotal) =>
      if newTotal <? 0 then (db, ClientError "Please enter a valid number.")
      else if fails SelectAllocations then (db, StoreError SelectAllocations)
      else
        let paid := sum (active_amounts db (id row)) in
        let newBalance := Z.max 0 (newTotal - paid) in
        let st := newStatus newTotal paid in
        if fails UpdateInvoices then (db, StoreError UpdateInvoices)
        else
          let '(db1, updated) :=
            update_invoices (id row) (set_total newTotal newBalance st) db in
          match updated with
          | [] => (db1, ClientError "Update didn’t apply.")
          | _ =>
              let db2 :=
                if fails LogInvoiceEvent then db1
                else log_invoice_event (id row) "update_total" None
                       [("old_total", default 0 (total row));
                        ("new_total", newTotal)] db1 in
              (db2, Succeeded "Total updated")
          end
  end.

(** [.update({ status: 'void', subtotal: 0, tax: 0, balance: 0 })] *)
Definition set_void (i : InvoiceRow) : InvoiceRow :=
  set_total 0 0 "void" i.

(** [voidInvoice(row)].  [reason] is the answer to the prompt. *)
Definition voidInvoice (row : RowWithAgg) (reason : Prompt string)
    (db : DB) : DB * Outcome :=
  match reason with
  | Cancel => (db, Dismissed)
  | Answer reason =>
      if fails DeleteAllocations then (db, StoreError DeleteAllocations)
      else
        let db1 :=
          delete_allocations (fun a => negb (eqs (al_invoice_id a) (id row))) db in
        if fails UpdateInvoices then (db1, StoreError UpdateInvoices)
        else
          let '(db2, updated) := update_invoices (id row) set_void db1 in
          match updated with
          | [] => (db2, ClientError "Void didn’t apply.")
          | _ =>
              let db3 :=
                if fails LogInvoiceEvent then db2
                else log_invoice_event (id row) "void_invoice"
                       (if eqs reason "" then None else Some reason) [] db2 in
              (db3, Succeeded "Invoice voided")
          end
  end.
End Handlers.
End Invoices.

(** ** The payments listing page *)

Module Payments.
Import Db.

Section Handlers.
Variable fails : Call -> bool.

(** [deletePayment(row)].  [confirmed] is the answer to the dialog
    "Delete payment ...?  This will also delete its allocations." *)
Definition deletePayment (row : PaymentRow) (confirmed : bool)
    (db : DB) : DB * Outcome :=
  if negb confirmed then (db, Dismissed)
  else if fails DeleteAllocations then (db, StoreError DeleteAllocations)
  else
    let db1 :=
      delete_allocations (fun a => negb (eqs (al_payment_id a) (pay_id row))) db in
    if fails DeletePayments then (db1, StoreError DeletePayments)
    else
      (with_payments
         (filter (fun p => negb (eqs (pay_id p) (pay_id row)) = true)
                 (payments db1)) db1,
       Succeeded "Payment deleted").
End Handlers.
End Payments.

(** ** The "Record payment" page *)

Module NewPayment.
Import Db.

(** An invoice as the page loads it (the fields it computes with). *)
Record Invoice := {
  id : string;
  number : option string;
  balance : Z;
  hotel_id : string;
  company_id : option string;
  client_id : option string
}.

(** The validated form ([paySchema]). *)
Record PayForm := {
  method : string;
  reference : option string;
  amount : Z;
  received_date : string;
  check_date : option string
}.

(** [paySchema]: the issues it raises, as (field, message). *)
Definition paySchema (v : PayForm) : list (string * string) :=
  (if existsb (eqs (method v)) ["check"; "ach"; "card"; "other"] then []
   else [("method", "Invalid enum value")])
  ++ (if amount v <? cents 1 then [("amount", "Amount must be > 0")] else [])
  ++ (if eqs (received_date v) "" then [("received_date", "Required")] else []).

(** The query that loads the invoices to allocate to: live, not paid,
    with a positive balance, of the chosen hotel ([None]: all hotels). *)
Definition payable (hotelId : option string) (r : InvoiceRow) : bool :=
  is_null (inv_deleted_at r)
  && negb (eqs (inv_status r) "paid")
  && (0 <? inv_balance r)
  && (match hotelId with
      | Some h => eqs (inv_hotel_id r) h
      | None => true
      end).

Definition load_invoices (hotelId : option string) (db : DB) : list Invoice :=
  (fun r => {| id := inv_id r; number := inv_number r;
               balance := inv_balance r; hotel_id := inv_hotel_id r;
               company_id := inv_company_id r; client_id := inv_client_id r |})
  <$> filter (fun r => payable hotelId r = true) (invoices db).

(** [byId]: [for (const inv of invoices) m.set(inv.id, inv)] *)
Definition byId (invoices : list Invoice) : gmap string Invoice :=
  fold_left (fun m inv => <[id inv := inv]> m) invoices ∅.

(** The state [alloc : Record<string, number>], in insertion order. *)
Definition Alloc := list (string * Z).

(** [alloc[id]] *)
Fixpoint get (alloc : Alloc) (k : string) : option Z :=
  match alloc with
  | [] => None
  | (k', v) :: rest => if eqs k' k then Some v else get rest k
  end.

(** [{ ...prev, [id]: num }] *)
Fixpoint set (alloc : Alloc) (k : string) (num : Z) : Alloc :=
  match alloc with
  | [] => [(k, num)]
  | (k', v) :: rest =>
      if eqs k' k then (k', num) :: rest else (k', v) :: set rest k num
  end.

(** [Object.values(alloc).reduce((s, v) => s + (Number(v) || 0), 0)],
    added exactly: the sum of the amounts as the store will hold them.
    (The page's double may differ from it by a rounding error, far below
    the tolerance of [onSubmit].) *)
Definition allocatedTotal (alloc : Alloc) : Z := sum (snd <$> alloc).

(** [Math.max(0, (watchAmount || 0) - allocatedTotal)] *)
Definition remaining (watchAmount : Z) (alloc : Alloc) : Z :=
  Z.max 0 (watchAmount - allocatedTotal alloc).

(** [setAllocFor(id, value)]; [value] is [None] when [Number(value)] is
    not finite. *)
Definition setAllocFor (invoices : list Invoice) (k : string)
    (value : option Z) (alloc : Alloc) : Alloc :=
  let num := default 0 value in
  let bal := default 0 (balance <$> byId invoices !! k) in
  let num := if num <? 0 then 0 else num in
  let num := if bal <? num then bal else num in
  set alloc k num.

(** [clearAllocations()] *)
Definition clearAllocations (alloc : Alloc) : Alloc := [].

(** [Number(x.toFixed(2))] for [x >= 0]: to the nearest cent.  (The page
    rounds the double; the two agree when [x] is within a rounding error
    of a whole cent.) *)
Definition toFixed2 (x : Z) : Z := (x + 5000) / 10000 * 10000.

(** [allocateRemainingTo(id)] *)
Definition allocateRemainingTo (invoices : list Invoice) (watchAmount : Z)
    (k : string) (alloc : Alloc) : Alloc :=
  let bal := default 0 (balance <$> byId invoices !! k) in
  let current := default 0 (get alloc k) in
  let room := Z.max 0 (bal - current) in
  if (room <=? 0) || (remaining watchAmount alloc <=? 0) then alloc
  else
    let add := Z.min room (remaining watchAmount alloc) in
    set alloc k (toFixed2 (current + add)).

(** The allocation states the page can be in: built from the empty one
    by its three handlers, over the invoices it loaded. *)
Inductive reachable (invoices : list Invoice) : Alloc -> Prop :=
| reach_empty : reachable invoices []
| reach_set k value alloc :
    reachable invoices alloc ->
    reachable invoices (setAllocFor invoices k value alloc)
| reach_clear alloc :
    reachable invoices alloc -> reachable invoices (clearAllocations alloc)
| reach_remaining watchAmount k alloc :
    reachable invoices alloc ->
    reachable invoices (allocateRemainingTo invoices watchAmount k alloc).

(** No entry is negative. *)
Definition nonneg (alloc : Alloc) : Prop := Forall (fun e => 0 <= e.2) alloc.

(** The rows [onSubmit] inserts in [allocations]. *)
Definition rows_of (newPaymentId : string) (alloc : Alloc) : list AllocationRow :=
  filter (fun r => (0 <? al_amount r) = true)
    ((fun e => {| al_payment_id := newPaymentId; al_invoice_id := fst e;
                  al_amount := snd e; al_deleted_at := None |}) <$> alloc).

(** The row of [payments] a form stands for. *)
Definition payment_row (new_id : string) (v : PayForm) : PaymentRow :=
  {| pay_id := new_id; pay_method := method v;
     pay_reference := default "" (reference v); pay_amount := amount v;
     pay_received_date := received_date v;
     pay_check_date :=
       match check_date v with
       | Some "" => None
       | d => d
       end |}.

(** Modelled from the spec: the stored procedure [api_insert_payment] is
    not part of the repository.  It inserts one row in [payments] with
    the fields of the form and returns its id, [new_id]. *)
Definition api_insert_payment (new_id : string) (v : PayForm) (db : DB) : DB :=
  with_payments (payments db ++ [payment_row new_id v]) db.

Section Handlers.
Variable fails : Call -> bool.

(** [onSubmit(values)].  [confirmed] is the answer to the dialog the
    handler may open; [new_id] is the id the store gives the payment. *)
Definition onSubmit (alloc : Alloc) (confirmed : bool) (new_id : string)
    (values : PayForm) (db : DB) : DB * Outcome :=
  if amount values + EPSILON <? allocatedTotal alloc
  then (db, Alerted "Allocated more than payment amount.")
  else if eqs (method values) "check"
          && eqs (trim (default "" (reference values))) ""
          && negb confirmed
  then (db, Dismissed)
  else if eqs (method values) "card"
          && negb (eqs (default "" (reference values)) "")
          && negb (four_digits (trim (default "" (reference values))))
          && negb confirmed
  then (db, Dismissed)
  else if fails InsertPayment then (db, StoreError InsertPayment)
  else
    let db1 := api_insert_payment new_id values db in
    match rows_of new_id alloc with
    | [] => (db1, Succeeded "/invoices")
    | rows =>
        if fails InsertAllocations then (db1, StoreError InsertAllocations)
        else (with_allocations (allocations db1 ++ rows) db1,
              Succeeded "/invoices")
    end.

(** [handleSubmit(onSubmit)]: the form is submitted only when
    [paySchema] raises no issue. *)
Definition handleSubmit (alloc : Alloc) (confirmed : bool) (new_id : string)
    (values : PayForm) (db : DB) : DB * Submitted :=
  match paySchema values with
  | [] => let '(db', o) := onSubmit alloc confirmed new_id values db in
          (db', Ran o)
  | issues => (db, Invalid issues)
  end.
End Handlers.
End NewPayment.

(** ** The "New invoice" page *)

Module NewInvoice.
Import Db.

(** The text of a date box: empty, a text [Date] cannot read, or a
    calendar day (numbered from some fixed day). *)
Inductive DateInput :=
| Blank
| Malformed
| OnDay (d : Z).

(** The form.  [rate_night] is the number the box holds, [None] when
    [Number] of its text is not finite. *)
Record FormValues := {
  hotel_id : string;
  company_id : string;
  client_id : string;
  confirmation_no : option string;
  number : option string;
  case_no : option string;
  issue_date : DateInput;
  due_date : DateInput;
  check_in : DateInput;
  check_out : DateInput;
  rate_night : option Z
}.

Definition nonempty (d : DateInput) : bool :=
  match d with Blank => false | _ => true end.


Section Page.
(** The [uuid] check of the validation library. *)
Variable uuid : string -> bool.
Variable fails : Call -> bool.

Definition issue_if (bad : bool) (field message : string)
    : list (string * string) :=
  if bad then [(field, message)] else [].

(** [schema]: the issues it raises, as (field, message), in the order
    of its fields. *)
Definition schema (v : FormValues) : list (string * string) :=
  issue_if (negb (uuid (hotel_id v))) "hotel_id" "Pick a hotel"
  ++ issue_if (negb (uuid (company_id v))) "company_id" "Pick a company"
  ++ issue_if (negb (uuid (client_id v))) "client_id" "Pick a client"
  ++ issue_if (negb (nonempty (issue_date v))) "issue_date" "Issue date required"
  ++ issue_if (negb (nonempty (due_date v))) "due_date" "Due date required"
  ++ issue_if (negb (nonempty (check_in v))) "check_in" "Check-in required"
  ++ issue_if (negb (nonempty (check_out v))) "check_out" "Check-out required"
  ++ issue_if (match rate_night v with
               | Some r => r <? 0
               | None => true
               end) "rate_night" "Rate must be a number ≥ 0".

(** A form filled in as the page lets a user fill it: ids the validation
    accepts, the four dates calendar days, a rate that is not negative. *)
Definition well_formed (v : FormValues) (i d ci co : Z) : Prop :=
  uuid (hotel_id v) = true /\ uuid (company_id v) = true
  /\ uuid (client_id v) = true
  /\ issue_date v = OnDay i /\ due_date v = OnDay d
  /\ check_in v = OnDay ci /\ check_out v = OnDay co
  /\ match rate_night v with Some r => 0 <= r | None => False end.

(** [daysBetween(startYMD, endYMD)]: both dates are read at local
    midnight, and the distance is rounded up to whole days; this is the
    number of calendar days between them when the local clock is not
    set back in between (it counts one more when it is). *)
Definition daysBetween (startYMD endYMD : DateInput) : Z :=
  match startYMD, endYMD with
  | Blank, _ | _, Blank => 0
  | OnDay s, OnDay e => Z.max 0 (e - s)
  | _, _ => 0
  end.

(** [nights] and [previewTotal] *)
Definition nights (v : FormValues) : Z :=
  daysBetween (check_in v) (check_out v).

Definition previewTotal (v : FormValues) : Z :=
  Z.max 0 (nights v * default 0 (rate_night v)).

Definition blank_to_null (s : option string) : option string :=
  match s with
  | Some t => if eqs (trim t) "" then None else Some (trim t)
  | None => None
  end.

(** The row [onSubmit] sends, given the id the store assigns; [None]
    when one of its dates is not a date. *)
Definition row_of (new_id : string) (v : FormValues) : option InvoiceRow :=
  let subtotal := Z.max 0 (previewTotal v) in
  match issue_date v, due_date v, check_in v, check_out v with
  | OnDay i, OnDay d, OnDay ci, OnDay co =>
      Some {| inv_id := new_id;
              inv_number := blank_to_null (number v);
              inv_hotel_id := hotel_id v;
              inv_company_id := Some (company_id v);
              inv_client_id := Some (client_id v);
              inv_confirmation_no := blank_to_null (confirmation_no v);
              inv_case_no := blank_to_null (case_no v);
              inv_issue_date := i; inv_due_date := d;
              inv_check_in := Some ci; inv_check_out := Some co;
              inv_rate_night := Some (default 0 (rate_night v));
              inv_subtotal := subtotal; inv_tax := 0;
              inv_balance := subtotal; inv_status := "open";
              inv_deleted_at := None |}
  | _, _, _, _ => None
  end.

(** [onSubmit(values)]: one insert in [invoices].  The store refuses
    a text that is not a date in a [date] column. *)
Definition onSubmit (new_id : string) (values : FormValues) (db : DB)
    : DB * Outcome :=
  if fails InsertInvoice then (db, StoreError InsertInvoice)
  else
    match row_of new_id values with
    | Some row => (with_invoices (invoices db ++ [row]) db,
                   Succeeded "Invoice created")
    | None => (db, StoreError InsertInvoice)
    end.

(** [handleSubmit(onSubmit)]: the form is submitted only when
    [schema] raises no issue; otherwise the issues are shown. *)
Definition handleSubmit (new_id : string) (values : FormValues) (db : DB)
    : DB * Submitted :=
  match schema values with
  | [] => let '(db', o) := onSubmit new_id values db in (db', Ran o)
  | issues => (db, Invalid issues)
  end.
End Page.
End NewInvoice.

(** ** [Array.prototype.sort] *)

(** The sort of the language is stable; with a consistent comparator its
    result is the stable sorted arrangement, here built by insertion. *)
Fixpoint insert_by {A} (cmp : A -> A -> Z) (x : A) (l : list A) : list A :=
  match l with
  | [] => [x]
  | y :: l' => if cmp x y <=? 0 then x :: y :: l' else y :: insert_by cmp x l'
  end.

Definition sort_by {A} (cmp : A -> A -> Z) (l : list A) : list A :=
  foldr (insert_by cmp) [] l.


(** ** The aging report page *)

Module Aging.

Record Detail := {
  id : string;
  number : string;
  due_date : option string;
  balance : Z;
  bucket : string
}.

Record BucketGroup := {
  label : string;
  total : Z;
  count : Z;
  rows : list Detail
}.

Record InvoiceMeta := {
  meta_id : string;
  hotel_id : option string;
  company_name : option string
}.

Record CompanyRow := {
  company : string;
  co_count : Z;
  b0_30 : Z;
  b31_60 : Z;
  b61_90 : Z;
  b91p : Z;
  co_total : Z
}.

Definition BUCKET_ORDER : list string :=
  ["Current (0-30)"; "31-60"; "61-90"; "91+"].

Definition eqs (a b : string) : bool := bool_decide (a = b).

(** [xs.indexOf(x)] *)
Fixpoint indexOf (xs : list string) (x : string) : Z :=
  match xs with
  | [] => -1
  | y :: ys =>
      if eqs y x then 0
      else let i := indexOf ys x in if i =? -1 then -1 else i + 1
  end.

(** A [Map] with string keys, in insertion order:
    [if (!m.has(k)) m.set(k, init); update(m.get(k))]. *)
Fixpoint touch {V} (k : string) (init : V) (update : V -> V)
    (m : list (string * V)) : list (string * V) :=
  match m with
  | [] => [(k, update init)]
  | (k', v) :: m' =>
      if eqs k' k then (k', update v) :: m'
      else (k', v) :: touch k init update m'
  end.

(** [filtered]: the membership guard, then the hotel box
    ([None]: all hotels). *)
Definition filtered (details : list Detail)
    (invoiceMeta : gmap string InvoiceMeta) (hotelId : option string)
    (myHotelIds : list string) : list Detail :=
  let hotel_of d := invoiceMeta !! id d ≫= hotel_id in
  let base :=
    match myHotelIds with
    | [] => details
    | _ => filter (fun d => existsb (eqs (default "" (hotel_of d))) myHotelIds = true)
                  details
    end in
  match hotelId with
  | None => base
  | Some h =>
      filter (fun d => match hotel_of d with
                       | Some x => eqs x h
                       | None => false
                       end = true) base
  end.

(** [row.bucket === 'Paid/Zero'] *)
Definition paid_zero (row : Detail) : bool := eqs (bucket row) "Paid/Zero".

(** [{ label, total: 0, count: 0, rows: [] }] *)
Definition new_group (l : string) : BucketGroup :=
  {| label := l; total := 0; count := 0; rows := [] |}.

Definition add_row (row : Detail) (g : BucketGroup) : BucketGroup :=
  {| label := label g; total := total g + balance row;
     count := count g + 1; rows := rows g ++ [row] |}.

Definition group_step (map : list (string * BucketGroup)) (row : Detail)
    : list (string * BucketGroup) :=
  if paid_zero row then map
  else touch (bucket row) (new_group (bucket row)) (add_row row) map.

Definition rank (l : string) : Z :=
  let i := indexOf BUCKET_ORDER l in if i =? -1 then 999 else i.

(** [groups] *)
Definition groups (filtered : list Detail) : list BucketGroup :=
  sort_by (fun a b => rank (label a) - rank (label b))
          (snd <$> fold_left group_step filtered []).

(** [grandTotal], [grandCount] *)
Definition grandTotal (filtered : list Detail) : Z :=
  fold_left (fun s g => s + total g) (groups filtered) 0.

Definition grandCount (filtered : list Detail) : Z :=
  fold_left (fun s g => s + count g) (groups filtered) 0.

(** [meta?.company_name || '(no company)'] *)
Definition company_of (invoiceMeta : gmap string InvoiceMeta) (r : Detail)
    : string :=
  match invoiceMeta !! id r ≫= company_name with
  | Some n => if eqs n "" then "(no company)" else n
  | None => "(no company)"
  end.

(** [{ company: name, count: 0, b0_30: 0, ..., total: 0 }] *)
Definition new_company (name : string) : CompanyRow :=
  {| company := name; co_count := 0; b0_30 := 0; b31_60 := 0;
     b61_90 := 0; b91p := 0; co_total := 0 |}.

(** The amount goes to the column of the row's bucket (the four labels
    differ, so at most one column takes it) and to the total. *)
Definition add_amount (r : Detail) (a : CompanyRow) : CompanyRow :=
  let amt := balance r in
  let on l := if eqs (bucket r) l then amt else 0 in
  {| company := company a; co_count := co_count a + 1;
     b0_30 := b0_30 a + on "Current (0-30)";
     b31_60 := b31_60 a + on "31-60";
     b61_90 := b61_90 a + on "61-90";
     b91p := b91p a + on "91+";
     co_total := co_total a + amt |}.

Definition company_step (invoiceMeta : gmap string InvoiceMeta)
    (agg : list (string * CompanyRow)) (r : Detail)
    : list (string * CompanyRow) :=
  if paid_zero r then agg
  else
    let name := company_of invoiceMeta r in
    touch name (new_company name) (add_amount r) agg.

(** [m.get(k)] *)
Fixpoint get {V} (m : list (string * V)) (k : string) : option V :=
  match m with
  | [] => None
  | (k', v) :: m' => if eqs k' k then Some v else get m' k
  end.

(** The two loops above are one scheme: a row that is not skipped is
    added to the entry of its key. *)
Definition tally {V} (key : Detail -> string) (skip : Detail -> bool)
    (init : string -> V) (update : Detail -> V -> V)
    (m : list (string * V)) (r : Detail) : list (string * V) :=
  if skip r then m else touch (key r) (init (key r)) (update r) m.

(** The rows that count for the entry of [k]. *)
Definition counted (key : Detail -> string) (skip : Detail -> bool)
    (k : string) (rows : list Detail) : list Detail :=
  filter (fun r => skip r = false /\ key r = k) rows.




(** A row of [companyTotalsForBucket]. *)
Record CompanyTotal := {
  ct_company : string;
  ct_count : Z;
  ct_total : Z
}.

(** [{ company: name, count: 0, total: 0 }] *)
Definition new_company_total (name : string) : CompanyTotal :=
  {| ct_company := name; ct_count := 0; ct_total := 0 |}.

(** [a.count += 1; a.total += Number(r.balance) || 0] *)
Definition add_to_total (r : Detail) (a : CompanyTotal) : CompanyTotal :=
  {| ct_company := ct_company a; ct_count := ct_count a + 1;
     ct_total := ct_total a + balance r |}.

(** One turn of the loop of [companyTotalsForBucket]. *)
Definition bucket_step (invoiceMeta : gmap string InvoiceMeta)
    (agg : list (string * CompanyTotal)) (r : Detail)
    : list (string * CompanyTotal) :=
  let name := company_of invoiceMeta r in
  touch name (new_company_total name) (add_to_total r) agg.

Section Breakdown.
(** [String.prototype.localeCompare] of the host. *)
Variable localeCompare : string -> string -> Z.

(** [(x, y) => y.total - x.total || x.company.localeCompare(y.company)] *)
Definition by_total_then_name (x y : CompanyRow) : Z :=
  if co_total y - co_total x =? 0
  then localeCompare (company x) (company y)
  else co_total y - co_total x.

(** [byCompanyAllBuckets] *)
Definition byCompanyAllBuckets (filtered : list Detail)
    (invoiceMeta : gmap string InvoiceMeta) : list CompanyRow :=
  sort_by by_total_then_name
          (snd <$> fold_left (company_step invoiceMeta) filtered []).

(** [(x, y) => y.total - x.total || x.company.localeCompare(y.company)],
    on the rows of one bucket. *)
Definition by_bucket_total_then_name (x y : CompanyTotal) : Z :=
  if ct_total y - ct_total x =? 0
  then localeCompare (ct_company x) (ct_company y)
  else ct_total y - ct_total x.

(** [companyTotalsForBucket(label)] *)
Definition companyTotalsForBucket (filtered : list Detail)
    (invoiceMeta : gmap string InvoiceMeta) (l : string) : list CompanyTotal :=
  match List.find (fun x => eqs (label x) l) (groups filtered) with
  | None => []
  | Some g =>
      sort_by by_bucket_total_then_name
        (snd <$> fold_left (bucket_step invoiceMeta) (rows g) [])
  end.
End Breakdown.

(** [visibleHotels]: the hotels of the dropdown, as ids. *)
Definition visibleHotels (hotels myHotelIds : list string) : list string :=
  filter (fun h => match myHotelIds with
                   | [] => true
                   | _ => existsb (eqs h) myHotelIds
                   end = true) hotels.
End Aging.

(** ** The company breakdown, with the page's doubles *)

Module AgingDouble.
Import Aging.

(** The double of a whole number below 2^63 in size. *)
Definition of_Z (x : Z) : PrimFloat.float :=
  if x <? 0 then PrimFloat.opp (PrimFloat.of_uint63 (Uint63.of_Z (- x)))
  else PrimFloat.of_uint63 (Uint63.of_Z x).

(** [Number(r.balance) || 0] of an amount the store holds: the double
    nearest to it (the division of two whole numbers that doubles hold
    exactly is rounded to the nearest double). *)
Definition Number (x : Z) : PrimFloat.float :=
  PrimFloat.div (of_Z x) (of_Z 1000000).

Record CompanyRow := {
  company : string;
  count : Z;
  b0_30 : PrimFloat.float;
  b31_60 : PrimFloat.float;
  b61_90 : PrimFloat.float;
  b91p : PrimFloat.float;
  total : PrimFloat.float
}.

(** [{ company: name, count: 0, b0_30: 0, ..., total: 0 }] *)
Definition new_company (name : string) : CompanyRow :=
  {| company := name; count := 0; b0_30 := PrimFloat.zero;
     b31_60 := PrimFloat.zero; b61_90 := PrimFloat.zero;
     b91p := PrimFloat.zero; total := PrimFloat.zero |}.

Definition add_amount (r : Detail) (a : CompanyRow) : CompanyRow :=
  let amt := Number (balance r) in
  let on l x := if Aging.eqs (bucket r) l then PrimFloat.add x amt else x in
  {| company := company a; count := count a + 1;
     b0_30 := on "Current (0-30)" (b0_30 a);
     b31_60 := on "31-60" (b31_60 a);
     b61_90 := on "61-90" (b61_90 a);
     b91p := on "91+" (b91p a);
     total := PrimFloat.add (total a) amt |}.

Definition company_step (invoiceMeta : gmap string InvoiceMeta)
    (agg : list (string * CompanyRow)) (r : Detail)
    : list (string * CompanyRow) :=
  if paid_zero r then agg
  else
    let name := company_of invoiceMeta r in
    touch name (new_company name) (add_amount r) agg.

Section Breakdown.
Variable localeCompare : string -> string -> Z.

(** [(x, y) => y.total - x.total || x.company.localeCompare(y.company)],
    by its sign: the difference when it is neither 0 nor NaN. *)
Definition by_total_then_name (x y : CompanyRow) : Z :=
  let d := PrimFloat.sub (total y) (total x) in
  if PrimFloat.ltb PrimFloat.zero d then 1
  else if PrimFloat.ltb d PrimFloat.zero then -1
  else localeCompare (company x) (company y).

(** [byCompanyAllBuckets] *)
Definition byCompanyAllBuckets (filtered : list Detail)
    (invoiceMeta : gmap string InvoiceMeta) : list CompanyRow :=
  sort_by by_total_then_name
          (snd <$> fold_left (company_step invoiceMeta) filtered []).
End Breakdown.
End AgingDouble.

(** An amount with no fraction of a cent. *)
Definition whole_cents (x : Z) : Prop := x mod 10000 = 0.

(** ** The listing page: what it shows of the rows *)

Module InvoicesView.
Import Db Invoices.

(** [Number(r.total || 0)] *)
Definition total_of (r : RowWithAgg) : Z := default 0 (total r).

(** [liveBalance = Math.max(0, total - payments)], the balance the page
    prints for a row. *)
Definition liveBalance (r : RowWithAgg) : Z := Z.max 0 (total_of r - payments r).

Record Summary := {
  s_total : Z;
  s_payments : Z;
  s_balance : Z
}.

(** [summary] *)
Definition summary (rows : list RowWithAgg) : Summary :=
  fold_left
    (fun s r =>
       {| s_total := s_total s + total_of r;
          s_payments := s_payments s + payments r;
          s_balance := s_balance s + Z.max 0 (total_of r - payments r) |})
    rows {| s_total := 0; s_payments := 0; s_balance := 0 |}.

(** The four counts the page prints. *)
Record Counts := {
  c_open : Z;
  c_partial : Z;
  c_paid : Z;
  c_void : Z
}.

(** One turn of the loop of [statusCounts]:
    [k = (r.status || '').toLowerCase(); if (k in c) c[k]++].
    (A key the object inherits is no count the page prints.) *)
Definition count_row (c : Counts) (r : RowWithAgg) : Counts :=
  let k := toLowerCase (status r) in
  if eqs k "open" then
    {| c_open := c_open c + 1; c_partial := c_partial c;
       c_paid := c_paid c; c_void := c_void c |}
  else if eqs k "partial" then
    {| c_open := c_open c; c_partial := c_partial c + 1;
       c_paid := c_paid c; c_void := c_void c |}
  else if eqs k "paid" then
    {| c_open := c_open c; c_partial := c_partial c;
       c_paid := c_paid c + 1; c_void := c_void c |}
  else if eqs k "void" then
    {| c_open := c_open c; c_partial := c_partial c;
       c_paid := c_paid c; c_void := c_void c + 1 |}
  else c.

(** [statusCounts] *)
Definition statusCounts (rows : list RowWithAgg) : Counts :=
  fold_left count_row rows
    {| c_open := 0; c_partial := 0; c_paid := 0; c_void := 0 |}.

(** The rows whose status, in lower case, is [k]. *)
Definition with_status (k : string) (rows : list RowWithAgg) : list RowWithAgg :=
  filter (fun r => toLowerCase (status r) = k) rows.

End InvoicesView.

(** ** The menu of a row *)

Module RowMenu.

(** [clamp(n, min, max)] *)
Definition clamp (n min max : Z) : Z := Z.max min (Z.min max n).

(** The button's rectangle and the window, in pixels. *)
Record Rect := {
  top : Z;
  bottom : Z;
  right : Z
}.

Record Window := {
  innerWidth : Z;
  innerHeight : Z;
  scrollX : Z;
  scrollY : Z
}.

Definition menuW : Z := 192.
Definition menuH : Z := 170.

(** The place [toggle] gives the popover, as (top, left). *)
Definition place (rect : Rect) (w : Window) : Z * Z :=
  let spaceBelow := innerHeight w - bottom rect in
  let openUp := spaceBelow <? menuH + 8 in
  let top0 := (if openUp then top rect - menuH - 8 else bottom rect + 8)
              + scrollY w in
  let left0 := right rect - menuW + scrollX w in
  let left1 := clamp left0 (8 + scrollX w) (scrollX w + innerWidth w - menuW - 8) in
  let top1 := clamp top0 (scrollY w + 8) (scrollY w + innerHeight w - menuH - 8) in
  (top1, left1).

(** The popover is drawn with [position: fixed] at [top] and [left], so
    these are distances from the window's top left corner.  It lies in
    the window, 8 pixels off every edge: *)
Definition inside_window (w : Window) (t l : Z) : Prop :=
  8 <= l /\ l + menuW <= innerWidth w - 8
  /\ 8 <= t /\ t + menuH <= innerHeight w - 8.

End RowMenu.

(** ** The payments listing: what it shows of the rows *)

Module PaymentsView.
Import Db.

(** An allocation as the page holds it, with the company and the hotel
    of its invoice. *)
Record Allocation := {
  payment_id : string;
  invoice_id : string;
  amount : Z;
  invoice_company_id : option string;
  invoice_hotel_id : option string
}.

Record Hotel := {
  hotel_id : string;
  hotel_name : string
}.

(** [new Set(hotels.map(h => h.id))] *)
Definition activeHotelIds (hotels : list Hotel) : gset string :=
  list_to_set (hotel_id <$> hotels).

(** A text that is neither null nor empty. *)
Definition truthy (s : option string) : bool :=
  match s with
  | Some t => negb (eqs t "")
  | None => false
  end.

(** [a.invoice_hotel_id && activeHotelIds.has(a.invoice_hotel_id)] *)
Definition in_active_hotel (active : gset string) (a : Allocation) : bool :=
  truthy (invoice_hotel_id a)
  && bool_decide (default "" (invoice_hotel_id a) ∈ active).

(** [appliedByPayment] *)
Definition appliedByPayment (allocs : list Allocation) (active : gset string)
    : gmap string Z :=
  fold_left
    (fun map a =>
       if in_active_hotel active a
       then <[payment_id a := default 0 (map !! payment_id a) + amount a]> map
       else map)
    allocs ∅.

(** [{ companies: Set<string>, hotels: Set<string> }] *)
Record Entry := {
  companies : gset string;
  hotels : gset string
}.

(** [{ companies: new Set(), hotels: new Set() }] *)
Definition no_entry : Entry := {| companies := ∅; hotels := ∅ |}.

(** One turn of the loop of [indexByPayment]. *)
Definition index_step (active : gset string) (byPayment : gmap string Entry)
    (a : Allocation) : gmap string Entry :=
  if negb (in_active_hotel active a) then byPayment
  else
    let entry := default no_entry (byPayment !! payment_id a) in
    let entry :=
      if truthy (invoice_company_id a)
      then {| companies := {[ default "" (invoice_company_id a) ]} ∪ companies entry;
              hotels := hotels entry |}
      else entry in
    let entry :=
      if truthy (invoice_hotel_id a)
      then {| companies := companies entry;
              hotels := {[ default "" (invoice_hotel_id a) ]} ∪ hotels entry |}
      else entry in
    <[payment_id a := entry]> byPayment.

(** [indexByPayment] *)
Definition indexByPayment (allocs : list Allocation) (active : gset string)
    : gmap string Entry :=
  fold_left (index_step active) allocs ∅.

(** [filteredRows]; ['all'] is [None]. *)
Definition filteredRows (rows : list PaymentRow) (index : gmap string Entry)
    (companyId hotelId : option string) : list PaymentRow :=
  match companyId, hotelId with
  | None, None => rows
  | _, _ =>
      filter
        (fun r =>
           match index !! pay_id r with
           | None => false
           | Some entry =>
               match companyId with
               | None => true
               | Some c => bool_decide (c ∈ companies entry)
               end
               && match hotelId with
                  | None => true
                  | Some h => bool_decide (h ∈ hotels entry)
                  end
           end = true)
        rows
  end.

(** The allocations the page counts for a payment: those of the payment
    whose invoice is in a hotel of the list. *)
Definition counts_for (active : gset string) (p : string) (a : Allocation)
    : Prop :=
  payment_id a = p /\ in_active_hotel active a = true.

(** [appliedByPayment.get(r.id) ?? 0] *)
Definition applied_of (applied : gmap string Z) (r : PaymentRow) : Z :=
  default 0 (applied !! pay_id r).

Record Summary := {
  s_amount : Z;
  s_applied : Z;
  s_unapplied : Z
}.

(** [summary] *)
Definition summary (filteredRows : list PaymentRow) (applied : gmap string Z)
    : Summary :=
  fold_left
    (fun s r =>
       {| s_amount := s_amount s + pay_amount r;
          s_applied := s_applied s + applied_of applied r;
          s_unapplied :=
            s_unapplied s + Z.max 0 (pay_amount r - applied_of applied r) |})
    filteredRows {| s_amount := 0; s_applied := 0; s_unapplied := 0 |}.

Record Counts := {
  c_payments : Z;
  c_withAlloc : Z;
  c_unallocated : Z
}.

(** [counts] *)
Definition counts (filteredRows : list PaymentRow) (applied : gmap string Z)
    : Counts :=
  {| c_payments := Z.of_nat (length filteredRows);
     c_withAlloc :=
       Z.of_nat (length (filter (fun r => (0 <? applied_of applied r) = true)
                                filteredRows));
     c_unallocated :=
       Z.of_nat (length (filter (fun r => (applied_of applied r <=? 0) = true)
                                filteredRows)) |}.

End PaymentsView.

(** ** The ledger as a whole *)

Module Ledger.
Import Db.

(** The operations that change the ledger, with the user's answers. *)
Inductive Op :=
| CreateInvoice (new_id : string) (values : NewInvoice.FormValues)
| RecordPayment (alloc : NewPayment.Alloc) (confirmed : bool)
    (new_id : string) (values : NewPayment.PayForm)
| DeletePayment (row : PaymentRow) (confirmed : bool)
| UpdateTotal (row : Invoices.RowWithAgg) (ans : Prompt (option Z))
| VoidInvoice (row : Invoices.RowWithAgg) (reason : Prompt string).

Section Run.
Variable uuid : string -> bool.
Variable fails : Call -> bool.

(** The store after an operation. *)
Definition step (op : Op) (db : DB) : DB :=
  match op with
  | CreateInvoice new_id values =>
      (NewInvoice.handleSubmit uuid fails new_id values db).1
  | RecordPayment alloc confirmed new_id values =>
      (NewPayment.handleSubmit fails alloc confirmed new_id values db).1
  | DeletePayment row confirmed =>
      (Payments.deletePayment fails row confirmed db).1
  | UpdateTotal row ans => (Invoices.updateTotal fails row ans db).1
  | VoidInvoice row reason => (Invoices.voidInvoice fails row reason db).1
  end.
End Run.

(** [balance == max(0, total - sum of active allocations)] *)
Definition balance_ok (db : DB) (i : InvoiceRow) : Prop :=
  inv_balance i = Z.max 0 (inv_total i - paid_to_date db (inv_id i)).

Definition consistent (db : DB) : Prop := Forall (balance_ok db) (invoices db).

(** What of a payment is not allocated. *)
Definition room (db : DB) (p : PaymentRow) : Z :=
  pay_amount p - allocated_of_payment db (pay_id p).

(** No call to the store fails. *)
Definition reliable (fails : Call -> bool) : Prop := forall c, fails c = false.

Definition no_faults : Call -> bool := fun _ => false.

(** The invoice table has a primary key. *)
Definition keyed (db : DB) : Prop := NoDup (inv_id <$> invoices db).

(** The audit row [voidInvoice] writes. *)
Definition void_event (id reason : string) : AuditRow :=
  {| au_invoice_id := id; au_action := "void_invoice";
     au_note := if eqs reason "" then None else Some reason;
     au_details := [] |}.

(** The audit row [updateTotal] writes. *)
Definition update_event (id : string) (old_total new_total : Z) : AuditRow :=
  {| au_invoice_id := id; au_action := "update_total"; au_note := None;
     au_details := [("old_total", old_total); ("new_total", new_total)] |}.

Definition succeeded (o : Outcome) : Prop :=
  match o with Succeeded _ => True | _ => False end.

End Ledger.

(** ** Scenarios *)

Module Scenario.
Import Db.

Definition invoice (id : string) (subtotal balance : Z) (status : string)
    : InvoiceRow :=
  {| inv_id := id; inv_number := Some "1001"; inv_hotel_id := "hotel-1";
     inv_company_id := Some "company-1"; inv_client_id := Some "client-1";
     inv_confirmation_no := None; inv_case_no := None;
     inv_issue_date := 19800; inv_due_date := 19830;
     inv_check_in := Some 19790; inv_check_out := Some 19795;
     inv_rate_night := Some (dollars 100);
     inv_subtotal := subtotal; inv_tax := 0; inv_balance := balance;
     inv_status := status; inv_deleted_at := None |}.

Definition payment (id : string) (amount : Z) : PaymentRow :=
  {| pay_id := id; pay_method := "ach"; pay_reference := "ref";
     pay_amount := amount; pay_received_date := "2024-03-01";
     pay_check_date := None |}.

Definition allocation (pid iid : string) (amount : Z) : AllocationRow :=
  {| al_payment_id := pid; al_invoice_id := iid; al_amount := amount;
     al_deleted_at := None |}.

(** The invoice as the listing page shows it. *)
Definition listed (db : DB) (i : InvoiceRow) : Invoices.RowWithAgg :=
  Invoices.merge_row i (paid_to_date db (inv_id i)).

(** Scenario D: an invoice of 400.00 with allocations of 100.00 and
    150.00 from two payments. *)
Definition inv_D : InvoiceRow :=
  invoice "inv-D" (dollars 400) (dollars 150) "partial".

Definition db_D : DB :=
  {| invoices := [inv_D];
     payments := [payment "pay-1" (dollars 100); payment "pay-2" (dollars 300)];
     allocations := [allocation "pay-1" "inv-D" (dollars 100);
                     allocation "pay-2" "inv-D" (dollars 150)];
     invoice_audit := [] |}.

(** Scenario E: an invoice of 500.00 of which 400.00 is paid. *)
Definition inv_E : InvoiceRow :=
  invoice "inv-E" (dollars 500) (dollars 100) "partial".

Definition db_E : DB :=
  {| invoices := [inv_E];
     payments := [payment "pay-1" (dollars 400)];
     allocations := [allocation "pay-1" "inv-E" (dollars 400)];
     invoice_audit := [] |}.

(** An open invoice of 500.00 with nothing paid. *)
Definition inv_B : InvoiceRow :=
  invoice "inv-B" (dollars 500) (dollars 500) "open".

Definition db_B : DB :=
  {| invoices := [inv_B]; payments := []; allocations := [];
     invoice_audit := [] |}.

(** An invoice of 500.00 of which 200.00 is paid. *)
Definition inv_P : InvoiceRow :=
  invoice "inv-P" (dollars 500) (dollars 300) "partial".

Definition db_P : DB :=
  {| invoices := [inv_P];
     payments := [payment "pay-1" (dollars 200)];
     allocations := [allocation "pay-1" "inv-P" (dollars 200)];
     invoice_audit := [] |}.

(** A payment of 200.00 by transfer. *)
Definition pay_200 : NewPayment.PayForm :=
  {| NewPayment.method := "ach"; NewPayment.reference := Some "TR-77";
     NewPayment.amount := dollars 200;
     NewPayment.received_date := "2024-03-01";
     NewPayment.check_date := None |}.

(** The page after 200.00 was typed in the box of invoice [inv-B]. *)
Definition alloc_B : NewPayment.Alloc :=
  NewPayment.setAllocFor (NewPayment.load_invoices None db_B) "inv-B"
    (Some (dollars 200)) [].

(** A payment of 600.00 by transfer. *)
Definition pay_600 : NewPayment.PayForm :=
  {| NewPayment.method := "ach"; NewPayment.reference := Some "TR-78";
     NewPayment.amount := dollars 600;
     NewPayment.received_date := "2024-03-01";
     NewPayment.check_date := None |}.

Definition any_uuid : string -> bool := fun _ => true.

(** A void invoice whose stored balance is still 70.00 and to which an
    allocation of 30.00 still points. *)
Definition inv_V : InvoiceRow := invoice "inv-V" (dollars 100) (dollars 70) "void".

Definition db_V : DB :=
  {| invoices := [inv_V; inv_B];
     payments := [payment "pay-1" (dollars 30)];
     allocations := [allocation "pay-1" "inv-V" (dollars 30)];
     invoice_audit := [] |}.

(** A comparison of strings by their characters' codes, standing for the
    host's [localeCompare]. *)
Definition compare_codes (a b : string) : Z :=
  if decide (a = b) then 0 else if decide (String.le a b) then -1 else 1.

Definition detail (id bucket : string) (balance : Z) : Aging.Detail :=
  {| Aging.id := id; Aging.number := id; Aging.due_date := None;
     Aging.balance := balance; Aging.bucket := bucket |}.

Definition meta (id company : string) : string * Aging.InvoiceMeta :=
  (id, {| Aging.meta_id := id; Aging.hotel_id := Some "hotel-1";
          Aging.company_name := Some company |}).

(** Six invoices of three companies; one is paid, two companies owe the
    same. *)
Definition aging_rows : list Aging.Detail :=
  [ detail "i1" "91+" (dollars 50);
    detail "i2" "Current (0-30)" (dollars 120);
    detail "i3" "Paid/Zero" 0;
    detail "i4" "31-60" (dollars 120);
    detail "i5" "Current (0-30)" (dollars 50);
    detail "i6" "61-90" (dollars 300) ].

Definition aging_meta : gmap string Aging.InvoiceMeta :=
  list_to_map [ meta "i1" "Birch"; meta "i2" "Cedar"; meta "i3" "Cedar";
                meta "i4" "Birch"; meta "i5" "Cedar"; meta "i6" "Alder" ].

(** Two companies that owe the same, 219.98: Zeta on two invoices, Alpha
    on one. *)
Definition tie_rows : list Aging.Detail :=
  [ detail "z1" "Current (0-30)" (cents 8999);
    detail "z2" "31-60" (cents 12999);
    detail "a1" "Current (0-30)" (cents 21998) ].

Definition tie_meta : gmap string Aging.InvoiceMeta :=
  list_to_map [ meta "z1" "Zeta"; meta "z2" "Zeta"; meta "a1" "Alpha" ].

(** The listing with no search text and every hotel and company. *)
Definition show_all : Invoices.Filters :=
  {| Invoices.search := ""; Invoices.window := (19724, 20089);
     Invoices.companyId := None; Invoices.hotelId := None;
     Invoices.hotels := [("hotel-1", "Harbour Inn")];
     Invoices.clients := [("client-1", "A. Reyes")] |}.

(** A form with a negative rate. *)
Definition form_negative : NewInvoice.FormValues :=
  {| NewInvoice.hotel_id := "hotel-1"; NewInvoice.company_id := "company-1";
     NewInvoice.client_id := "client-1";
     NewInvoice.confirmation_no := None; NewInvoice.number := None;
     NewInvoice.case_no := None;
     NewInvoice.issue_date := NewInvoice.OnDay 19800;
     NewInvoice.due_date := NewInvoice.OnDay 19830;
     NewInvoice.check_in := NewInvoice.OnDay 19800;
     NewInvoice.check_out := NewInvoice.OnDay 19802;
     NewInvoice.rate_night := Some (dollars (-100)) |}.

(** A stay entered backwards: check-in on day 19800, check-out five days
    before, at 100.00 a night. *)
Definition form_backwards : NewInvoice.FormValues :=
  {| NewInvoice.hotel_id := "hotel-1"; NewInvoice.company_id := "company-1";
     NewInvoice.client_id := "client-1";
     NewInvoice.confirmation_no := Some ""; NewInvoice.number := Some "1002";
     NewInvoice.case_no := Some "";
     NewInvoice.issue_date := NewInvoice.OnDay 19800;
     NewInvoice.due_date := NewInvoice.OnDay 19830;
     NewInvoice.check_in := NewInvoice.OnDay 19800;
     NewInvoice.check_out := NewInvoice.OnDay 19795;
     NewInvoice.rate_night := Some (dollars 100) |}.

(** The store refuses the insert in [allocations], and nothing else. *)
Definition allocations_refused (c : Call) : bool :=
  match c with InsertAllocations => true | _ => false end.

(** The store after 200.00 was recorded against invoice [inv-B]: the
    stored balance is still 500.00. *)
Definition db_B_paid : DB :=
  (NewPayment.onSubmit Ledger.no_faults alloc_B true "pay-9" pay_200 db_B).1.

(** Scenario D beside the open invoice [inv-B]. *)
Definition db_DB : DB :=
  {| invoices := [inv_D; inv_B]; payments := payments db_D;
     allocations := allocations db_D; invoice_audit := [] |}.

(** The payments page: two hotels listed; a payment applied to invoices
    of both, one applied to an invoice of a hotel no longer listed, and
    one not applied. *)
Definition page_hotels : list PaymentsView.Hotel :=
  [ {| PaymentsView.hotel_id := "h1"; PaymentsView.hotel_name := "North" |};
    {| PaymentsView.hotel_id := "h2"; PaymentsView.hotel_name := "South" |} ].

Definition page_alloc (p i : string) (x : Z) (c h : option string)
    : PaymentsView.Allocation :=
  {| PaymentsView.payment_id := p; PaymentsView.invoice_id := i;
     PaymentsView.amount := x; PaymentsView.invoice_company_id := c;
     PaymentsView.invoice_hotel_id := h |}.

Definition page_allocs : list PaymentsView.Allocation :=
  [ page_alloc "pay-1" "i1" (dollars 100) (Some "c1") (Some "h1");
    page_alloc "pay-1" "i2" (dollars 50) (Some "c2") (Some "h2");
    page_alloc "pay-2" "i3" (dollars 80) (Some "c1") (Some "h9") ].

Definition page_rows : list PaymentRow :=
  [ payment "pay-1" (dollars 200); payment "pay-2" (dollars 80);
    payment "pay-3" (dollars 40) ].

(** Rows as the listing holds them: an open one, one paid in part, one
    paid over its total, a void one and one with a status of its own. *)
Definition listed_rows : list Invoices.RowWithAgg :=
  [ Invoices.merge_row (invoice "r1" (dollars 500) (dollars 500) "open") 0;
    Invoices.merge_row (invoice "r2" (dollars 400) (dollars 150) "Partial")
      (dollars 250);
    Invoices.merge_row (invoice "r3" (dollars 300) 0 "paid") (dollars 400);
    Invoices.zeroed (Invoices.merge_row (invoice "r4" 0 0 "void") 0);
    Invoices.merge_row (invoice "r5" (dollars 100) (dollars 100) "disputed") 0 ].

End Scenario.

(** * Properties *)

(** ** Sums *)

Lemma safeb_safe (x : Z) : safeb x = true -> safe x.
Proof.
  unfold safeb, safe, whole_dollars.
  rewrite !andb_true_iff, Z.eqb_eq, !Z.leb_le. tauto.
Qed.

Lemma safe_sumb_safe_sum (xs : list Z) : safe_sumb xs = true -> safe_sum xs.
Proof.
  unfold safe_sumb, safe_sum. rewrite andb_true_iff, Z.leb_le.
  intros [Hall Hsum]. split; [|done].
  apply Forall_forall. intros x Hx. apply safeb_safe.
  apply (proj1 (forallb_forall safeb xs) Hall x).
  by apply list_elem_of_In.
Qed.

Lemma fold_add_acc (l : list Z) (a : Z) : fold_left Z.add l a = a + sum l.
Proof.
  unfold sum. revert a.
  induction l as [|x l IH]; intros a; simpl; [lia|].
  rewrite (IH (a + x)), (IH (0 + x)). lia.
Qed.

Lemma sum_nil : sum [] = 0.
Proof. reflexivity. Qed.

Lemma sum_cons (x : Z) (l : list Z) : sum (x :: l) = x + sum l.
Proof. unfold sum at 1. simpl. apply fold_add_acc. Qed.

Lemma sum_app (l1 l2 : list Z) : sum (l1 ++ l2) = sum l1 + sum l2.
Proof.
  induction l1 as [|x l1 IH]; simpl; [rewrite sum_nil; lia|].
  rewrite !sum_cons, IH. lia.
Qed.

Lemma sum_nonneg (l : list Z) : Forall (fun x => 0 <= x) l -> 0 <= sum l.
Proof.
  induction 1 as [|x l Hx _ IH]; [rewrite sum_nil; lia|].
  rewrite sum_cons. lia.
Qed.

(** ** The sort *)

Lemma insert_by_perm {A} (cmp : A -> A -> Z) (x : A) (l : list A) :
  insert_by cmp x l ≡ₚ x :: l.
Proof.
  induction l as [|y l IH]; simpl; [done|].
  destruct (cmp x y <=? 0); [done|].
  rewrite IH. apply perm_swap.
Qed.

Lemma sort_by_perm {A} (cmp : A -> A -> Z) (l : list A) : sort_by cmp l ≡ₚ l.
Proof.
  induction l as [|x l IH]; simpl; [done|].
  fold (sort_by cmp l). rewrite insert_by_perm. by rewrite IH.
Qed.

Lemma elem_of_sort_by {A} (cmp : A -> A -> Z) (l : list A) (x : A) :
  x ∈ sort_by cmp l <-> x ∈ l.
Proof. by rewrite (sort_by_perm cmp l). Qed.

Section SortConsistent.
Context {A : Type} (cmp : A -> A -> Z).

(** A consistent comparator: of two elements one is not after the
    other, and "not after" is transitive. *)
Hypothesis cmp_total : forall x y, 0 < cmp x y -> cmp y x <= 0.
Hypothesis cmp_trans : forall x y z, cmp x y <= 0 -> cmp y z <= 0 -> cmp x z <= 0.


End SortConsistent.

(** ** The store *)

Section StoreFacts.
Import Db.

Lemma eqs_true (a b : string) : eqs a b = true <-> a = b.
Proof. unfold eqs. apply bool_decide_eq_true. Qed.

Lemma eqs_false (a b : string) : eqs a b = false <-> a <> b.
Proof. unfold eqs. apply bool_decide_eq_false. Qed.

Lemma eqs_refl (a : string) : eqs a a = true.
Proof. by apply eqs_true. Qed.

Lemma sum_filter_split {A} (f : A -> Z) (P Q : A -> Prop)
    `{!forall a, Decision (P a)} `{!forall a, Decision (Q a)} (l : list A) :
  sum (f <$> filter P l)
  = sum (f <$> filter (fun a => P a /\ Q a) l)
    + sum (f <$> filter (fun a => P a /\ ~ Q a) l).
Proof.
  induction l as [|x l IH]; [done|].
  rewrite !filter_cons.
  destruct (decide (P x)) as [HP|HP], (decide (Q x)) as [HQ|HQ];
    repeat case_decide; try tauto; rewrite ?fmap_cons, ?sum_cons; lia.
Qed.

Lemma filter_filter_and {A} (P Q : A -> Prop)
    `{!forall a, Decision (P a)} `{!forall a, Decision (Q a)} (l : list A) :
  filter P (filter Q l) = filter (fun a => P a /\ Q a) l.
Proof.
  induction l as [|x l IH]; [done|].
  rewrite !filter_cons.
  destruct (decide (Q x)) as [HQ|HQ]; rewrite ?filter_cons;
    repeat case_decide; try tauto; by rewrite ?IH.
Qed.

Lemma update_invoices_table id f db :
  invoices (update_invoices id f db).1
  = (fun i => if eqs (inv_id i) id && is_null (inv_deleted_at i) then f i else i)
      <$> invoices db.
Proof. reflexivity. Qed.

Lemma update_invoices_rest id f db :
  payments (update_invoices id f db).1 = payments db
  /\ allocations (update_invoices id f db).1 = allocations db
  /\ invoice_audit (update_invoices id f db).1 = invoice_audit db.
Proof. done. Qed.

(** The update reports a row exactly when a live invoice has the id. *)
Lemma update_invoices_hit id f db inv :
  inv ∈ invoices db -> inv_id inv = id -> inv_deleted_at inv = None ->
  (update_invoices id f db).2 <> [].
Proof.
  intros Hin Hid Hlive. unfold update_invoices. simpl.
  assert (inv ∈ filter
            (fun i => eqs (inv_id i) id && is_null (inv_deleted_at i) = true)
            (invoices db)) as Hf.
  { apply list_elem_of_filter. split; [|done].
    rewrite Hlive. simpl. rewrite andb_true_r. by apply eqs_true. }
  intros Hnil. apply fmap_nil_inv in Hnil. rewrite Hnil in Hf.
  by apply not_elem_of_nil in Hf.
Qed.
End StoreFacts.

(** ** Voiding an invoice *)

Section VoidFacts.
Import Db Ledger.

Lemma voidInvoice_run fails row reason db :
  fails DeleteAllocations = false -> fails UpdateInvoices = false ->
  fails LogInvoiceEvent = false ->
  (update_invoices (Invoices.id row) Invoices.set_void
     (delete_allocations
        (fun a => negb (eqs (al_invoice_id a) (Invoices.id row))) db)).2 <> [] ->
  Invoices.voidInvoice fails row (Answer reason) db
  = (log_invoice_event (Invoices.id row) "void_invoice"
       (if eqs reason "" then None else Some reason) []
       (update_invoices (Invoices.id row) Invoices.set_void
          (delete_allocations
             (fun a => negb (eqs (al_invoice_id a) (Invoices.id row))) db)).1,
     Succeeded "Invoice voided").
Proof.
  intros Hd Hu Hl Hhit. unfold Invoices.voidInvoice. rewrite Hd, Hu, Hl.
  destruct (update_invoices _ _ _) as [db2 updated]. simpl in *.
  by destruct updated.
Qed.

Lemma allocated_of_payment_alt db pid :
  allocated_of_payment db pid
  = sum (al_amount <$>
      filter (fun a => al_payment_id a = pid /\ al_deleted_at a = None)
             (allocations db)).
Proof.
  unfold allocated_of_payment. f_equal. f_equal.
  apply list_filter_iff. intros a.
  rewrite andb_true_iff, eqs_true.
  destruct (al_deleted_at a); simpl; intuition congruence.
Qed.

Lemma kept_allocations (id : string) (l : list AllocationRow) :
  filter (fun a => negb (eqs (al_invoice_id a) id) = true) l
  = filter (fun a => al_invoice_id a <> id) l.
Proof.
  apply list_filter_iff. intros a.
  rewrite negb_true_iff. apply eqs_false.
Qed.

(** C5.  Voiding a live invoice, when no call to the store fails: every
    allocation of the invoice is deleted and no other; the payments are
    untouched, so each payment's unallocated room grows by the active
    amounts it had allocated to the invoice; the invoice gets subtotal 0, tax 0,
    balance 0 and status void, the other invoices stay; and exactly one
    [void_invoice] event is appended, whose note is the reason given
    (none when the reason is empty). *)
Theorem voidInvoice_spec fails row reason db inv :
  reliable fails ->
  inv ∈ invoices db -> inv_id inv = Invoices.id row -> inv_deleted_at inv = None ->
  let r := Invoices.voidInvoice fails row (Answer reason) db in
  r.2 = Succeeded "Invoice voided"
  /\ allocations r.1
     = filter (fun a => al_invoice_id a <> Invoices.id row) (allocations db)
  /\ payments r.1 = payments db
  /\ (forall p, room r.1 p
        = room db p
          + sum (al_amount <$>
              filter (fun a => (al_payment_id a = pay_id p
                                /\ al_deleted_at a = None)
                               /\ al_invoice_id a = Invoices.id row)
                     (allocations db)))
  /\ (forall i, i ∈ invoices r.1 -> inv_id i = Invoices.id row ->
        inv_deleted_at i = None ->
        inv_subtotal i = 0 /\ inv_tax i = 0 /\ inv_balance i = 0
        /\ inv_status i = "void")
  /\ Invoices.set_void inv ∈ invoices r.1
  /\ (forall i, i ∈ invoices db -> inv_id i <> Invoices.id row -> i ∈ invoices r.1)
  /\ invoice_audit r.1
     = invoice_audit db ++ [void_event (Invoices.id row) reason].
Proof.
  intros Hrel Hin Hid Hlive r. subst r.
  set (db1 := delete_allocations
                (fun a => negb (eqs (al_invoice_id a) (Invoices.id row))) db).
  assert (invoices db1 = invoices db) as Hinv1 by done.
  rewrite (voidInvoice_run fails row reason db); try apply Hrel.
  2:{ apply (update_invoices_hit _ _ _ inv); by rewrite ?Hinv1. }
  fold db1. simpl.
  split; [done|]. split; [apply kept_allocations|]. split; [done|].
  split.
  { intros p. unfold room. rewrite !allocated_of_payment_alt. simpl.
    rewrite kept_allocations, filter_filter_and.
    rewrite (sum_filter_split al_amount
               (fun a => al_payment_id a = pay_id p /\ al_deleted_at a = None)
               (fun a => al_invoice_id a = Invoices.id row) (allocations db)).
    lia. }
  split.
  { intros i Hi Hidi Hlivei.
    apply list_elem_of_fmap in Hi as (j & -> & Hj).
    destruct (eqs (inv_id j) (Invoices.id row) && is_null (inv_deleted_at j))
      eqn:Hhit; [done|].
    rewrite Hidi, Hlivei, eqs_refl in Hhit. done. }
  split.
  { apply list_elem_of_fmap. exists inv. split; [|done].
    by rewrite Hid, Hlive, eqs_refl. }
  split; [|done].
  intros i Hi Hne. apply list_elem_of_fmap. exists i. split; [|done].
  apply eqs_false in Hne. by rewrite Hne.
Qed.
End VoidFacts.

Section VoidScenario.
Import Db Ledger Scenario.

Lemma voidInvoice_spec_witness :
  let r := Invoices.voidInvoice no_faults (listed db_D inv_D)
             (Answer "entered twice") db_D in
  r.2 = Succeeded "Invoice voided"
  /\ allocations r.1
     = filter (fun a => al_invoice_id a <> "inv-D") (allocations db_D)
  /\ payments r.1 = payments db_D
  /\ (forall p, room r.1 p
        = room db_D p
          + sum (al_amount <$>
              filter (fun a => (al_payment_id a = pay_id p
                                /\ al_deleted_at a = None)
                               /\ al_invoice_id a = "inv-D")
                     (allocations db_D)))
  /\ (forall i, i ∈ invoices r.1 -> inv_id i = "inv-D" ->
        inv_deleted_at i = None ->
        inv_subtotal i = 0 /\ inv_tax i = 0 /\ inv_balance i = 0
        /\ inv_status i = "void")
  /\ Invoices.set_void inv_D ∈ invoices r.1
  /\ (forall i, i ∈ invoices db_D -> inv_id i <> "inv-D" -> i ∈ invoices r.1)
  /\ invoice_audit r.1
     = invoice_audit db_D ++ [void_event "inv-D" "entered twice"].
Proof.
  apply (voidInvoice_spec no_faults (listed db_D inv_D) "entered twice"
           db_D inv_D).
  - intros c. reflexivity.
  - simpl. left.
  - reflexivity.
  - reflexivity.
Defined.

(** Scenario D: both allocations are removed, the two payments regain
    250.00 of room together, the invoice is void with balance 0, and one
    [void_invoice] event is recorded. *)
Example scenario_D :
  let db' := (Invoices.voidInvoice no_faults (listed db_D inv_D)
                (Answer "") db_D).1 in
  allocations db' = []
  /\ sum (room db' <$> payments db') = sum (room db_D <$> payments db_D) + dollars 250
  /\ (inv_balance <$> invoices db') = [0]
  /\ (inv_status <$> invoices db') = ["void"]
  /\ (au_action <$> invoice_audit db') = ["void_invoice"]
  /\ (au_note <$> invoice_audit db') = [None].
Proof. vm_compute. repeat split; reflexivity. Qed.
End VoidScenario.

(** ** Changing an invoice's total *)

Section UpdateTotalFacts.
Import Db Ledger.

Lemma newStatus_cases (newTotal paid : Z) :
  (newTotal = 0 -> Invoices.newStatus newTotal paid = "void")
  /\ (newTotal <> 0 -> paid <= 0 -> Invoices.newStatus newTotal paid = "open")
  /\ (newTotal <> 0 -> 0 < paid < newTotal ->
      Invoices.newStatus newTotal paid = "partial")
  /\ (newTotal <> 0 -> 0 < paid -> newTotal <= paid ->
      Invoices.newStatus newTotal paid = "paid").
Proof.
  unfold Invoices.newStatus.
  destruct (Z.eqb_spec newTotal 0), (Z.leb_spec paid 0), (Z.ltb_spec paid newTotal);
    repeat split; intros; try done; lia.
Qed.

Lemma newStatus_void (newTotal paid : Z) :
  Invoices.newStatus newTotal paid = "void" -> newTotal = 0.
Proof.
  unfold Invoices.newStatus.
  destruct (Z.eqb_spec newTotal 0); [done|].
  destruct (paid <=? 0); [done|]. by destruct (paid <? newTotal).
Qed.

Lemma updateTotal_run fails row newTotal db :
  fails SelectAllocations = false -> fails UpdateInvoices = false ->
  fails LogInvoiceEvent = false -> 0 <= newTotal ->
  let paid := paid_to_date db (Invoices.id row) in
  let u := update_invoices (Invoices.id row)
             (Invoices.set_total newTotal (Z.max 0 (newTotal - paid))
                (Invoices.newStatus newTotal paid)) db in
  u.2 <> [] ->
  Invoices.updateTotal fails row (Answer (Some newTotal)) db
  = (log_invoice_event (Invoices.id row) "update_total" None
       [("old_total", default 0 (Invoices.total row)); ("new_total", newTotal)]
       u.1,
     Succeeded "Total updated").
Proof.
  intros Hs Hu Hl Hpos paid u Hhit. unfold Invoices.updateTotal.
  destruct (Z.ltb_spec newTotal 0) as [?|_]; [lia|].
  rewrite Hs, Hu, Hl. fold (paid_to_date db (Invoices.id row)). fold paid.
  subst u. destruct (update_invoices _ _ _) as [db1 updated]. simpl in *.
  by destruct updated.
Qed.

(** C6, as the code has it.  For a live invoice whose active allocations
    are whole dollars that the page adds without rounding, and a new
    total in whole dollars that is not negative, when no call to the
    store fails: the allocations and the payments are left as they are;
    the invoice gets subtotal = the new total, tax = 0,
    balance = max(0, new total - paid to date); its status is void when
    the new total is 0, and otherwise open when nothing is paid, partial
    when less than the new total is paid, paid when the new total or
    more is paid; the other invoices stay; and one [update_total] event
    is appended, with the total the page listed as [old_total] and the
    new total as [new_total].  (Of amounts whose double sum rounds,
    nothing is said.) *)
Theorem updateTotal_spec fails row newTotal db inv :
  reliable fails -> safe newTotal ->
  safe_sum (active_amounts db (Invoices.id row)) ->
  inv ∈ invoices db -> inv_id inv = Invoices.id row -> inv_deleted_at inv = None ->
  let paid := paid_to_date db (Invoices.id row) in
  let r := Invoices.updateTotal fails row (Answer (Some newTotal)) db in
  r.2 = Succeeded "Total updated"
  /\ allocations r.1 = allocations db
  /\ payments r.1 = payments db
  /\ (forall i, i ∈ invoices r.1 -> inv_id i = Invoices.id row ->
        inv_deleted_at i = None ->
        inv_subtotal i = newTotal /\ inv_tax i = 0
        /\ inv_balance i = Z.max 0 (newTotal - paid)
        /\ (newTotal = 0 -> inv_status i = "void")
        /\ (0 < newTotal -> paid <= 0 -> inv_status i = "open")
        /\ (0 < newTotal -> 0 < paid < newTotal -> inv_status i = "partial")
        /\ (0 < newTotal -> 0 < paid -> newTotal <= paid -> inv_status i = "paid"))
  /\ (exists i, i ∈ invoices r.1 /\ inv_id i = Invoices.id row
                /\ inv_deleted_at i = None)
  /\ (forall i, i ∈ invoices db -> inv_id i <> Invoices.id row -> i ∈ invoices r.1)
  /\ invoice_audit r.1
     = invoice_audit db
       ++ [update_event (Invoices.id row) (default 0 (Invoices.total row)) newTotal].
Proof.
  intros Hrel (_ & Hpos & _) _ Hin Hid Hlive paid r. subst r.
  rewrite (updateTotal_run fails row newTotal db); try apply Hrel; try done.
  2:{ by apply (update_invoices_hit _ _ _ inv). }
  fold paid. simpl.
  split; [done|]. split; [done|]. split; [done|].
  split.
  { intros i Hi Hidi Hlivei.
    apply list_elem_of_fmap in Hi as (j & -> & Hj).
    destruct (eqs (inv_id j) (Invoices.id row) && is_null (inv_deleted_at j))
      eqn:Hhit.
    - simpl. destruct (newStatus_cases newTotal paid) as (Hv & Ho & Hp & Hd).
      repeat split; intros; auto with lia.
    - rewrite Hidi, Hlivei, eqs_refl in Hhit. done. }
  split.
  { eexists. split; [apply list_elem_of_fmap; exists inv; split; [reflexivity|done]|].
    rewrite Hid, Hlive, eqs_refl. simpl. done. }
  split; [|done].
  intros i Hi Hne. apply list_elem_of_fmap. exists i. split; [|done].
  apply eqs_false in Hne. by rewrite Hne.
Qed.
End UpdateTotalFacts.

Section UpdateTotalScenario.
Import Db Ledger Scenario.

Lemma updateTotal_spec_witness :
  let paid := paid_to_date db_E "inv-E" in
  let r := Invoices.updateTotal no_faults (listed db_E inv_E)
             (Answer (Some (dollars 300))) db_E in
  r.2 = Succeeded "Total updated"
  /\ allocations r.1 = allocations db_E
  /\ payments r.1 = payments db_E
  /\ (forall i, i ∈ invoices r.1 -> inv_id i = "inv-E" ->
        inv_deleted_at i = None ->
        inv_subtotal i = dollars 300 /\ inv_tax i = 0
        /\ inv_balance i = Z.max 0 (dollars 300 - paid)
        /\ (dollars 300 = 0 -> inv_status i = "void")
        /\ (0 < dollars 300 -> paid <= 0 -> inv_status i = "open")
        /\ (0 < dollars 300 -> 0 < paid < dollars 300 -> inv_status i = "partial")
        /\ (0 < dollars 300 -> 0 < paid -> dollars 300 <= paid ->
            inv_status i = "paid"))
  /\ (exists i, i ∈ invoices r.1 /\ inv_id i = "inv-E" /\ inv_deleted_at i = None)
  /\ (forall i, i ∈ invoices db_E -> inv_id i <> "inv-E" -> i ∈ invoices r.1)
  /\ invoice_audit r.1
     = invoice_audit db_E
       ++ [update_event "inv-E" (dollars 500) (dollars 300)].
Proof.
  apply (updateTotal_spec no_faults (listed db_E inv_E) (dollars 300) db_E inv_E).
  - intros c. reflexivity.
  - by apply safeb_safe.
  - by apply safe_sumb_safe_sum.
  - simpl. left.
  - reflexivity.
  - reflexivity.
Defined.

(** Scenario E: the total goes from 500.00 to 300.00 when 400.00 is paid;
    the balance is 0, the status paid, and one [update_total] event holds
    the two totals. *)
Example scenario_E :
  let r := Invoices.updateTotal no_faults (listed db_E inv_E)
             (Answer (Some (dollars 300))) db_E in
  r.2 = Succeeded "Total updated"
  /\ (inv_balance <$> invoices r.1) = [0]
  /\ (inv_status <$> invoices r.1) = ["paid"]
  /\ allocations r.1 = allocations db_E
  /\ invoice_audit r.1 = [update_event "inv-E" (dollars 500) (dollars 300)].
Proof. vm_compute. repeat split; reflexivity. Qed.

(** The claim C6 fails for a new total of 0: nothing is paid on the
    invoice, so the claim asks for status open, and the code stores
    void. *)
Lemma updateTotal_zero_not_open :
  let r := Invoices.updateTotal no_faults (listed db_B inv_B)
             (Answer (Some 0)) db_B in
  r.2 = Succeeded "Total updated"
  /\ paid_to_date db_B "inv-B" <= 0
  /\ (inv_status <$> invoices r.1) = ["void"]
  /\ ~ (forall i, i ∈ invoices r.1 -> inv_status i = "open").
Proof.
  vm_compute. repeat split; try reflexivity; try discriminate.
  intros H. specialize (H _ (list_elem_of_here _ _)). discriminate H.
Qed.
End UpdateTotalScenario.

(** ** What each handler leaves alone *)

Section Frames.
Import Db Ledger.

Lemma payment_onSubmit_frame fails alloc confirmed new_id values db :
  let r := NewPayment.onSubmit fails alloc confirmed new_id values db in
  invoices r.1 = invoices db /\ invoice_audit r.1 = invoice_audit db.
Proof.
  unfold NewPayment.onSubmit.
  repeat (match goal with |- context [if ?b then _ else _] => destruct b end;
          simpl; try done).
  destruct (NewPayment.rows_of new_id alloc); simpl; [done|].
  by destruct (fails InsertAllocations).
Qed.

Lemma payment_handleSubmit_frame fails alloc confirmed new_id values db :
  let r := NewPayment.handleSubmit fails alloc confirmed new_id values db in
  invoices r.1 = invoices db /\ invoice_audit r.1 = invoice_audit db.
Proof.
  unfold NewPayment.handleSubmit.
  destruct (NewPayment.paySchema values) as [|issue rest]; [|done].
  pose proof (payment_onSubmit_frame fails alloc confirmed new_id values db) as H.
  by destruct (NewPayment.onSubmit _ _ _ _ _ _).
Qed.

Lemma deletePayment_frame fails row confirmed db :
  let r := Payments.deletePayment fails row confirmed db in
  invoices r.1 = invoices db /\ invoice_audit r.1 = invoice_audit db.
Proof.
  unfold Payments.deletePayment.
  destruct confirmed; simpl; [|done].
  destruct (fails DeleteAllocations); simpl; [done|].
  by destruct (fails DeletePayments).
Qed.

(** Creating an invoice appends at most one row, an open one whose
    balance is its subtotal, with no tax; nothing else changes. *)
Lemma invoice_handleSubmit_cases uuid fails new_id values db :
  let r := NewInvoice.handleSubmit uuid fails new_id values db in
  r.1 = db
  \/ exists row,
       NewInvoice.row_of new_id values = Some row
       /\ NewInvoice.schema uuid values = []
       /\ r = (with_invoices (invoices db ++ [row]) db,
               Ran (Succeeded "Invoice created")).
Proof.
  unfold NewInvoice.handleSubmit.
  destruct (NewInvoice.schema uuid values) eqn:Hs; [|by left].
  unfold NewInvoice.onSubmit.
  destruct (fails InsertInvoice); [by left|].
  destruct (NewInvoice.row_of new_id values) as [row|] eqn:Hr; [|by left].
  right. by exists row.
Qed.

Lemma row_of_fields new_id values row :
  NewInvoice.row_of new_id values = Some row ->
  inv_id row = new_id /\ inv_status row = "open" /\ inv_tax row = 0
  /\ inv_subtotal row = Z.max 0 (NewInvoice.previewTotal values)
  /\ inv_balance row = inv_subtotal row /\ inv_deleted_at row = None.
Proof.
  unfold NewInvoice.row_of. intros H.
  destruct (NewInvoice.issue_date values), (NewInvoice.due_date values),
    (NewInvoice.check_in values), (NewInvoice.check_out values);
    try discriminate H.
  by injection H as <-.
Qed.
End Frames.

(** ** Where status void comes from *)

Section VoidOrigin.
Import Db Ledger.

(** C4, as the code has it.  After any operation, an invoice whose
    stored status is void was stored so before the operation, or the
    operation is [voidInvoice] on it, or it is [updateTotal] on it with a
    new total of 0.  Creating an invoice, recording a payment, deleting a
    payment and [updateTotal] with a positive total never store void. *)
Theorem void_status_origin uuid fails op db i :
  i ∈ invoices (step uuid fails op db) -> inv_status i = "void" ->
  i ∈ invoices db
  \/ (exists row reason,
        op = VoidInvoice row (Answer reason) /\ inv_id i = Invoices.id row)
  \/ (exists row,
        op = UpdateTotal row (Answer (Some 0)) /\ inv_id i = Invoices.id row).
Proof.
  intros Hi Hvoid. destruct op as [new_id values|alloc c new_id values|row c|row ans|row reason];
    simpl in Hi.
  - destruct (invoice_handleSubmit_cases uuid fails new_id values db)
      as [Heq|(row & Hrow & _ & Heq)].
    + left. by rewrite <- Heq.
    + rewrite Heq in Hi. simpl in Hi.
      apply elem_of_app in Hi as [Hi|Hi]; [by left|].
      apply list_elem_of_singleton in Hi as ->.
      apply row_of_fields in Hrow as (_ & Hst & _). congruence.
  - left. by rewrite (proj1 (payment_handleSubmit_frame _ _ _ _ _ _)) in Hi.
  - left. by rewrite (proj1 (deletePayment_frame _ _ _ _)) in Hi.
  - unfold Invoices.updateTotal in Hi.
    destruct ans as [|[newTotal|]]; [by left| |by left].
    destruct (newTotal <? 0); [by left|].
    destruct (fails SelectAllocations); [by left|].
    destruct (fails UpdateInvoices); [by left|].
    destruct (update_invoices _ _ _) as [db1 updated] eqn:Hu.
    assert (invoices ((if fails LogInvoiceEvent then db1
              else log_invoice_event (Invoices.id row) "update_total" None
                     [("old_total", default 0 (Invoices.total row));
                      ("new_total", newTotal)] db1)) = invoices db1) as Hlog
      by (by destruct (fails LogInvoiceEvent)).
    assert (i ∈ invoices db1) as Hi1.
    { destruct updated; simpl in Hi; [done|]. by rewrite Hlog in Hi. }
    apply (f_equal fst) in Hu. simpl in Hu. subst db1. simpl in Hi1.
    apply list_elem_of_fmap in Hi1 as (j & -> & Hj).
    destruct (eqs (inv_id j) (Invoices.id row) && is_null (inv_deleted_at j))
      eqn:Hhit; [|by left].
    right. right. simpl in Hvoid. apply newStatus_void in Hvoid as ->.
    exists row. split; [done|]. simpl.
    apply andb_true_iff in Hhit as [Hhit _]. by apply eqs_true.
  - unfold Invoices.voidInvoice in Hi.
    destruct reason as [|reason]; [by left|].
    destruct (fails DeleteAllocations); [by left|].
    destruct (fails UpdateInvoices); [by left|].
    destruct (update_invoices _ _ _) as [db2 updated] eqn:Hu.
    assert (invoices ((if fails LogInvoiceEvent then db2
              else log_invoice_event (Invoices.id row) "void_invoice"
                     (if eqs reason "" then None else Some reason) [] db2))
            = invoices db2) as Hlog
      by (by destruct (fails LogInvoiceEvent)).
    assert (i ∈ invoices db2) as Hi2.
    { destruct updated; simpl in Hi; [done|]. by rewrite Hlog in Hi. }
    apply (f_equal fst) in Hu. simpl in Hu. subst db2. simpl in Hi2.
    apply list_elem_of_fmap in Hi2 as (j & -> & Hj).
    destruct (eqs (inv_id j) (Invoices.id row) && is_null (inv_deleted_at j))
      eqn:Hhit; [|by left].
    right. left. exists row, reason. split; [done|]. simpl.
    apply andb_true_iff in Hhit as [Hhit _]. by apply eqs_true.
Qed.
End VoidOrigin.

Section VoidOriginScenario.
Import Db Ledger Scenario.

Lemma void_status_origin_witness :
  let op := UpdateTotal (listed db_P inv_P) (Answer (Some 0)) in
  let i := Invoices.set_total 0 0 "void" inv_P in
  i ∈ invoices db_P
  \/ (exists row reason,
        op = VoidInvoice row (Answer reason) /\ inv_id i = Invoices.id row)
  \/ (exists row,
        op = UpdateTotal row (Answer (Some 0)) /\ inv_id i = Invoices.id row).
Proof.
  apply (void_status_origin (fun _ => true) no_faults
           (UpdateTotal (listed db_P inv_P) (Answer (Some 0))) db_P).
  - vm_compute. left.
  - reflexivity.
Defined.

(** The claim C4 fails: [updateTotal] with a new total of 0, which is not
    [voidInvoice], turns a partial invoice into a void one. *)
Lemma updateTotal_zero_sets_void :
  let db' := step (fun _ => true) no_faults
               (UpdateTotal (listed db_P inv_P) (Answer (Some 0))) db_P in
  (inv_status <$> invoices db_P) = ["partial"]
  /\ (inv_status <$> invoices db') = ["void"]
  /\ (au_action <$> invoice_audit db') = ["update_total"].
Proof. vm_compute. repeat split; reflexivity. Qed.
End VoidOriginScenario.

(** ** The balance of an invoice *)

Section Balance.
Import Db Ledger.

Lemma balance_ok_allocations db1 db2 i :
  allocations db1 = allocations db2 -> balance_ok db1 i -> balance_ok db2 i.
Proof.
  unfold balance_ok, paid_to_date, active_amounts. by intros ->.
Qed.

Lemma key_unique {A} (f : A -> string) (l : list A) (x y : A) :
  NoDup (f <$> l) -> x ∈ l -> y ∈ l -> f x = f y -> x = y.
Proof.
  induction l as [|z l IH]; intros Hnd Hx Hy Hf; [by apply not_elem_of_nil in Hx|].
  rewrite fmap_cons in Hnd. apply NoDup_cons in Hnd as [Hz Hnd].
  apply elem_of_cons in Hx as [->|Hx], Hy as [->|Hy]; [done| | |by apply IH].
  - exfalso. apply Hz. rewrite Hf. by apply list_elem_of_fmap_2.
  - exfalso. apply Hz. rewrite <- Hf. by apply list_elem_of_fmap_2.
Qed.

Lemma filter_none {A} (P : A -> Prop) `{!forall a, Decision (P a)} (l : list A) :
  (forall a, a ∈ l -> ~ P a) -> filter P l = [].
Proof.
  induction l as [|x l IH]; intros Hno; [done|].
  rewrite filter_cons_False by (apply Hno; left).
  apply IH. intros a Ha. apply Hno. by right.
Qed.

Lemma active_amounts_nil db id :
  (forall a, a ∈ allocations db -> al_invoice_id a <> id) ->
  active_amounts db id = [].
Proof.
  intros Hfresh. unfold active_amounts.
  rewrite filter_none; [done|]. intros a Ha Hhit.
  apply andb_true_iff in Hhit as [Hhit _]. apply eqs_true in Hhit.
  by apply (Hfresh a).
Qed.

(** After [voidInvoice] deleted the allocations of an invoice, the paid
    amounts of the other invoices are what they were. *)
Lemma active_amounts_delete_other db id other :
  other <> id ->
  active_amounts
    (delete_allocations (fun a => negb (eqs (al_invoice_id a) id)) db) other
  = active_amounts db other.
Proof.
  intros Hne. unfold active_amounts, delete_allocations. simpl. f_equal.
  rewrite filter_filter_and. apply list_filter_iff. intros a. split; [tauto|].
  intros Hhit. split; [done|].
  apply andb_true_iff in Hhit as [Hhit _]. apply eqs_true in Hhit.
  apply negb_true_iff, eqs_false. congruence.
Qed.

Lemma active_amounts_delete_same db id :
  active_amounts
    (delete_allocations (fun a => negb (eqs (al_invoice_id a) id)) db) id = [].
Proof.
  apply active_amounts_nil. simpl. intros a Ha.
  apply list_elem_of_filter in Ha as [Ha _].
  by apply negb_true_iff, eqs_false in Ha.
Qed.

Lemma updateTotal_consistent fails row ans db :
  consistent db -> consistent (Invoices.updateTotal fails row ans db).1.
Proof.
  intros Hc. unfold Invoices.updateTotal.
  destruct ans as [|[newTotal|]]; [done| |done].
  destruct (Z.ltb_spec newTotal 0) as [|Hpos]; [done|].
  destruct (fails SelectAllocations); [done|].
  destruct (fails UpdateInvoices); [done|].
  set (paid := sum (active_amounts db (Invoices.id row))).
  destruct (update_invoices _ _ _) as [db1 updated] eqn:Hu.
  assert (consistent db1) as Hc1.
  { apply (f_equal fst) in Hu. simpl in Hu. subst db1.
    unfold consistent. simpl. apply Forall_fmap, Forall_forall.
    intros j Hj. simpl.
    destruct (eqs (inv_id j) (Invoices.id row) && is_null (inv_deleted_at j))
      eqn:Hhit.
    - apply andb_true_iff in Hhit as [Hid _]. apply eqs_true in Hid.
      unfold balance_ok, inv_total, paid_to_date, active_amounts. simpl.
      rewrite Hid. fold (active_amounts db (Invoices.id row)). fold paid.
      f_equal. lia.
    - apply (balance_ok_allocations db); [done|].
      by apply (proj1 (Forall_forall _ _) Hc). }
  destruct updated; [done|]. simpl.
  destruct (fails LogInvoiceEvent); [done|].
  unfold consistent. simpl. eapply Forall_impl; [exact Hc1|].
  intros j. by apply balance_ok_allocations.
Qed.

Lemma voidInvoice_consistent fails row reason db :
  consistent db -> keyed db ->
  succeeded (Invoices.voidInvoice fails row reason db).2 ->
  consistent (Invoices.voidInvoice fails row reason db).1.
Proof.
  intros Hc Hkey. unfold Invoices.voidInvoice.
  destruct reason as [|reason]; [done|].
  destruct (fails DeleteAllocations); [done|].
  destruct (fails UpdateInvoices); [done|].
  set (db1 := delete_allocations _ db).
  destruct (update_invoices _ _ _) as [db2 updated] eqn:Hu.
  destruct updated as [|u updated]; [done|]. intros _. simpl.
  assert (exists live, live ∈ invoices db /\ inv_id live = Invoices.id row
                       /\ inv_deleted_at live = None) as (live & Hlive & Hlid & Hll).
  { pose proof (f_equal snd Hu) as Hu2. simpl in Hu2.
    assert (u ∈ u :: updated) as Hin by left.
    rewrite <- Hu2 in Hin.
    apply list_elem_of_fmap in Hin as (live & _ & Hin).
    apply list_elem_of_filter in Hin as [Hhit Hin].
    apply andb_true_iff in Hhit as [Hid Hnull]. apply eqs_true in Hid.
    exists live. repeat split; [done|done|]. by destruct (inv_deleted_at live). }
  assert (consistent db2) as Hc2.
  { apply (f_equal fst) in Hu. simpl in Hu. subst db2.
    unfold consistent. simpl. apply Forall_fmap, Forall_forall.
    intros j Hj. simpl.
    destruct (eqs (inv_id j) (Invoices.id row) && is_null (inv_deleted_at j))
      eqn:Hhit.
    - apply andb_true_iff in Hhit as [Hid _]. apply eqs_true in Hid.
      apply (balance_ok_allocations db1); [done|].
      unfold balance_ok, paid_to_date.
      change (inv_id (Invoices.set_void j)) with (inv_id j).
      rewrite Hid. unfold db1. by rewrite active_amounts_delete_same.
    - assert (inv_id j <> Invoices.id row) as Hne.
      { intros Hid. assert (j = live) as ->.
        { apply (key_unique inv_id (invoices db)); [exact Hkey|exact Hj|exact Hlive|].
          by rewrite Hid. }
        by rewrite Hlid, Hll, eqs_refl in Hhit. }
      pose proof (proj1 (Forall_forall _ _) Hc j Hj) as Hok.
      apply (balance_ok_allocations db1); [done|].
      unfold balance_ok, paid_to_date in *.
      unfold db1. by rewrite active_amounts_delete_other. }
  destruct (fails LogInvoiceEvent); [done|].
  unfold consistent. simpl. eapply Forall_impl; [exact Hc2|].
  intros j. by apply balance_ok_allocations.
Qed.

Lemma createInvoice_consistent uuid fails new_id values db :
  consistent db ->
  (forall a, a ∈ allocations db -> al_invoice_id a <> new_id) ->
  consistent (NewInvoice.handleSubmit uuid fails new_id values db).1.
Proof.
  intros Hc Hfresh.
  destruct (invoice_handleSubmit_cases uuid fails new_id values db)
    as [Heq|(row & Hrow & _ & Heq)]; [by rewrite Heq|].
  rewrite Heq. unfold consistent. simpl. apply Forall_app. split.
  - eapply Forall_impl; [exact Hc|]. intros j. by apply balance_ok_allocations.
  - apply Forall_singleton.
    apply row_of_fields in Hrow as (Hid & _ & Htax & Hsub & Hbal & _).
    unfold balance_ok, inv_total, paid_to_date. simpl.
    rewrite Hid. unfold active_amounts at 1. simpl.
    fold (active_amounts db new_id). rewrite (active_amounts_nil db new_id Hfresh).
    rewrite sum_nil, Hbal, Htax, Hsub. lia.
Qed.

(** C1, as the code has it.  If every invoice's stored balance is
    max(0, total - the sum of its active allocations), then it is so
    again after an invoice is created (under an id no allocation names),
    after [updateTotal], whatever its outcome, on an invoice whose
    active allocations are whole dollars that the page adds without
    rounding, with a new total in whole dollars, and after a
    [voidInvoice] that succeeded.  Recording a payment with its
    allocations and deleting a payment write no invoice: every stored
    balance, total and status is what it was.  (Of an [updateTotal] on
    amounts whose double sum rounds, nothing is said.) *)
Theorem balance_maintained uuid fails db :
  consistent db -> keyed db ->
  (forall new_id values,
      (forall a, a ∈ allocations db -> al_invoice_id a <> new_id) ->
      consistent (step uuid fails (CreateInvoice new_id values) db))
  /\ (forall row ans,
        safe_sum (active_amounts db (Invoices.id row)) ->
        (forall newTotal, ans = Answer (Some newTotal) -> safe newTotal) ->
        consistent (step uuid fails (UpdateTotal row ans) db))
  /\ (forall row reason,
        succeeded (Invoices.voidInvoice fails row reason db).2 ->
        consistent (step uuid fails (VoidInvoice row reason) db))
  /\ (forall alloc confirmed new_id values,
        invoices (step uuid fails (RecordPayment alloc confirmed new_id values) db)
        = invoices db)
  /\ (forall row confirmed,
        invoices (step uuid fails (DeletePayment row confirmed) db) = invoices db).
Proof.
  intros Hc Hkey. repeat split.
  - intros new_id values Hfresh. by apply createInvoice_consistent.
  - intros row ans _ _. by apply updateTotal_consistent.
  - intros row reason Hok. by apply voidInvoice_consistent.
  - intros alloc confirmed new_id values.
    apply (payment_handleSubmit_frame fails alloc confirmed new_id values db).
  - intros row confirmed. apply (deletePayment_frame fails row confirmed db).
Qed.
End Balance.

Section BalanceScenario.
Import Db Ledger Scenario.

Lemma balance_maintained_witness :
  (forall new_id values,
      (forall a, a ∈ allocations db_E -> al_invoice_id a <> new_id) ->
      consistent (step any_uuid no_faults (CreateInvoice new_id values) db_E))
  /\ (forall row ans,
        safe_sum (active_amounts db_E (Invoices.id row)) ->
        (forall newTotal, ans = Answer (Some newTotal) -> safe newTotal) ->
        consistent (step any_uuid no_faults (UpdateTotal row ans) db_E))
  /\ (forall row reason,
        succeeded (Invoices.voidInvoice no_faults row reason db_E).2 ->
        consistent (step any_uuid no_faults (VoidInvoice row reason) db_E))
  /\ (forall alloc confirmed new_id values,
        invoices (step any_uuid no_faults
                    (RecordPayment alloc confirmed new_id values) db_E)
        = invoices db_E)
  /\ (forall row confirmed,
        invoices (step any_uuid no_faults (DeletePayment row confirmed) db_E)
        = invoices db_E).
Proof.
  apply (balance_maintained any_uuid no_faults db_E).
  - constructor; [reflexivity|constructor].
  - apply NoDup_singleton.
Defined.

(** The claim C1 fails after a payment is recorded: 200.00 is allocated
    to an open invoice of 500.00, and its stored balance stays 500.00
    where the claim asks for 300.00. *)
Lemma payment_leaves_balance :
  let db' := step any_uuid no_faults
               (RecordPayment alloc_B true "pay-9" pay_200) db_B in
  consistent db_B
  /\ alloc_B = [("inv-B", dollars 200)]
  /\ allocations db' = [allocation "pay-9" "inv-B" (dollars 200)]
  /\ (inv_total <$> invoices db') = [dollars 500]
  /\ paid_to_date db' "inv-B" = dollars 200
  /\ (inv_balance <$> invoices db') = [dollars 500]
  /\ ~ consistent db'.
Proof.
  split; [constructor; [reflexivity|constructor]|].
  repeat split; try reflexivity.
  intros H. apply Forall_cons in H as [H _]. vm_compute in H. discriminate H.
Qed.

(** It fails after a payment is deleted, too: the 200.00 allocated to an
    invoice of 500.00 go with the payment, and the stored balance stays
    300.00. *)
Example deletePayment_leaves_balance :
  let db' := step any_uuid no_faults
               (DeletePayment (payment "pay-1" (dollars 200)) true) db_P in
  consistent db_P
  /\ allocations db' = [] /\ payments db' = []
  /\ (inv_balance <$> invoices db') = [dollars 300]
  /\ ~ consistent db'.
Proof.
  split; [constructor; [reflexivity|constructor]|].
  repeat split; try reflexivity.
  intros H. apply Forall_cons in H as [H _]. vm_compute in H. discriminate H.
Qed.
End BalanceScenario.

(** ** Recording a payment *)

Section RecordPayment.
Import Db Ledger.

Lemma elem_of_rows_of new_id alloc a :
  a ∈ NewPayment.rows_of new_id alloc
  <-> exists k v, (k, v) ∈ alloc /\ 0 < v
                  /\ a = {| al_payment_id := new_id; al_invoice_id := k;
                            al_amount := v; al_deleted_at := None |}.
Proof.
  unfold NewPayment.rows_of. rewrite list_elem_of_filter, list_elem_of_fmap.
  split.
  - intros (Hpos & [k v] & -> & Hin). exists k, v. simpl in *.
    split; [done|]. split; [by apply Z.ltb_lt|done].
  - intros (k & v & Hin & Hpos & ->). simpl. split; [by apply Z.ltb_lt|].
    by exists (k, v).
Qed.

(** C2, as the code has it.  [onSubmit] never writes an invoice or an
    audit event.  When it succeeds, the payment row is appended and one
    allocation row for each entry with a positive amount.  When the
    insert of the allocations fails, the payment row inserted before it
    stays, with no allocation.  In every other case the store is
    unchanged. *)
Theorem payment_onSubmit_spec fails alloc confirmed new_id values db :
  let r := NewPayment.onSubmit fails alloc confirmed new_id values db in
  invoices r.1 = invoices db
  /\ invoice_audit r.1 = invoice_audit db
  /\ (forall a, a ∈ NewPayment.rows_of new_id alloc
        <-> exists k v, (k, v) ∈ alloc /\ 0 < v
                        /\ a = {| al_payment_id := new_id; al_invoice_id := k;
                                  al_amount := v; al_deleted_at := None |})
  /\ (succeeded r.2 ->
        payments r.1 = payments db ++ [NewPayment.payment_row new_id values]
        /\ allocations r.1 = allocations db ++ NewPayment.rows_of new_id alloc)
  /\ (r.2 = StoreError InsertAllocations ->
        payments r.1 = payments db ++ [NewPayment.payment_row new_id values]
        /\ allocations r.1 = allocations db
        /\ NewPayment.rows_of new_id alloc <> [])
  /\ (~ succeeded r.2 -> r.2 <> StoreError InsertAllocations -> r.1 = db).
Proof.
  intros r.
  split; [apply (payment_onSubmit_frame fails alloc confirmed new_id values db)|].
  split; [apply (payment_onSubmit_frame fails alloc confirmed new_id values db)|].
  split; [intros a; apply elem_of_rows_of|].
  subst r. unfold NewPayment.onSubmit.
  destruct (NewPayment.amount values + EPSILON <? NewPayment.allocatedTotal alloc);
    [simpl; repeat split; try done; intros; done|].
  destruct (_ && _ && negb confirmed);
    [simpl; repeat split; try done; intros; done|].
  destruct (_ && _ && _ && negb confirmed);
    [simpl; repeat split; try done; intros; done|].
  destruct (fails InsertPayment);
    [simpl; repeat split; try done; intros; done|].
  unfold NewPayment.api_insert_payment.
  destruct (NewPayment.rows_of new_id alloc) as [|first rest] eqn:Hrows; simpl.
  - repeat split; try done. by rewrite app_nil_r.
  - destruct (fails InsertAllocations); simpl; repeat split; done.
Qed.
End RecordPayment.

Section RecordPaymentScenario.
Import Db Ledger Scenario.

Lemma payment_onSubmit_spec_witness :
  let r := NewPayment.onSubmit allocations_refused alloc_B true "pay-9"
             pay_200 db_B in
  invoices r.1 = invoices db_B
  /\ invoice_audit r.1 = invoice_audit db_B
  /\ (forall a, a ∈ NewPayment.rows_of "pay-9" alloc_B
        <-> exists k v, (k, v) ∈ alloc_B /\ 0 < v
                        /\ a = {| al_payment_id := "pay-9"; al_invoice_id := k;
                                  al_amount := v; al_deleted_at := None |})
  /\ (succeeded r.2 ->
        payments r.1 = payments db_B ++ [NewPayment.payment_row "pay-9" pay_200]
        /\ allocations r.1
           = allocations db_B ++ NewPayment.rows_of "pay-9" alloc_B)
  /\ (r.2 = StoreError InsertAllocations ->
        payments r.1 = payments db_B ++ [NewPayment.payment_row "pay-9" pay_200]
        /\ allocations r.1 = allocations db_B
        /\ NewPayment.rows_of "pay-9" alloc_B <> [])
  /\ (~ succeeded r.2 -> r.2 <> StoreError InsertAllocations -> r.1 = db_B).
Proof.
  exact (payment_onSubmit_spec allocations_refused alloc_B true "pay-9"
           pay_200 db_B).
Defined.

(** The claim C2 fails.  When the store refuses the allocations, the
    payment row is kept all the same; and a payment recorded in full
    leaves the invoice's balance and status as they were and writes no
    audit event. *)
Lemma payment_kept_without_allocations :
  let failed := NewPayment.onSubmit allocations_refused alloc_B true "pay-9"
                  pay_200 db_B in
  let done := NewPayment.onSubmit no_faults alloc_B true "pay-9" pay_200 db_B in
  failed.2 = StoreError InsertAllocations
  /\ payments failed.1 = [NewPayment.payment_row "pay-9" pay_200]
  /\ allocations failed.1 = []
  /\ done.2 = Succeeded "/invoices"
  /\ allocations done.1 = [allocation "pay-9" "inv-B" (dollars 200)]
  /\ (inv_balance <$> invoices done.1) = [dollars 500]
  /\ (inv_status <$> invoices done.1) = ["open"]
  /\ invoice_audit done.1 = [].
Proof. vm_compute. repeat split; reflexivity. Qed.
End RecordPaymentScenario.

(** ** Deleting a payment *)

Section DeletePayment.
Import Db Ledger.

(** C3, as the code has it.  A confirmed [deletePayment], when the two
    deletes do not fail, succeeds whether or not the payment has
    allocations: it deletes every allocation of the payment, then the
    payment, and leaves the other allocations and payments, the invoices
    and the audit trail as they are. *)
Theorem deletePayment_cascades fails row db :
  fails DeleteAllocations = false -> fails DeletePayments = false ->
  let r := Payments.deletePayment fails row true db in
  r.2 = Succeeded "Payment deleted"
  /\ allocations r.1
     = filter (fun a => al_payment_id a <> pay_id row) (allocations db)
  /\ payments r.1 = filter (fun p => pay_id p <> pay_id row) (payments db)
  /\ invoices r.1 = invoices db
  /\ invoice_audit r.1 = invoice_audit db.
Proof.
  intros Ha Hp r. subst r. unfold Payments.deletePayment. simpl.
  rewrite Ha, Hp. simpl. repeat split.
  - apply list_filter_iff. intros a. rewrite negb_true_iff. apply eqs_false.
  - apply list_filter_iff. intros p. rewrite negb_true_iff. apply eqs_false.
Qed.
End DeletePayment.

Section DeletePaymentScenario.
Import Db Ledger Scenario.

Lemma deletePayment_cascades_witness :
  let r := Payments.deletePayment no_faults (payment "pay-1" (dollars 200))
             true db_P in
  r.2 = Succeeded "Payment deleted"
  /\ allocations r.1
     = filter (fun a => al_payment_id a <> "pay-1") (allocations db_P)
  /\ payments r.1 = filter (fun p => pay_id p <> "pay-1") (payments db_P)
  /\ invoices r.1 = invoices db_P
  /\ invoice_audit r.1 = invoice_audit db_P.
Proof.
  apply (deletePayment_cascades no_faults (payment "pay-1" (dollars 200)) db_P);
    reflexivity.
Defined.

(** The claim C3 fails: a payment with a live allocation is deleted, and
    its allocation with it. *)
Lemma deletePayment_with_allocations :
  let r := Payments.deletePayment no_faults (payment "pay-1" (dollars 200))
             true db_P in
  allocations db_P = [allocation "pay-1" "inv-P" (dollars 200)]
  /\ payments db_P = [payment "pay-1" (dollars 200)]
  /\ r.2 = Succeeded "Payment deleted"
  /\ allocations r.1 = []
  /\ payments r.1 = [].
Proof. vm_compute. repeat split; reflexivity. Qed.
End DeletePaymentScenario.

(** ** The limits on what is allocated *)

Section AllocationLimits.
Import Db Ledger.

Lemma byId_lookup_acc (invs : list NewPayment.Invoice)
    (m : gmap string NewPayment.Invoice) k inv :
  fold_left (fun m inv => <[NewPayment.id inv := inv]> m) invs m !! k = Some inv ->
  inv ∈ invs \/ m !! k = Some inv.
Proof.
  revert m. induction invs as [|x invs IH]; intros m H; simpl in H; [by right|].
  apply IH in H as [H|H]; [left; by right|].
  destruct (decide (NewPayment.id x = k)) as [<-|Hne].
  - rewrite lookup_insert_eq in H. injection H as ->. left. left.
  - rewrite lookup_insert_ne in H by done. by right.
Qed.

Lemma byId_lookup invs k inv :
  NewPayment.byId invs !! k = Some inv -> inv ∈ invs.
Proof.
  intros H. apply byId_lookup_acc in H as [H|H]; [done|].
  by rewrite lookup_empty in H.
Qed.

Lemma load_invoices_positive hotelId db inv :
  inv ∈ NewPayment.load_invoices hotelId db -> 0 < NewPayment.balance inv.
Proof.
  unfold NewPayment.load_invoices. intros H.
  apply list_elem_of_fmap in H as (r & -> & H).
  apply list_elem_of_filter in H as [H _]. unfold NewPayment.payable in H.
  simpl. apply andb_true_iff in H as [H _]. apply andb_true_iff in H as [_ H].
  by apply Z.ltb_lt.
Qed.

Lemma loaded_balance_nonneg hotelId db k :
  0 <= default 0 (NewPayment.balance <$>
                    NewPayment.byId (NewPayment.load_invoices hotelId db) !! k).
Proof.
  destruct (NewPayment.byId _ !! k) as [inv|] eqn:H; simpl; [|done].
  apply byId_lookup, load_invoices_positive in H. lia.
Qed.

Lemma get_set_same alloc k v : NewPayment.get (NewPayment.set alloc k v) k = Some v.
Proof.
  induction alloc as [|[k' v'] alloc IH]; simpl.
  - by rewrite eqs_refl.
  - destruct (eqs k' k) eqn:Hk; simpl; rewrite Hk; [done|apply IH].
Qed.

Lemma set_nonneg alloc k v : NewPayment.nonneg alloc -> 0 <= v -> NewPayment.nonneg (NewPayment.set alloc k v).
Proof.
  unfold NewPayment.nonneg. intros Ha Hv.
  induction Ha as [|[k' v'] alloc Hx Ha IH]; simpl.
  - by repeat constructor.
  - destruct (eqs k' k); constructor; done.
Qed.

Lemma get_nonneg alloc k v : NewPayment.nonneg alloc -> NewPayment.get alloc k = Some v -> 0 <= v.
Proof.
  unfold NewPayment.nonneg. intros Ha.
  induction Ha as [|[k' v'] alloc Hx Ha IH]; simpl; [done|].
  destruct (eqs k' k); [|done]. by intros [= <-].
Qed.

Lemma toFixed2_nonneg x : 0 <= x -> 0 <= NewPayment.toFixed2 x.
Proof.
  intros Hx. unfold NewPayment.toFixed2.
  apply Z.mul_nonneg_nonneg; [|lia]. apply Z.div_pos; lia.
Qed.

Lemma reachable_nonneg hotelId db alloc :
  NewPayment.reachable (NewPayment.load_invoices hotelId db) alloc -> NewPayment.nonneg alloc.
Proof.
  induction 1 as [|k value alloc _ IH|alloc _ IH|watchAmount k alloc _ IH].
  - constructor.
  - unfold NewPayment.setAllocFor. apply set_nonneg; [done|].
    pose proof (loaded_balance_nonneg hotelId db k) as Hbal.
    cbv zeta. set (bal := default 0 (NewPayment.balance <$> _ !! k)) in *.
    destruct (Z.ltb_spec (default 0 value) 0);
      [destruct (Z.ltb_spec bal 0)|destruct (Z.ltb_spec bal (default 0 value))];
      lia.
  - constructor.
  - unfold NewPayment.allocateRemainingTo.
    destruct (_ || _); [done|]. apply set_nonneg; [done|].
    apply toFixed2_nonneg.
    assert (0 <= default 0 (NewPayment.get alloc k)) as Hcur.
    { destruct (NewPayment.get alloc k) as [v|] eqn:Hg; simpl; [|done].
      by apply (get_nonneg alloc k). }
    unfold NewPayment.remaining. lia.
Qed.

(** With no negative entry, the rows inserted carry the whole allocated
    total. *)
Lemma rows_of_total new_id alloc :
  NewPayment.nonneg alloc ->
  sum (al_amount <$> NewPayment.rows_of new_id alloc)
  = NewPayment.allocatedTotal alloc.
Proof.
  unfold NewPayment.nonneg, NewPayment.rows_of, NewPayment.allocatedTotal.
  induction 1 as [|[k v] alloc Hv _ IH]; [done|].
  rewrite !fmap_cons, filter_cons, sum_cons. simpl in *.
  destruct (Z.ltb_spec 0 v); case_decide; try done.
  - rewrite fmap_cons, sum_cons. simpl. by rewrite IH.
  - rewrite IH. lia.
Qed.

Lemma allocated_of_fresh db new_id rows :
  (forall a, a ∈ allocations db -> al_payment_id a <> new_id) ->
  Forall (fun a => al_payment_id a = new_id /\ al_deleted_at a = None) rows ->
  sum (al_amount <$>
         filter (fun a => eqs (al_payment_id a) new_id
                          && is_null (al_deleted_at a) = true)
                (allocations db ++ rows))
  = sum (al_amount <$> rows).
Proof.
  intros Hfresh Hrows. rewrite filter_app, fmap_app, sum_app.
  rewrite filter_none.
  2:{ intros a Ha Heq. apply andb_true_iff in Heq as [Heq _].
      apply eqs_true in Heq. by apply (Hfresh a). }
  rewrite fmap_nil, sum_nil, Z.add_0_l. f_equal. f_equal.
  induction Hrows as [|a rows [Ha Hlive] _ IH]; [done|].
  rewrite filter_cons_True; [by rewrite IH|].
  rewrite Hlive. simpl. rewrite andb_true_r. by apply eqs_true.
Qed.

(** C7, as the code has it.  For the allocations a user can have entered
    on the page: an amount typed for an invoice is stored clamped
    between 0 and the balance the page loaded for it (not refused, and
    not compared with the invoice's total); no entry is negative; a
    submission whose allocated total exceeds the payment amount by more
    than 1e-6 is refused as a whole and the store is unchanged; and after
    a submission that succeeds the allocations of the new payment sum to
    the allocated total, which is at most the payment amount plus 1e-6. *)
Theorem allocation_limits fails hotelId db0 alloc confirmed new_id values db :
  NewPayment.reachable (NewPayment.load_invoices hotelId db0) alloc ->
  (forall a, a ∈ allocations db -> al_payment_id a <> new_id) ->
  let invs := NewPayment.load_invoices hotelId db0 in
  let r := NewPayment.onSubmit fails alloc confirmed new_id values db in
  (forall k value,
      NewPayment.get (NewPayment.setAllocFor invs k value alloc) k
      = Some (Z.min (Z.max 0 (default 0 value))
                    (default 0 (NewPayment.balance <$> NewPayment.byId invs !! k))))
  /\ (forall k v, NewPayment.get alloc k = Some v -> 0 <= v)
  /\ (NewPayment.amount values + EPSILON < NewPayment.allocatedTotal alloc ->
        r = (db, Alerted "Allocated more than payment amount."))
  /\ (succeeded r.2 ->
        allocated_of_payment r.1 new_id = NewPayment.allocatedTotal alloc
        /\ NewPayment.allocatedTotal alloc <= NewPayment.amount values + EPSILON).
Proof.
  intros Hreach Hfresh invs r.
  pose proof (reachable_nonneg _ _ _ Hreach) as Hnn.
  split.
  { intros k value. unfold NewPayment.setAllocFor. rewrite get_set_same.
    f_equal. cbv zeta.
    set (bal := default 0 (NewPayment.balance <$> _ !! k)).
    destruct (Z.ltb_spec (default 0 value) 0);
      [destruct (Z.ltb_spec bal 0)|destruct (Z.ltb_spec bal (default 0 value))];
      lia. }
  split; [intros k v; by apply get_nonneg|].
  subst r. unfold NewPayment.onSubmit.
  destruct (Z.ltb_spec (NewPayment.amount values + EPSILON)
              (NewPayment.allocatedTotal alloc)) as [Hover|Hfits].
  { split; [done|]. by intros []. }
  split; [lia|].
  destruct (_ && _ && negb confirmed); [by intros []|].
  destruct (_ && _ && _ && negb confirmed); [by intros []|].
  destruct (fails InsertPayment); [by intros []|].
  assert (Forall (fun a => al_payment_id a = new_id /\ al_deleted_at a = None)
            (NewPayment.rows_of new_id alloc)) as Hmine.
  { apply Forall_forall. intros a Ha.
    apply elem_of_rows_of in Ha as (k & v & _ & _ & ->). done. }
  pose proof (allocated_of_fresh db new_id _ Hfresh Hmine) as Hsum.
  rewrite rows_of_total in Hsum by done.
  destruct (NewPayment.rows_of new_id alloc) as [|first rest] eqn:Hrows.
  - intros _. split; [|done]. rewrite app_nil_r in Hsum. exact Hsum.
  - destruct (fails InsertAllocations); [by intros []|].
    intros _. split; [|done]. exact Hsum.
Qed.
End AllocationLimits.

Section AllocationScenario.
Import Db Ledger Scenario.

Lemma allocation_limits_witness :
  let invs := NewPayment.load_invoices None db_B in
  let r := NewPayment.onSubmit no_faults alloc_B true "pay-9" pay_200 db_B in
  (forall k value,
      NewPayment.get (NewPayment.setAllocFor invs k value alloc_B) k
      = Some (Z.min (Z.max 0 (default 0 value))
                    (default 0 (NewPayment.balance <$> NewPayment.byId invs !! k))))
  /\ (forall k v, NewPayment.get alloc_B k = Some v -> 0 <= v)
  /\ (NewPayment.amount pay_200 + EPSILON < NewPayment.allocatedTotal alloc_B ->
        r = (db_B, Alerted "Allocated more than payment amount."))
  /\ (succeeded r.2 ->
        allocated_of_payment r.1 "pay-9" = NewPayment.allocatedTotal alloc_B
        /\ NewPayment.allocatedTotal alloc_B <= NewPayment.amount pay_200 + EPSILON).
Proof.
  apply (allocation_limits no_faults None db_B alloc_B true "pay-9" pay_200 db_B).
  - apply NewPayment.reach_set, NewPayment.reach_empty.
  - simpl. intros a Ha. by apply not_elem_of_nil in Ha.
Defined.

(** The claim C7 fails.  600.00 typed against an invoice of 500.00 is
    not refused: the page stores 500.00 in its place, and the payment is
    recorded with that allocation. *)
Lemma over_allocation_clamped :
  let invs := NewPayment.load_invoices None db_B in
  let alloc := NewPayment.setAllocFor invs "inv-B" (Some (dollars 600)) [] in
  let r := NewPayment.onSubmit no_faults alloc true "pay-9" pay_600 db_B in
  (inv_total <$> invoices db_B) = [dollars 500]
  /\ alloc = [("inv-B", dollars 500)]
  /\ r.2 = Succeeded "/invoices"
  /\ allocations r.1 = [allocation "pay-9" "inv-B" (dollars 500)].
Proof. vm_compute. repeat split; reflexivity. Qed.

(** The tolerance lets the allocations of a payment exceed its amount by
    1e-6. *)
Example tolerance_exceeds_amount :
  let invs := NewPayment.load_invoices None db_B in
  let alloc := NewPayment.setAllocFor invs "inv-B" (Some (dollars 200 + 1)) [] in
  let r := NewPayment.onSubmit no_faults alloc true "pay-9" pay_200 db_B in
  r.2 = Succeeded "/invoices"
  /\ allocated_of_payment r.1 "pay-9" = NewPayment.amount pay_200 + EPSILON
  /\ NewPayment.amount pay_200 < allocated_of_payment r.1 "pay-9".
Proof. vm_compute. repeat split; reflexivity. Qed.
End AllocationScenario.

(** ** Creating an invoice *)

Section CreateInvoice.
Import Db Ledger.

Lemma elem_of_issue_if (bad : bool) field message x :
  x ∈ NewInvoice.issue_if bad field message <-> bad = true /\ x = (field, message).
Proof.
  unfold NewInvoice.issue_if.
  destruct bad.
  - rewrite list_elem_of_singleton. split.
    + intros ->. split; reflexivity.
    + intros [_ ->]. reflexivity.
  - rewrite elem_of_nil. split.
    + intros [].
    + intros [Hb _]. discriminate Hb.
Qed.

Lemma schema_rate_issue uuid v :
  ("rate_night", "Rate must be a number ≥ 0") ∈ NewInvoice.schema uuid v
  <-> match NewInvoice.rate_night v with Some r => r < 0 | None => True end.
Proof.
  unfold NewInvoice.schema. rewrite !elem_of_app, !elem_of_issue_if.
  split.
  - intros [[_ [=]]|[[_ [=]]|[[_ [=]]|[[_ [=]]|[[_ [=]]|[[_ [=]]|[[_ [=]]|[H _]]]]]]]].
    destruct (NewInvoice.rate_night v); [by apply Z.ltb_lt|done].
  - intros H. do 7 right. split; [|done].
    destruct (NewInvoice.rate_night v); [by apply Z.ltb_lt|done].
Qed.

Lemma well_formed_schema uuid v i d ci co :
  NewInvoice.well_formed uuid v i d ci co -> NewInvoice.schema uuid v = [].
Proof.
  intros (Hh & Hc & Hcl & Hi & Hd & Hci & Hco & Hr).
  unfold NewInvoice.schema. rewrite Hh, Hc, Hcl, Hi, Hd, Hci, Hco. simpl.
  destruct (NewInvoice.rate_night v) as [r|]; [|done].
  by destruct (Z.ltb_spec r 0); [lia|].
Qed.

(** C9, as the code has it.  A rate that is negative or not a number
    fails the validation with an issue on [rate_night], and no invoice
    is created.  A check-out earlier than the check-in is not refused:
    the nights count as 0, and the invoice is created, open, with
    subtotal 0 and balance 0. *)
Theorem invoice_validation uuid fails new_id v db :
  (match NewInvoice.rate_night v with Some r => r < 0 | None => True end ->
     exists issues,
       NewInvoice.handleSubmit uuid fails new_id v db
       = (db, Invalid issues)
       /\ ("rate_night", "Rate must be a number ≥ 0") ∈ issues)
  /\ (forall i d ci co,
        NewInvoice.well_formed uuid v i d ci co -> co < ci ->
        fails InsertInvoice = false ->
        NewInvoice.nights v = 0
        /\ exists row,
             NewInvoice.handleSubmit uuid fails new_id v db
             = (with_invoices (invoices db ++ [row]) db,
                Ran (Succeeded "Invoice created"))
             /\ inv_id row = new_id /\ inv_check_in row = Some ci
             /\ inv_check_out row = Some co /\ inv_subtotal row = 0
             /\ inv_tax row = 0 /\ inv_balance row = 0
             /\ inv_status row = "open").
Proof.
  split.
  - intros Hrate. apply (schema_rate_issue uuid) in Hrate.
    unfold NewInvoice.handleSubmit.
    destruct (NewInvoice.schema uuid v) as [|issue issues] eqn:Hs.
    + by apply not_elem_of_nil in Hrate.
    + by exists (issue :: issues).
  - intros i d ci co Hwf Hlt Hins.
    pose proof (well_formed_schema _ _ _ _ _ _ Hwf) as Hs.
    destruct Hwf as (_ & _ & _ & Hi & Hd & Hci & Hco & Hr).
    assert (NewInvoice.nights v = 0) as Hn.
    { unfold NewInvoice.nights, NewInvoice.daysBetween. rewrite Hci, Hco. lia. }
    split; [done|].
    unfold NewInvoice.handleSubmit, NewInvoice.onSubmit. rewrite Hs, Hins.
    unfold NewInvoice.row_of, NewInvoice.previewTotal.
    rewrite Hi, Hd, Hci, Hco, Hn. simpl.
    eexists. split; [reflexivity|]. by simpl.
Qed.
End CreateInvoice.

Section CreateInvoiceScenario.
Import Db Ledger Scenario.

Lemma invoice_validation_witness :
  (exists issues,
      NewInvoice.handleSubmit any_uuid no_faults "inv-9" form_negative db_B
      = (db_B, Invalid issues)
      /\ ("rate_night", "Rate must be a number ≥ 0") ∈ issues)
  /\ NewInvoice.nights form_backwards = 0
  /\ exists row,
       NewInvoice.handleSubmit any_uuid no_faults "inv-9" form_backwards db_B
       = (with_invoices (invoices db_B ++ [row]) db_B,
          Ran (Succeeded "Invoice created"))
       /\ inv_id row = "inv-9" /\ inv_check_in row = Some 19800
       /\ inv_check_out row = Some 19795 /\ inv_subtotal row = 0
       /\ inv_tax row = 0 /\ inv_balance row = 0
       /\ inv_status row = "open".
Proof.
  split.
  - apply (proj1 (invoice_validation any_uuid no_faults "inv-9" form_negative db_B)).
    reflexivity.
  - apply (proj2 (invoice_validation any_uuid no_faults "inv-9" form_backwards db_B)
             19800 19830 19800 19795).
    + repeat split. vm_compute. discriminate.
    + reflexivity.
    + reflexivity.
Defined.

(** The claim C9 fails for the dates: a form whose check-out is five days
    before its check-in raises no issue, and the invoice is created. *)
Lemma checkout_before_checkin_accepted :
  let r := NewInvoice.handleSubmit any_uuid no_faults "inv-9" form_backwards db_B in
  NewInvoice.check_out form_backwards = NewInvoice.OnDay 19795
  /\ NewInvoice.check_in form_backwards = NewInvoice.OnDay 19800
  /\ NewInvoice.schema any_uuid form_backwards = []
  /\ r.2 = Ran (Succeeded "Invoice created")
  /\ (inv_id <$> invoices r.1) = ["inv-B"; "inv-9"]
  /\ (inv_subtotal <$> invoices r.1) = [dollars 500; 0]
  /\ (inv_status <$> invoices r.1) = ["open"; "open"].
Proof. vm_compute. repeat split; reflexivity. Qed.
End CreateInvoiceScenario.

(** ** The invoices listing *)

Section Listing.
Import Db Ledger.

Lemma merge_rows_void f base alloc r :
  r ∈ Invoices.merge_rows f base alloc ->
  toLowerCase (Invoices.status r) = "void" ->
  Invoices.payments r = 0 /\ Invoices.balance r = Some 0.
Proof.
  unfold Invoices.merge_rows. intros Hr Hvoid.
  apply list_elem_of_fmap in Hr as (r0 & -> & _).
  destruct (eqs (toLowerCase (Invoices.status r0)) "void") eqn:Hv; [done|].
  apply eqs_false in Hv. done.
Qed.

Lemma merge_rows_origin f base alloc r :
  r ∈ Invoices.merge_rows f base alloc ->
  exists inv p, inv ∈ base
    /\ r = (if eqs (toLowerCase (inv_status inv)) "void"
            then Invoices.zeroed (Invoices.merge_row inv p)
            else Invoices.merge_row inv p).
Proof.
  unfold Invoices.merge_rows. intros Hr.
  apply list_elem_of_fmap in Hr as (r0 & -> & Hr0).
  assert (r0 ∈ (fun r => Invoices.merge_row r
                    (default 0 (Invoices.pay_map alloc !! inv_id r))) <$> base)
    as Hin.
  { destruct (eqs (Invoices.search f) ""); [done|].
    by apply list_elem_of_filter in Hr0 as [_ Hr0]. }
  apply list_elem_of_fmap in Hin as (inv & -> & Hinv).
  by exists inv, (default 0 (Invoices.pay_map alloc !! inv_id inv)).
Qed.

(** X23.  A row the listing shows whose status is void (in any letter
    case) comes from a live invoice of the store and is shown with its
    total and with payments 0, whatever allocations point to it; the
    Balance column, which prints max(0, total - payments), then prints
    max(0, total), whatever balance is stored: 0 exactly when the total
    is not positive. *)
Theorem void_rows_display fails f db r :
  r ∈ Invoices.fetchRows fails f db ->
  toLowerCase (Invoices.status r) = "void" ->
  Invoices.payments r = 0
  /\ InvoicesView.liveBalance r = Z.max 0 (InvoicesView.total_of r)
  /\ exists inv,
       inv ∈ invoices db /\ inv_deleted_at inv = None
       /\ Invoices.id r = inv_id inv
       /\ Invoices.total r = Some (inv_total inv)
       /\ (InvoicesView.liveBalance r = 0 <-> inv_total inv <= 0).
Proof.
  unfold Invoices.fetchRows. intros Hr Hvoid.
  destruct (fails SelectInvoices); [by apply not_elem_of_nil in Hr|].
  assert (exists alloc, r ∈ Invoices.merge_rows f (Invoices.base_query f db) alloc)
    as [alloc Hm].
  { destruct (inv_id <$> Invoices.base_query f db); [by eexists|].
    destruct (fails SelectAllocations); [by apply not_elem_of_nil in Hr|].
    by eexists. }
  clear Hr. apply merge_rows_origin in Hm as (inv & p & Hinv & ->).
  assert (inv ∈ invoices db /\ inv_deleted_at inv = None) as [Hin Hlive].
  { unfold Invoices.base_query in Hinv.
    apply list_elem_of_filter in Hinv as [Hq Hinv]. split; [done|].
    repeat (apply andb_true_iff in Hq as [Hq _]).
    by destruct (inv_deleted_at inv). }
  destruct (eqs (toLowerCase (inv_status inv)) "void") eqn:Hv.
  - unfold InvoicesView.liveBalance, InvoicesView.total_of. simpl.
    split; [done|]. split; [f_equal; lia|].
    exists inv. repeat split; try done; lia.
  - apply eqs_false in Hv. done.
Qed.
End Listing.

Section ListingScenario.
Import Db Ledger Scenario.

Lemma void_rows_display_witness :
  let r := Invoices.zeroed (Invoices.merge_row inv_V (dollars 30)) in
  Invoices.payments r = 0
  /\ InvoicesView.liveBalance r = Z.max 0 (InvoicesView.total_of r)
  /\ exists inv,
       inv ∈ invoices db_V /\ inv_deleted_at inv = None
       /\ Invoices.id r = inv_id inv
       /\ Invoices.total r = Some (inv_total inv)
       /\ (InvoicesView.liveBalance r = 0 <-> inv_total inv <= 0).
Proof.
  apply (void_rows_display no_faults show_all db_V).
  - vm_compute. left.
  - reflexivity.
Defined.


(** The void invoice is listed with zeros beside an open one listed with
    its stored balance, though 70.00 is stored for it and 30.00 is still
    allocated to it. *)
Example listing_of_void :
  inv_balance inv_V = dollars 70
  /\ paid_to_date db_V "inv-V" = dollars 30
  /\ Invoices.fetchRows no_faults show_all db_V
     = [Invoices.zeroed (Invoices.merge_row inv_V (dollars 30));
        Invoices.merge_row inv_B 0].
Proof. vm_compute. repeat split; reflexivity. Qed.
End ListingScenario.

(** ** The aging report *)

Section Tally.
Import Aging.
Context {V : Type} (key : Detail -> string) (skip : Detail -> bool)
  (init : string -> V) (update : Detail -> V -> V).

Lemma Aging_eqs_true (a b : string) : Aging.eqs a b = true <-> a = b.
Proof. unfold Aging.eqs. apply bool_decide_eq_true. Qed.

Lemma Aging_eqs_false (a b : string) : Aging.eqs a b = false <-> a <> b.
Proof. unfold Aging.eqs. apply bool_decide_eq_false. Qed.

Lemma get_touch (m : list (string * V)) k i (u : V -> V) k' :
  get (touch k i u m) k'
  = if decide (k' = k) then Some (u (default i (get m k))) else get m k'.
Proof.
  induction m as [|[k0 v0] m IH]; simpl.
  - destruct (decide (k' = k)) as [->|Hne].
    + by rewrite (proj2 (Aging_eqs_true k k)).
    + rewrite (proj2 (Aging_eqs_false k k')); [done|congruence].
  - destruct (Aging.eqs k0 k) eqn:Hk0; simpl.
    + apply Aging_eqs_true in Hk0 as ->.
      destruct (decide (k' = k)) as [->|Hne].
      * by rewrite (proj2 (Aging_eqs_true k k)).
      * rewrite (proj2 (Aging_eqs_false k k')); [done|congruence].
    + rewrite IH. apply Aging_eqs_false in Hk0.
      destruct (decide (k' = k)) as [->|Hne].
      * by rewrite (proj2 (Aging_eqs_false k0 k)).
      * done.
Qed.

Lemma touch_keys (m : list (string * V)) k i (u : V -> V) :
  (touch k i u m).*1 = if decide (k ∈ m.*1) then m.*1 else m.*1 ++ [k].
Proof.
  induction m as [|[k0 v0] m IH]; cbn [touch].
  - destruct (decide (k ∈ [].*1)) as [Hin|_]; [by apply not_elem_of_nil in Hin|done].
  - destruct (Aging.eqs k0 k) eqn:Hk0; rewrite !fmap_cons; cbn [fst].
    + apply Aging_eqs_true in Hk0 as ->.
      destruct (decide (k ∈ k :: m.*1)) as [_|Hn]; [done|].
      exfalso. apply Hn. left.
    + apply Aging_eqs_false in Hk0. rewrite IH.
      destruct (decide (k ∈ m.*1)) as [Hin|Hn],
               (decide (k ∈ k0 :: m.*1)) as [Hin'|Hn']; try done.
      * exfalso. apply Hn'. by right.
      * exfalso. apply elem_of_cons in Hin' as [->|Hin']; done.
Qed.

Lemma touch_NoDup (m : list (string * V)) k i (u : V -> V) :
  NoDup m.*1 -> NoDup (touch k i u m).*1.
Proof.
  intros Hnd. rewrite touch_keys. destruct (decide (k ∈ m.*1)); [done|].
  apply NoDup_app. repeat split; [done| |apply NoDup_singleton].
  intros x Hx Hxk. apply list_elem_of_singleton in Hxk as ->. done.
Qed.

Lemma get_elem_of (m : list (string * V)) k v :
  NoDup m.*1 -> (k, v) ∈ m <-> get m k = Some v.
Proof.
  induction m as [|[k0 v0] m IH]; intros Hnd; simpl.
  - split; [by intros ?%not_elem_of_nil|done].
  - apply NoDup_cons in Hnd as [Hk0 Hnd]. rewrite elem_of_cons.
    destruct (Aging.eqs k0 k) eqn:Hk.
    + apply Aging_eqs_true in Hk as ->. split.
      * intros [[= ->]|Hin]; [done|].
        exfalso. apply Hk0. apply list_elem_of_fmap. by exists (k, v).
      * intros [= ->]. by left.
    + apply Aging_eqs_false in Hk. rewrite <- (IH Hnd). split.
      * intros [[= ? ?]|Hin]; [congruence|done].
      * intros Hin. by right.
Qed.

(** What the loop holds for a key after the rows: nothing when no row
    counted for it, and otherwise the entry built from the rows that
    counted, in their order. *)
Lemma tally_get (rows : list Detail) (k : string) :
  get (fold_left (tally key skip init update) rows []) k
  = match counted key skip k rows with
    | [] => None
    | l => Some (fold_left (fun v r => update r v) l (init k))
    end.
Proof.
  induction rows as [|r rows IH] using rev_ind; [done|].
  rewrite fold_left_app. simpl. unfold tally at 1.
  unfold counted in *. rewrite filter_app.
  destruct (skip r) eqn:Hs.
  - rewrite filter_cons_False by (intros [? _]; congruence).
    rewrite filter_nil, app_nil_r. apply IH.
  - rewrite get_touch. destruct (decide (k = key r)) as [->|Hne].
    + rewrite filter_cons_True by done. rewrite filter_nil, IH.
      destruct (filter _ rows) as [|r0 l]; simpl; [done|].
      by rewrite fold_left_app.
    + rewrite filter_cons_False by (intros [_ ?]; congruence).
      rewrite filter_nil, app_nil_r. apply IH.
Qed.

Lemma tally_NoDup (rows : list Detail) :
  NoDup (fold_left (tally key skip init update) rows []).*1.
Proof.
  induction rows as [|r rows IH] using rev_ind; [apply NoDup_nil_2|].
  rewrite fold_left_app. simpl. unfold tally at 1.
  destruct (skip r); [done|]. by apply touch_NoDup.
Qed.

(** The entries of the loop are the keys with a row that counted, each
    with the entry built from its rows. *)
Lemma tally_entries (rows : list Detail) (v : V) :
  v ∈ (fold_left (tally key skip init update) rows []).*2
  <-> exists k, counted key skip k rows <> []
      /\ v = fold_left (fun v r => update r v) (counted key skip k rows) (init k).
Proof.
  rewrite list_elem_of_fmap. split.
  - intros ([k v'] & -> & Hin). simpl. exists k.
    apply get_elem_of in Hin; [|apply tally_NoDup].
    rewrite tally_get in Hin.
    destruct (counted key skip k rows); [done|]. by injection Hin as <-.
  - intros (k & Hne & ->). eexists (k, _). split; [done|].
    apply get_elem_of; [apply tally_NoDup|]. rewrite tally_get.
    by destruct (counted key skip k rows).
Qed.
End Tally.

Section TallyMeasure.
Import Aging.
Context {V : Type} (key : Detail -> string) (skip : Detail -> bool)
  (init : string -> V) (update : Detail -> V -> V).

(** A quantity of the entries that starts at 0 and that each row raises
    by its weight. *)
Context (measure : V -> Z) (weight : Detail -> Z).
Hypothesis measure_init : forall k, measure (init k) = 0.
Hypothesis measure_update :
  forall r v, measure (update r v) = measure v + weight r.

Lemma touch_measure (m : list (string * V)) (r : Detail) :
  sum (measure <$> (touch (key r) (init (key r)) (update r) m).*2)
  = sum (measure <$> m.*2) + weight r.
Proof.
  induction m as [|[k0 v0] m IH]; cbn [touch].
  - rewrite !fmap_cons, !fmap_nil, sum_cons, sum_nil. cbn [snd].
    rewrite measure_update, measure_init. lia.
  - destruct (Aging.eqs k0 (key r)); rewrite !fmap_cons, !sum_cons; cbn [snd].
    + rewrite measure_update. lia.
    + rewrite IH. lia.
Qed.

(** Over all entries, the quantity is the weight of the rows that were
    not skipped. *)
Lemma tally_measure (rows : list Detail) :
  sum (measure <$> (fold_left (tally key skip init update) rows []).*2)
  = sum (weight <$> filter (fun r => skip r = false) rows).
Proof.
  induction rows as [|r rows IH] using rev_ind; [done|].
  rewrite fold_left_app, filter_app, fmap_app, sum_app. simpl.
  unfold tally at 1. destruct (skip r) eqn:Hs.
  - rewrite filter_cons_False by congruence.
    rewrite filter_nil, fmap_nil, sum_nil, IH. lia.
  - rewrite filter_cons_True by done.
    rewrite filter_nil, touch_measure, IH, fmap_cons, fmap_nil, sum_cons, sum_nil.
    lia.
Qed.
End TallyMeasure.

Section AgingFacts.
Import Aging.

Lemma sum_perm (l l' : list Z) : l ≡ₚ l' -> sum l = sum l'.
Proof.
  induction 1 as [|x l l' _ IH|x y l|l l' l'' _ IH1 _ IH2];
    rewrite ?sum_cons; try lia; congruence.
Qed.

Lemma fold_sum {A} (f : A -> Z) (l : list A) (a : Z) :
  fold_left (fun s x => s + f x) l a = a + sum (f <$> l).
Proof.
  revert a. induction l as [|x l IH]; intros a; cbn [fold_left].
  - rewrite fmap_nil, sum_nil. lia.
  - rewrite IH, fmap_cons, sum_cons. lia.
Qed.

Lemma paid_zero_false (r : Detail) :
  paid_zero r = false <-> bucket r <> "Paid/Zero".
Proof. unfold paid_zero. apply Aging_eqs_false. Qed.

Lemma sum_in_bucket (l : string) (r : Detail) (rest : list Detail) :
  sum (balance <$> filter (fun r => bucket r = l) (r :: rest))
  = (if Aging.eqs (bucket r) l then balance r else 0)
    + sum (balance <$> filter (fun r => bucket r = l) rest).
Proof.
  rewrite filter_cons. destruct (Aging.eqs (bucket r) l) eqn:Hb.
  - apply Aging_eqs_true in Hb. rewrite decide_True by done.
    by rewrite fmap_cons, sum_cons.
  - apply Aging_eqs_false in Hb. rewrite decide_False by done. lia.
Qed.

Lemma fold_add_row (l : list Detail) (g0 : BucketGroup) :
  let g := fold_left (fun g r => add_row r g) l g0 in
  label g = label g0
  /\ total g = total g0 + sum (balance <$> l)
  /\ count g = count g0 + Z.of_nat (length l)
  /\ rows g = rows g0 ++ l.
Proof.
  revert g0. induction l as [|r l IH]; intros g0; cbv zeta; cbn [fold_left].
  - rewrite fmap_nil, sum_nil, app_nil_r. cbn [length]. repeat split; lia.
  - destruct (IH (add_row r g0)) as (Hl & Ht & Hc & Hr).
    rewrite Hl, Ht, Hc, Hr, fmap_cons, sum_cons.
    cbn [add_row label total count rows length].
    repeat split; try lia. by rewrite <- app_assoc.
Qed.

Lemma fold_add_amount (l : list Detail) (a0 : CompanyRow) :
  let a := fold_left (fun a r => add_amount r a) l a0 in
  let within b := sum (balance <$> filter (fun r => bucket r = b) l) in
  company a = company a0
  /\ co_count a = co_count a0 + Z.of_nat (length l)
  /\ co_total a = co_total a0 + sum (balance <$> l)
  /\ b0_30 a = b0_30 a0 + within "Current (0-30)"
  /\ b31_60 a = b31_60 a0 + within "31-60"
  /\ b61_90 a = b61_90 a0 + within "61-90"
  /\ b91p a = b91p a0 + within "91+".
Proof.
  revert a0. induction l as [|r l IH]; intros a0; cbv zeta.
  - cbn [fold_left length]. rewrite !filter_nil, !fmap_nil, !sum_nil.
    repeat split; lia.
  - cbn [fold_left]. destruct (IH (add_amount r a0)) as (Hn & Hc & Ht & H1 & H2 & H3 & H4).
    rewrite Hn, Hc, Ht, H1, H2, H3, H4, !sum_in_bucket, fmap_cons, sum_cons.
    cbn [add_amount company co_count co_total b0_30 b31_60 b61_90 b91p length].
    repeat split; lia.
Qed.

(** The loop of [groups] is an instance of the scheme. *)
Lemma group_loop (rows : list Detail) :
  fold_left group_step rows []
  = fold_left (tally bucket paid_zero new_group add_row) rows [].
Proof. reflexivity. Qed.

Lemma company_loop invoiceMeta (rows : list Detail) :
  fold_left (company_step invoiceMeta) rows []
  = fold_left (tally (company_of invoiceMeta) paid_zero new_company add_amount)
      rows [].
Proof. reflexivity. Qed.

Lemma counted_bucket (l : string) (rows : list Detail) :
  l <> "Paid/Zero" ->
  counted bucket paid_zero l rows = filter (fun r => bucket r = l) rows.
Proof.
  intros Hl. unfold counted. apply list_filter_iff. intros r.
  rewrite paid_zero_false. split; [tauto|]. intros <-. done.
Qed.

Lemma counted_not_paid key (k : string) (rows : list Detail) (r : Detail) :
  r ∈ counted key paid_zero k rows ->
  r ∈ rows /\ bucket r <> "Paid/Zero" /\ key r = k.
Proof.
  unfold counted. rewrite list_elem_of_filter, paid_zero_false. tauto.
Qed.

Lemma elem_of_groups (rows : list Detail) (g : BucketGroup) :
  g ∈ groups rows
  <-> exists l, counted bucket paid_zero l rows <> []
      /\ g = fold_left (fun g r => add_row r g)
               (counted bucket paid_zero l rows) (new_group l).
Proof.
  unfold groups. rewrite elem_of_sort_by, group_loop. apply tally_entries.
Qed.

Lemma elem_of_breakdown compare invoiceMeta (rows : list Detail) (c : CompanyRow) :
  c ∈ byCompanyAllBuckets compare rows invoiceMeta
  <-> exists n, counted (company_of invoiceMeta) paid_zero n rows <> []
      /\ c = fold_left (fun a r => add_amount r a)
               (counted (company_of invoiceMeta) paid_zero n rows)
               (new_company n).
Proof.
  unfold byCompanyAllBuckets. rewrite elem_of_sort_by, company_loop.
  apply tally_entries.
Qed.
End AgingFacts.

Section AgingOrder.
Import Aging.





Lemma sum_ones {A} (l : list A) : sum ((fun _ => 1) <$> l) = Z.of_nat (length l).
Proof.
  induction l as [|x l IH]; [done|].
  rewrite fmap_cons, sum_cons, IH. cbn [length]. lia.
Qed.

Lemma not_paid_filter (rows : list Detail) :
  filter (fun r => paid_zero r = false) rows
  = filter (fun r => bucket r <> "Paid/Zero") rows.
Proof. apply list_filter_iff. intros r. apply paid_zero_false. Qed.

Lemma grandTotal_spec (rows : list Detail) :
  grandTotal rows
  = sum (balance <$> filter (fun r => bucket r <> "Paid/Zero") rows).
Proof.
  unfold grandTotal. rewrite fold_sum, Z.add_0_l.
  unfold groups. rewrite (sum_perm _ _ (fmap_Permutation total _ _ (sort_by_perm _ _))).
  rewrite group_loop, <- not_paid_filter.
  apply (tally_measure bucket paid_zero new_group add_row total balance); done.
Qed.

Lemma grandCount_spec (rows : list Detail) :
  grandCount rows
  = Z.of_nat (length (filter (fun r => bucket r <> "Paid/Zero") rows)).
Proof.
  unfold grandCount. rewrite fold_sum, Z.add_0_l.
  unfold groups. rewrite (sum_perm _ _ (fmap_Permutation count _ _ (sort_by_perm _ _))).
  rewrite group_loop, <- not_paid_filter, <- sum_ones.
  apply (tally_measure bucket paid_zero new_group add_row count (fun _ => 1)); done.
Qed.

End AgingOrder.

Section AgingReport.
Import Aging.

End AgingReport.

Section AgingScenario.
Import Aging Scenario.




(** The six balances are whole dollars. *)
Example aging_rows_safe :
  safe_sum (balance <$> filter (fun r => bucket r <> "Paid/Zero") aging_rows).
Proof. by apply safe_sumb_safe_sum. Qed.

(** C8.  Zeta owes 89.99 and 129.99, Alpha owes 219.98: the same, to the
    cent, so that by name Alpha stands first.  The page adds Zeta's two
    balances to a double above that of 219.98 and lists Zeta first. *)
Lemma breakdown_tie_against_name :
  let exact := byCompanyAllBuckets compare_codes tie_rows tie_meta in
  let shown := AgingDouble.byCompanyAllBuckets compare_codes tie_rows tie_meta in
  (co_total <$> exact) = [cents 21998; cents 21998]
  /\ (company <$> exact) = ["Alpha"; "Zeta"]
  /\ (AgingDouble.company <$> shown) = ["Zeta"; "Alpha"]
  /\ (AgingDouble.count <$> shown) = [2; 1]
  /\ match AgingDouble.total <$> shown with
     | [zeta; alpha] =>
         PrimFloat.eqb alpha (AgingDouble.Number (cents 21998))
         && PrimFloat.ltb alpha zeta
     | _ => false
     end = true.
Proof. vm_compute. repeat split; reflexivity. Qed.

(** The report of six invoices: the paid one is in no group; Birch and
    Cedar both owe 170.00 and stand by name after Alder, which owes
    300.00. *)
Example aging_of_six :
  (label <$> groups aging_rows) = ["Current (0-30)"; "31-60"; "61-90"; "91+"]
  /\ (total <$> groups aging_rows)
     = [dollars 170; dollars 120; dollars 300; dollars 50]
  /\ (count <$> groups aging_rows) = [2; 1; 1; 1]
  /\ grandTotal aging_rows = dollars 640
  /\ grandCount aging_rows = 5
  /\ byCompanyAllBuckets compare_codes aging_rows aging_meta
     = [ {| company := "Alder"; co_count := 1; b0_30 := 0; b31_60 := 0;
            b61_90 := dollars 300; b91p := 0; co_total := dollars 300 |};
         {| company := "Birch"; co_count := 2; b0_30 := 0;
            b31_60 := dollars 120; b61_90 := 0; b91p := dollars 50;
            co_total := dollars 170 |};
         {| company := "Cedar"; co_count := 2; b0_30 := dollars 170;
            b31_60 := 0; b61_90 := 0; b91p := 0; co_total := dollars 170 |} ].
Proof. vm_compute. repeat split; reflexivity. Qed.
End AgingScenario.

(** * Further properties *)

(** ** The listing and the store *)

Section ListingFacts.
Import Db Ledger.

Lemma pay_map_acc (alloc : list (string * Z)) (m : gmap string Z) (k : string) :
  default 0 (fold_left
               (fun pay a => <[a.1 := default 0 (pay !! a.1) + a.2]> pay)
               alloc m !! k)
  = default 0 (m !! k) + sum (snd <$> filter (fun a => a.1 = k) alloc).
Proof.
  revert m. induction alloc as [|[k0 v0] alloc IH]; intros m; cbn [fold_left].
  - rewrite filter_nil, fmap_nil, sum_nil. lia.
  - rewrite IH, filter_cons. cbn [fst snd].
    destruct (decide (k0 = k)) as [->|Hne].
    + rewrite lookup_insert_eq, fmap_cons, sum_cons. simpl. lia.
    + rewrite lookup_insert_ne by done. lia.
Qed.

Lemma pay_map_lookup (alloc : list (string * Z)) (k : string) :
  default 0 (Invoices.pay_map alloc !! k)
  = sum (snd <$> filter (fun a => a.1 = k) alloc).
Proof.
  unfold Invoices.pay_map. rewrite pay_map_acc, lookup_empty. simpl. lia.
Qed.

(** For an invoice the page lists, the amounts it reads are the active
    allocations of the invoice. *)
Lemma alloc_query_amounts (ids : list string) (db : DB) (k : string) :
  k ∈ ids ->
  snd <$> filter (fun a => a.1 = k) (Invoices.alloc_query ids db)
  = active_amounts db k.
Proof.
  intros Hk. unfold Invoices.alloc_query, active_amounts.
  induction (allocations db) as [|a l IH]; [done|].
  rewrite !filter_cons.
  destruct (decide (existsb (eqs (al_invoice_id a)) ids
                    && is_null (al_deleted_at a) = true)) as [Hq|Hq].
  - rewrite fmap_cons, filter_cons. cbn [fst].
    apply andb_true_iff in Hq as [_ Hlive].
    destruct (decide (al_invoice_id a = k)) as [Heq|Hne].
    + rewrite decide_True.
      2:{ rewrite Hlive, andb_true_r. by apply eqs_true. }
      rewrite !fmap_cons. cbn [snd]. by rewrite IH.
    + rewrite decide_False; [done|].
      intros Hhit. apply andb_true_iff in Hhit as [Hhit _].
      by apply eqs_true in Hhit.
  - rewrite decide_False; [done|].
    intros Hhit. apply Hq. apply andb_true_iff in Hhit as [Hid Hlive].
    apply eqs_true in Hid. rewrite Hlive, andb_true_r.
    apply existsb_exists. exists k. split; [by apply list_elem_of_In|].
    by apply eqs_true.
Qed.

Lemma merge_rows_source f base alloc r :
  r ∈ Invoices.merge_rows f base alloc ->
  toLowerCase (Invoices.status r) <> "void" ->
  exists inv, inv ∈ base
    /\ r = Invoices.merge_row inv (default 0 (Invoices.pay_map alloc !! inv_id inv)).
Proof.
  unfold Invoices.merge_rows. intros Hr Hnv.
  apply list_elem_of_fmap in Hr as (r0 & -> & Hr0).
  destruct (eqs (toLowerCase (Invoices.status r0)) "void") eqn:Hv.
  - apply eqs_true in Hv. done.
  - assert (r0 ∈ (fun r => Invoices.merge_row r
                     (default 0 (Invoices.pay_map alloc !! inv_id r))) <$> base)
      as Hin.
    { destruct (eqs (Invoices.search f) ""); [done|].
      by apply list_elem_of_filter in Hr0 as [_ Hr0]. }
    apply list_elem_of_fmap in Hin as (inv & -> & Hinv). by exists inv.
Qed.

(** X1.  A row the listing shows whose status is not void comes from a
    live invoice of the store; the payments shown for it are the sum of
    the invoice's active allocations, and the balance printed for it is
    max(0, total - that sum), whatever balance is stored. *)
Theorem listing_shows_live_balance fails f db r :
  r ∈ Invoices.fetchRows fails f db ->
  toLowerCase (Invoices.status r) <> "void" ->
  exists inv,
    inv ∈ invoices db /\ inv_deleted_at inv = None
    /\ Invoices.id r = inv_id inv
    /\ Invoices.payments r = paid_to_date db (inv_id inv)
    /\ Invoices.balance r = Some (inv_balance inv)
    /\ InvoicesView.liveBalance r
       = Z.max 0 (inv_total inv - paid_to_date db (inv_id inv)).
Proof.
  unfold Invoices.fetchRows. intros Hr Hnv.
  destruct (fails SelectInvoices); [by apply not_elem_of_nil in Hr|].
  assert (forall inv, inv ∈ Invoices.base_query f db ->
            inv ∈ invoices db /\ inv_deleted_at inv = None) as Hbase.
  { intros inv Hin. unfold Invoices.base_query in Hin.
    apply list_elem_of_filter in Hin as [Hq Hin]. split; [done|].
    repeat (apply andb_true_iff in Hq as [Hq _]).
    by destruct (inv_deleted_at inv). }
  destruct (inv_id <$> Invoices.base_query f db) as [|i0 ids] eqn:Hids.
  - apply fmap_nil_inv in Hids.
    apply merge_rows_source in Hr as (inv & Hinv & _); [|done].
    rewrite Hids in Hinv. by apply not_elem_of_nil in Hinv.
  - destruct (fails SelectAllocations); [by apply not_elem_of_nil in Hr|].
    apply merge_rows_source in Hr as (inv & Hinv & ->); [|done].
    destruct (Hbase inv Hinv) as [Hin Hlive].
    exists inv. rewrite pay_map_lookup, alloc_query_amounts.
    2:{ rewrite <- Hids. by apply list_elem_of_fmap_2. }
    repeat split; try done.
Qed.
End ListingFacts.

Section ListingScenarioLive.
Import Db Ledger Scenario.

Lemma listing_shows_live_balance_witness :
  exists inv,
    inv ∈ invoices db_B_paid /\ inv_deleted_at inv = None
    /\ Invoices.id (Invoices.merge_row inv_B (dollars 200)) = inv_id inv
    /\ Invoices.payments (Invoices.merge_row inv_B (dollars 200))
       = paid_to_date db_B_paid (inv_id inv)
    /\ Invoices.balance (Invoices.merge_row inv_B (dollars 200))
       = Some (inv_balance inv)
    /\ InvoicesView.liveBalance (Invoices.merge_row inv_B (dollars 200))
       = Z.max 0 (inv_total inv - paid_to_date db_B_paid (inv_id inv)).
Proof.
  apply (listing_shows_live_balance no_faults show_all db_B_paid).
  - vm_compute. left.
  - vm_compute. discriminate.
Defined.

(** After the payment of 200.00 the listing prints 300.00 for the
    invoice, though 500.00 is stored. *)
Example listing_after_payment :
  (InvoicesView.liveBalance <$> Invoices.fetchRows no_faults show_all db_B_paid)
  = [dollars 300]
  /\ (Invoices.balance <$> Invoices.fetchRows no_faults show_all db_B_paid)
     = [Some (dollars 500)].
Proof. vm_compute. split; reflexivity. Qed.
End ListingScenarioLive.

(** ** The sums under the listing *)

Section SummaryFacts.
Import Invoices InvoicesView.

Lemma summary_acc (rows : list RowWithAgg) (s0 : Summary) :
  let s := fold_left
             (fun s r =>
                {| s_total := s_total s + total_of r;
                   s_payments := s_payments s + payments r;
                   s_balance := s_balance s + Z.max 0 (total_of r - payments r) |})
             rows s0 in
  s_total s = s_total s0 + sum (total_of <$> rows)
  /\ s_payments s = s_payments s0 + sum (payments <$> rows)
  /\ s_balance s = s_balance s0 + sum (liveBalance <$> rows).
Proof.
  revert s0. induction rows as [|r rows IH]; intros s0; cbv zeta; cbn [fold_left].
  - rewrite !fmap_nil, sum_nil. repeat split; lia.
  - destruct (IH {| s_total := s_total s0 + total_of r;
                    s_payments := s_payments s0 + payments r;
                    s_balance := s_balance s0 + Z.max 0 (total_of r - payments r) |})
      as (Ht & Hp & Hb).
    rewrite Ht, Hp, Hb, !fmap_cons, !sum_cons.
    cbn [s_total s_payments s_balance]. unfold liveBalance. repeat split; lia.
Qed.

Lemma sum_live_bounds (rows : list RowWithAgg) :
  0 <= sum (liveBalance <$> rows)
  /\ sum (total_of <$> rows) - sum (payments <$> rows)
     <= sum (liveBalance <$> rows).
Proof.
  induction rows as [|r rows [IH0 IH1]]; [rewrite !fmap_nil, sum_nil; lia|].
  rewrite !fmap_cons, !sum_cons. unfold liveBalance at 1 3. lia.
Qed.

Lemma sum_live_exact (rows : list RowWithAgg) :
  Forall (fun r => payments r <= total_of r) rows ->
  sum (liveBalance <$> rows)
  = sum (total_of <$> rows) - sum (payments <$> rows).
Proof.
  induction 1 as [|r rows Hr _ IH]; [rewrite !fmap_nil, sum_nil; lia|].
  rewrite !fmap_cons, !sum_cons, IH. unfold liveBalance. lia.
Qed.

(** X2.  The three sums under the listing are the sums over the rows of
    the total, of the payments and of the balance printed for the row.
    The balance summed is never negative and never less than total minus
    payments; it is total minus payments exactly when no row has more
    paid than its total. *)
Theorem summary_sums (rows : list RowWithAgg) :
  s_total (summary rows) = sum (total_of <$> rows)
  /\ s_payments (summary rows) = sum (payments <$> rows)
  /\ s_balance (summary rows) = sum (liveBalance <$> rows)
  /\ 0 <= s_balance (summary rows)
  /\ s_total (summary rows) - s_payments (summary rows) <= s_balance (summary rows)
  /\ (Forall (fun r => payments r <= total_of r) rows ->
        s_balance (summary rows)
        = s_total (summary rows) - s_payments (summary rows)).
Proof.
  unfold summary.
  destruct (summary_acc rows {| s_total := 0; s_payments := 0; s_balance := 0 |})
    as (Ht & Hp & Hb).
  cbn [s_total s_payments s_balance] in Ht, Hp, Hb.
  rewrite Ht, Hp, Hb, !Z.add_0_l.
  destruct (sum_live_bounds rows) as [H0 H1].
  repeat split; try done. apply sum_live_exact.
Qed.

(** The sums of five rows: the row paid 100.00 over its total makes the
    balance 100.00 more than total minus payments. *)
Example summary_of_five :
  summary Scenario.listed_rows
  = {| s_total := dollars 1300; s_payments := dollars 650;
       s_balance := dollars 750 |}.
Proof. reflexivity. Qed.

Lemma statusCounts_acc (rows : list RowWithAgg) (c0 : Counts) :
  c_open (fold_left count_row rows c0)
  = c_open c0 + Z.of_nat (length (with_status "open" rows))
  /\ c_partial (fold_left count_row rows c0)
     = c_partial c0 + Z.of_nat (length (with_status "partial" rows))
  /\ c_paid (fold_left count_row rows c0)
     = c_paid c0 + Z.of_nat (length (with_status "paid" rows))
  /\ c_void (fold_left count_row rows c0)
     = c_void c0 + Z.of_nat (length (with_status "void" rows)).
Proof.
  revert c0. induction rows as [|r rows IH]; intros c0; cbn [fold_left].
  - unfold with_status. rewrite !filter_nil. cbn [length]. repeat split; lia.
  - destruct (IH (count_row c0 r)) as (Ho & Hp & Hd & Hv).
    rewrite Ho, Hp, Hd, Hv. unfold with_status, count_row.
    rewrite !filter_cons. cbv zeta.
    destruct (Db.eqs (toLowerCase (status r)) "open") eqn:E1.
    { apply eqs_true in E1. rewrite E1.
      repeat (case_decide; try done). cbn [length c_open c_partial c_paid c_void].
      repeat split; lia. }
    destruct (Db.eqs (toLowerCase (status r)) "partial") eqn:E2.
    { apply eqs_true in E2. rewrite E2.
      repeat (case_decide; try done). cbn [length c_open c_partial c_paid c_void].
      repeat split; lia. }
    destruct (Db.eqs (toLowerCase (status r)) "paid") eqn:E3.
    { apply eqs_true in E3. rewrite E3.
      repeat (case_decide; try done). cbn [length c_open c_partial c_paid c_void].
      repeat split; lia. }
    destruct (Db.eqs (toLowerCase (status r)) "void") eqn:E4.
    { apply eqs_true in E4. rewrite E4.
      repeat (case_decide; try done). cbn [length c_open c_partial c_paid c_void].
      repeat split; lia. }
    apply eqs_false in E1, E2, E3, E4.
    rewrite !decide_False by done. repeat split; lia.
Qed.

(** X3.  Each of the four counts is the number of rows whose status, in
    lower case, is its label; a row with any other status is in no count,
    so the four add up to the number of rows only when every status is
    one of the four. *)
Theorem statusCounts_counts (rows : list RowWithAgg) :
  let c := statusCounts rows in
  let known r := toLowerCase (status r) ∈ ["open"; "partial"; "paid"; "void"] in
  c_open c = Z.of_nat (length (with_status "open" rows))
  /\ c_partial c = Z.of_nat (length (with_status "partial" rows))
  /\ c_paid c = Z.of_nat (length (with_status "paid" rows))
  /\ c_void c = Z.of_nat (length (with_status "void" rows))
  /\ c_open c + c_partial c + c_paid c + c_void c
     = Z.of_nat (length (filter known rows)).
Proof.
  intros c known. subst c. unfold statusCounts.
  destruct (statusCounts_acc rows
              {| c_open := 0; c_partial := 0; c_paid := 0; c_void := 0 |})
    as (Ho & Hp & Hd & Hv).
  cbn [c_open c_partial c_paid c_void] in Ho, Hp, Hd, Hv.
  rewrite Ho, Hp, Hd, Hv, !Z.add_0_l. repeat split.
  unfold with_status. clear. induction rows as [|r rows IH]; [done|].
  rewrite !filter_cons. subst known. cbv beta.
  destruct (decide (toLowerCase (status r) ∈ ["open"; "partial"; "paid"; "void"]))
    as [Hk|Hk].
  - repeat (apply elem_of_cons in Hk as [Hk|Hk]); try by apply not_elem_of_nil in Hk.
    all: rewrite Hk; repeat (case_decide; try done); cbn [length]; lia.
  - repeat (case_decide; [exfalso; apply Hk; set_solver|]). lia.
Qed.

(** The counts of five rows: the status "Partial" counts as partial, the
    status "disputed" nowhere. *)
Example statusCounts_of_five :
  statusCounts Scenario.listed_rows
  = {| c_open := 1; c_partial := 1; c_paid := 1; c_void := 1 |}
  /\ length Scenario.listed_rows = 5%nat.
Proof. vm_compute. split; reflexivity. Qed.
End SummaryFacts.

(** ** The place of a row's menu *)

Section MenuFacts.
Import RowMenu.

Lemma clamp_bounds (n lo hi : Z) :
  lo <= hi -> lo <= clamp n lo hi <= hi.
Proof. unfold clamp. lia. Qed.

Lemma clamp_inside (n lo hi : Z) : lo <= n <= hi -> clamp n lo hi = n.
Proof. unfold clamp. lia. Qed.

(** X4.  The place [toggle] gives the popover carries the page's scroll
    offsets, though the popover is drawn at window coordinates.  Less the
    scroll offsets, the place is inside a window at least 208 wide and
    186 high, 8 pixels off every edge; so on a page that is not scrolled
    the popover is inside the window.  There it stands 8 pixels under
    the button when 186 pixels are free below it, and 8 pixels over the
    button when fewer than 178 are free below and the button is at least
    186 pixels down; on a scrolled page it stands lower by the scroll
    offset.  On a page scrolled down (right) to within 8 pixels of the
    window's height (width) or further, the popover begins at or beyond
    the window's bottom (right) edge. *)
Theorem menu_stays_in_window (rect : Rect) (w : Window) :
  let '(t, l) := place rect w in
  (menuW + 16 <= innerWidth w -> menuH + 16 <= innerHeight w ->
     inside_window w (t - scrollY w) (l - scrollX w))
  /\ (menuW + 16 <= innerWidth w -> menuH + 16 <= innerHeight w ->
        scrollX w = 0 -> scrollY w = 0 -> inside_window w t l)
  /\ (innerHeight w - 8 <= scrollY w -> innerHeight w <= t)
  /\ (innerWidth w - 8 <= scrollX w -> innerWidth w <= l)
  /\ (menuH + 16 <= innerHeight w - bottom rect -> 0 <= bottom rect ->
        t = bottom rect + 8 + scrollY w)
  /\ (innerHeight w - bottom rect < menuH + 8 -> menuH + 16 <= top rect ->
        top rect <= innerHeight w ->
        t = top rect - menuH - 8 + scrollY w).
Proof.
  unfold place, clamp, inside_window, menuW, menuH.
  destruct (Z.ltb_spec (innerHeight w - bottom rect) (170 + 8)); repeat split; lia.
Qed.
End MenuFacts.

(** ** What a payment can be allocated to *)

Section PayableTargets.
Import Db Ledger.

Lemma elem_of_set alloc k num k' v' :
  (k', v') ∈ NewPayment.set alloc k num ->
  (k', v') ∈ alloc \/ (k' = k /\ v' = num).
Proof.
  induction alloc as [|[k0 v0] alloc IH]; cbn [NewPayment.set].
  - intros Hin. apply list_elem_of_singleton in Hin. right. by injection Hin.
  - destruct (eqs k0 k) eqn:Hk.
    + apply eqs_true in Hk as ->. intros Hin.
      apply elem_of_cons in Hin as [Hin|Hin].
      * right. by injection Hin.
      * left. by right.
    + intros Hin. apply elem_of_cons in Hin as [Hin|Hin].
      * left. rewrite Hin. left.
      * apply IH in Hin as [Hin|Hin]; [left; by right|by right].
Qed.

Lemma get_elem_of_alloc alloc k v : NewPayment.get alloc k = Some v -> (k, v) ∈ alloc.
Proof.
  induction alloc as [|[k0 v0] alloc IH]; cbn [NewPayment.get]; [done|].
  destruct (eqs k0 k) eqn:Hk.
  - apply eqs_true in Hk as ->. intros [= ->]. left.
  - intros H. right. by apply IH.
Qed.

Lemma byId_key_acc (invs : list NewPayment.Invoice)
    (m : gmap string NewPayment.Invoice) k inv :
  (forall k' inv', m !! k' = Some inv' -> NewPayment.id inv' = k') ->
  fold_left (fun m inv => <[NewPayment.id inv := inv]> m) invs m !! k = Some inv ->
  NewPayment.id inv = k.
Proof.
  revert m. induction invs as [|x invs IH]; intros m Hm H; simpl in H.
  - by apply Hm.
  - apply IH in H; [done|]. intros k' inv' Hl.
    destruct (decide (NewPayment.id x = k')) as [<-|Hne].
    + rewrite lookup_insert_eq in Hl. by injection Hl as <-.
    + rewrite lookup_insert_ne in Hl by done. by apply Hm.
Qed.

Lemma byId_key invs k inv :
  NewPayment.byId invs !! k = Some inv -> NewPayment.id inv = k.
Proof.
  apply byId_key_acc. intros k' inv' H. by rewrite lookup_empty in H.
Qed.

(** The balance the page holds for an invoice id: 0 for an id it did
    not load. *)
Lemma loaded_balance_source hotelId db k :
  0 < default 0 (NewPayment.balance <$>
                   NewPayment.byId (NewPayment.load_invoices hotelId db) !! k) ->
  exists r, r ∈ invoices db /\ inv_id r = k
            /\ NewPayment.payable hotelId r = true
            /\ inv_balance r
               = default 0 (NewPayment.balance <$>
                   NewPayment.byId (NewPayment.load_invoices hotelId db) !! k).
Proof.
  destruct (NewPayment.byId _ !! k) as [inv|] eqn:H; simpl; [|lia].
  intros _. pose proof (byId_key _ _ _ H) as Hk.
  apply byId_lookup in H. unfold NewPayment.load_invoices in H.
  apply list_elem_of_fmap in H as (r & -> & H).
  apply list_elem_of_filter in H as [Hp Hr]. by exists r.
Qed.

Lemma reachable_positive_loaded hotelId db alloc :
  NewPayment.reachable (NewPayment.load_invoices hotelId db) alloc ->
  forall k v, (k, v) ∈ alloc -> 0 < v ->
    0 < default 0 (NewPayment.balance <$>
                     NewPayment.byId (NewPayment.load_invoices hotelId db) !! k).
Proof.
  intros Hreach.
  induction Hreach as [|k0 value alloc Hr IH|alloc _ IH|watchAmount k0 alloc Hr IH];
    intros k v Hin Hpos.
  - by apply not_elem_of_nil in Hin.
  - unfold NewPayment.setAllocFor in Hin. cbv zeta in Hin.
    apply elem_of_set in Hin as [Hin|[-> ->]]; [by eapply IH|].
    set (bal := default 0 (NewPayment.balance <$> _ !! k0)) in *.
    destruct (Z.ltb_spec (default 0 value) 0);
      [destruct (Z.ltb_spec bal 0)|destruct (Z.ltb_spec bal (default 0 value))];
      lia.
  - by apply not_elem_of_nil in Hin.
  - unfold NewPayment.allocateRemainingTo in Hin. cbv zeta in Hin.
    set (bal := default 0 (NewPayment.balance <$> _ !! k0)) in *.
    destruct (Z.leb_spec (Z.max 0 (bal - default 0 (NewPayment.get alloc k0))) 0)
      as [Hroom|Hroom]; simpl in Hin; [by eapply IH|].
    destruct (NewPayment.remaining watchAmount alloc <=? 0); [by eapply IH|].
    apply elem_of_set in Hin as [Hin|[-> ->]]; [by eapply IH|].
    pose proof (reachable_nonneg _ _ _ Hr) as Hnn.
    assert (0 <= default 0 (NewPayment.get alloc k0)) as Hcur.
    { destruct (NewPayment.get alloc k0) as [c|] eqn:Hg; simpl; [|done].
      by apply (get_nonneg alloc k0). }
    lia.
Qed.

Lemma rows_target_payable hotelId db0 alloc new_id a :
  NewPayment.reachable (NewPayment.load_invoices hotelId db0) alloc ->
  a ∈ NewPayment.rows_of new_id alloc ->
  0 < al_amount a /\ al_payment_id a = new_id /\ al_deleted_at a = None
  /\ exists r, r ∈ invoices db0 /\ inv_id r = al_invoice_id a
               /\ NewPayment.payable hotelId r = true.
Proof.
  intros Hreach Ha. apply elem_of_rows_of in Ha as (k & v & Hin & Hpos & ->).
  simpl. repeat split; try done.
  pose proof (reachable_positive_loaded _ _ _ Hreach k v Hin Hpos) as Hbal.
  apply loaded_balance_source in Hbal as (r & Hr & Hid & Hp & _). by exists r.
Qed.

Lemma payable_fields hotelId r :
  NewPayment.payable hotelId r = true ->
  inv_deleted_at r = None /\ inv_status r <> "paid" /\ 0 < inv_balance r.
Proof.
  unfold NewPayment.payable. intros H.
  apply andb_true_iff in H as [H _]. apply andb_true_iff in H as [H Hb].
  apply andb_true_iff in H as [Hd Hs].
  repeat split.
  - by destruct (inv_deleted_at r).
  - by apply negb_true_iff, eqs_false in Hs.
  - by apply Z.ltb_lt.
Qed.

(** X5.  Whatever the user did on the payment page, every allocation row
    a submission inserts has a positive amount, belongs to the new
    payment, is live, and names an invoice that, when the page loaded,
    was not tombstoned, not paid, and had a positive stored balance. *)
Theorem allocations_target_payable hotelId db0 alloc new_id a :
  NewPayment.reachable (NewPayment.load_invoices hotelId db0) alloc ->
  a ∈ NewPayment.rows_of new_id alloc ->
  0 < al_amount a /\ al_payment_id a = new_id /\ al_deleted_at a = None
  /\ exists r, r ∈ invoices db0 /\ inv_id r = al_invoice_id a
               /\ inv_deleted_at r = None /\ inv_status r <> "paid"
               /\ 0 < inv_balance r.
Proof.
  intros Hreach Ha.
  destruct (rows_target_payable _ _ _ _ _ Hreach Ha)
    as (Hpos & Hp & Hl & r & Hr & Hid & Hpay).
  apply payable_fields in Hpay as (Hd & Hs & Hb).
  repeat split; try done. by exists r.
Qed.
End PayableTargets.

Section PayableScenario.
Import Db Ledger Scenario.

Lemma allocations_target_payable_witness :
  0 < al_amount (allocation "pay-9" "inv-B" (dollars 200))
  /\ al_payment_id (allocation "pay-9" "inv-B" (dollars 200)) = "pay-9"
  /\ al_deleted_at (allocation "pay-9" "inv-B" (dollars 200)) = None
  /\ exists r, r ∈ invoices db_B
               /\ inv_id r = al_invoice_id (allocation "pay-9" "inv-B" (dollars 200))
               /\ inv_deleted_at r = None /\ inv_status r <> "paid"
               /\ 0 < inv_balance r.
Proof.
  apply (allocations_target_payable None db_B alloc_B "pay-9").
  - apply NewPayment.reach_set, NewPayment.reach_empty.
  - vm_compute. left.
Defined.
End PayableScenario.

Section WithinBalance.
Import Db Ledger.

Lemma toFixed2_whole x : whole_cents x -> NewPayment.toFixed2 x = x.
Proof.
  unfold whole_cents, NewPayment.toFixed2. intros Hx.
  pose proof (Z.div_mod x 10000 ltac:(lia)) as Hd. rewrite Hx in Hd.
  pose proof (Z.div_mod (x + 5000) 10000 ltac:(lia)) as Hd'.
  pose proof (Z.mod_pos_bound (x + 5000) 10000 ltac:(lia)). lia.
Qed.

Lemma toFixed2_mono x y : x <= y -> NewPayment.toFixed2 x <= NewPayment.toFixed2 y.
Proof.
  intros Hxy. unfold NewPayment.toFixed2.
  apply Z.mul_le_mono_nonneg_r; [lia|]. apply Z.div_le_mono; lia.
Qed.

Lemma loaded_balance_whole hotelId db k :
  (forall r, r ∈ invoices db -> whole_cents (inv_balance r)) ->
  whole_cents (default 0 (NewPayment.balance <$>
                 NewPayment.byId (NewPayment.load_invoices hotelId db) !! k)).
Proof.
  intros Hall.
  pose proof (loaded_balance_nonneg hotelId db k) as Hnn.
  destruct (decide (0 < default 0 (NewPayment.balance <$>
                 NewPayment.byId (NewPayment.load_invoices hotelId db) !! k)))
    as [Hpos|Hz].
  - apply loaded_balance_source in Hpos as (r & Hr & _ & _ & <-). by apply Hall.
  - replace (default 0 _) with 0 by lia. reflexivity.
Qed.

Lemma reachable_within_loaded hotelId db alloc :
  (forall r, r ∈ invoices db -> whole_cents (inv_balance r)) ->
  NewPayment.reachable (NewPayment.load_invoices hotelId db) alloc ->
  forall k v, (k, v) ∈ alloc ->
    v <= default 0 (NewPayment.balance <$>
                      NewPayment.byId (NewPayment.load_invoices hotelId db) !! k).
Proof.
  intros Hall Hreach.
  induction Hreach as [|k0 value alloc Hr IH|alloc _ IH|watchAmount k0 alloc Hr IH];
    intros k v Hin.
  - by apply not_elem_of_nil in Hin.
  - unfold NewPayment.setAllocFor in Hin. cbv zeta in Hin.
    apply elem_of_set in Hin as [Hin|[-> ->]]; [by apply IH|].
    pose proof (loaded_balance_nonneg hotelId db k0) as Hnn.
    set (bal := default 0 (NewPayment.balance <$> _ !! k0)) in *.
    destruct (Z.ltb_spec (default 0 value) 0);
      [destruct (Z.ltb_spec bal 0)|destruct (Z.ltb_spec bal (default 0 value))];
      lia.
  - by apply not_elem_of_nil in Hin.
  - unfold NewPayment.allocateRemainingTo in Hin. cbv zeta in Hin.
    pose proof (loaded_balance_whole hotelId db k0 Hall) as Hwhole.
    set (bal := default 0 (NewPayment.balance <$> _ !! k0)) in *.
    destruct (_ || _); [by apply IH|].
    apply elem_of_set in Hin as [Hin|[-> ->]]; [by apply IH|].
    assert (default 0 (NewPayment.get alloc k0) <= bal) as Hcur.
    { destruct (NewPayment.get alloc k0) as [c|] eqn:Hg; simpl.
      - apply get_elem_of_alloc in Hg. by apply IH.
      - apply loaded_balance_nonneg. }
    transitivity (NewPayment.toFixed2 bal); [|by rewrite toFixed2_whole].
    apply toFixed2_mono. lia.
Qed.

(** X6.  When the balances stored are whole cents, no allocation row a
    submission inserts exceeds the balance the page loaded for its
    invoice, whatever the user typed and however often "Allocate
    remaining" was pressed. *)
Theorem allocations_within_balance hotelId db0 alloc new_id a :
  (forall r, r ∈ invoices db0 -> whole_cents (inv_balance r)) ->
  NewPayment.reachable (NewPayment.load_invoices hotelId db0) alloc ->
  a ∈ NewPayment.rows_of new_id alloc ->
  exists r, r ∈ invoices db0 /\ inv_id r = al_invoice_id a
            /\ inv_deleted_at r = None
            /\ al_amount a <= inv_balance r.
Proof.
  intros Hall Hreach Ha.
  apply elem_of_rows_of in Ha as (k & v & Hin & Hpos & ->). simpl.
  pose proof (reachable_positive_loaded _ _ _ Hreach k v Hin Hpos) as Hbal.
  pose proof (reachable_within_loaded _ _ _ Hall Hreach k v Hin) as Hle.
  apply loaded_balance_source in Hbal as (r & Hr & Hid & Hp & Heq).
  apply payable_fields in Hp as (Hd & _ & _).
  exists r. repeat split; try done. lia.
Qed.

(** X7.  A payment page that loads its invoices from the store as a
    successful voidInvoice left it does not offer the voided invoice:
    whatever the user does on that page, no allocation row it inserts
    names the invoice.  (A later updateTotal of the invoice changes the
    store, and a page loaded from that store is not covered.) *)
Theorem no_allocation_after_void fails row reason db hotelId alloc new_id a :
  succeeded (Invoices.voidInvoice fails row reason db).2 ->
  NewPayment.reachable
    (NewPayment.load_invoices hotelId (Invoices.voidInvoice fails row reason db).1)
    alloc ->
  a ∈ NewPayment.rows_of new_id alloc ->
  al_invoice_id a <> Invoices.id row.
Proof.
  intros Hok Hreach Ha Hid.
  destruct (rows_target_payable _ _ _ _ _ Hreach Ha)
    as (_ & _ & _ & r & Hr & Hrid & Hpay).
  apply payable_fields in Hpay as (Hd & _ & Hb).
  revert Hok Hr. unfold Invoices.voidInvoice.
  destruct reason as [|reason]; [done|].
  destruct (fails DeleteAllocations); [done|].
  destruct (fails UpdateInvoices); [done|].
  destruct (update_invoices _ _ _) as [db2 updated] eqn:Hu.
  destruct updated as [|u updated]; [done|]. intros _ Hr.
  assert (r ∈ invoices db2) as Hr2 by (by destruct (fails LogInvoiceEvent)).
  apply (f_equal fst) in Hu. simpl in Hu. subst db2. simpl in Hr2.
  apply list_elem_of_fmap in Hr2 as (j & -> & Hj).
  destruct (eqs (inv_id j) (Invoices.id row) && is_null (inv_deleted_at j))
    eqn:Hhit.
  - simpl in Hb. lia.
  - rewrite Hrid, Hid, Hd, eqs_refl in Hhit. done.
Qed.
End WithinBalance.

Section WithinBalanceScenario.
Import Db Ledger Scenario.

Lemma allocations_within_balance_witness :
  exists r, r ∈ invoices db_B
            /\ inv_id r = al_invoice_id (allocation "pay-9" "inv-B" (dollars 200))
            /\ inv_deleted_at r = None
            /\ al_amount (allocation "pay-9" "inv-B" (dollars 200)) <= inv_balance r.
Proof.
  apply (allocations_within_balance None db_B alloc_B "pay-9").
  - intros r Hr. apply list_elem_of_singleton in Hr as ->. reflexivity.
  - apply NewPayment.reach_set, NewPayment.reach_empty.
  - vm_compute. left.
Defined.
End WithinBalanceScenario.

Section AfterVoidScenario.
Import Db Ledger Scenario.

Lemma no_allocation_after_void_witness :
  al_invoice_id (allocation "pay-9" "inv-B" (dollars 200)) <> "inv-D".
Proof.
  apply (no_allocation_after_void no_faults (listed db_DB inv_D) (Answer "")
           db_DB None
           (NewPayment.setAllocFor
              (NewPayment.load_invoices None
                 (Invoices.voidInvoice no_faults (listed db_DB inv_D)
                    (Answer "") db_DB).1)
              "inv-B" (Some (dollars 200)) [])
           "pay-9").
  - exact I.
  - apply NewPayment.reach_set, NewPayment.reach_empty.
  - vm_compute. left.
Defined.

(** After the void the payment page lists the open invoice only, and
    what is typed for the voided one is stored as 0. *)
Example payment_page_after_void :
  let db' := (Invoices.voidInvoice no_faults (listed db_DB inv_D)
                (Answer "") db_DB).1 in
  (NewPayment.id <$> NewPayment.load_invoices None db') = ["inv-B"]
  /\ NewPayment.setAllocFor (NewPayment.load_invoices None db') "inv-D"
       (Some (dollars 100)) []
     = [("inv-D", 0)].
Proof. vm_compute. split; reflexivity. Qed.
End AfterVoidScenario.

(** ** How the operations on an invoice compose *)

Section Composition.
Import Db Ledger.

Lemma set_total_twice t b st i :
  Invoices.set_total t b st (Invoices.set_total t b st i)
  = Invoices.set_total t b st i.
Proof. reflexivity. Qed.

Lemma update_invoices_twice id f (l : list InvoiceRow) :
  (forall i, f (f i) = f i) ->
  (forall i, inv_id (f i) = inv_id i /\ inv_deleted_at (f i) = inv_deleted_at i) ->
  let g i := if eqs (inv_id i) id && is_null (inv_deleted_at i) then f i else i in
  g <$> (g <$> l) = g <$> l.
Proof.
  intros Hff Hkeep g. rewrite <- list_fmap_compose. apply list_fmap_ext.
  intros _ i _. unfold compose, g.
  destruct (eqs (inv_id i) id && is_null (inv_deleted_at i)) eqn:Hhit; [|by rewrite Hhit].
  destruct (Hkeep i) as [-> ->]. by rewrite Hhit, Hff.
Qed.

(** What [updateTotal] can have done to the store, whatever its
    outcome. *)
Lemma updateTotal_effect fails row ans db :
  let r := Invoices.updateTotal fails row ans db in
  allocations r.1 = allocations db /\ payments r.1 = payments db
  /\ (invoices r.1 = invoices db
      \/ exists newTotal,
           ans = Answer (Some newTotal)
           /\ invoices r.1
              = (fun i => if eqs (inv_id i) (Invoices.id row)
                             && is_null (inv_deleted_at i)
                          then Invoices.set_total newTotal
                                 (Z.max 0 (newTotal - paid_to_date db (Invoices.id row)))
                                 (Invoices.newStatus newTotal
                                    (paid_to_date db (Invoices.id row))) i
                          else i) <$> invoices db).
Proof.
  unfold Invoices.updateTotal.
  destruct ans as [|[newTotal|]]; [by auto| |by auto].
  destruct (newTotal <? 0); [by auto|].
  destruct (fails SelectAllocations); [by auto|].
  destruct (fails UpdateInvoices); [by auto|].
  fold (paid_to_date db (Invoices.id row)).
  destruct (update_invoices _ _ _) as [db1 updated] eqn:Hu.
  apply (f_equal fst) in Hu. simpl in Hu. subst db1.
  assert (forall o : Outcome, forall db2 : DB,
            allocations db2 = allocations db -> payments db2 = payments db ->
            invoices db2
            = (fun i => if eqs (inv_id i) (Invoices.id row)
                           && is_null (inv_deleted_at i)
                        then Invoices.set_total newTotal
                               (Z.max 0 (newTotal - paid_to_date db (Invoices.id row)))
                               (Invoices.newStatus newTotal
                                  (paid_to_date db (Invoices.id row))) i
                        else i) <$> invoices db ->
            allocations (db2, o).1 = allocations db
            /\ payments (db2, o).1 = payments db
            /\ (invoices (db2, o).1 = invoices db
                \/ exists t, Answer (Some newTotal) = Answer (Some t)
                     /\ invoices (db2, o).1
                        = (fun i => if eqs (inv_id i) (Invoices.id row)
                                       && is_null (inv_deleted_at i)
                                    then Invoices.set_total t
                                           (Z.max 0 (t - paid_to_date db (Invoices.id row)))
                                           (Invoices.newStatus t
                                              (paid_to_date db (Invoices.id row))) i
                                    else i) <$> invoices db)) as Hshape.
  { intros o db2 Ha Hp Hi. repeat split; try done. right. by exists newTotal. }
  destruct updated; [by apply Hshape|].
  destruct (fails LogInvoiceEvent); by apply Hshape.
Qed.

(** What an [updateTotal] that succeeded did. *)
Lemma updateTotal_done fails row ans db :
  succeeded (Invoices.updateTotal fails row ans db).2 ->
  exists newTotal,
    ans = Answer (Some newTotal)
    /\ invoices (Invoices.updateTotal fails row ans db).1
       = (fun i => if eqs (inv_id i) (Invoices.id row)
                      && is_null (inv_deleted_at i)
                   then Invoices.set_total newTotal
                          (Z.max 0 (newTotal - paid_to_date db (Invoices.id row)))
                          (Invoices.newStatus newTotal
                             (paid_to_date db (Invoices.id row))) i
                   else i) <$> invoices db.
Proof.
  unfold Invoices.updateTotal.
  destruct ans as [|[newTotal|]]; [done| |done].
  destruct (newTotal <? 0); [done|].
  destruct (fails SelectAllocations); [done|].
  destruct (fails UpdateInvoices); [done|].
  fold (paid_to_date db (Invoices.id row)).
  destruct (update_invoices _ _ _) as [db1 updated] eqn:Hu.
  apply (f_equal fst) in Hu. simpl in Hu. subst db1.
  destruct updated; [done|]. intros _. exists newTotal. split; [done|].
  by destruct (fails LogInvoiceEvent).
Qed.

(** X8.  After an [updateTotal] that succeeded, running [updateTotal] on
    the invoice again with the same answer changes no invoice,
    allocation or payment, whichever calls to the store fail the second
    time: at most the audit trail grows. *)
Theorem updateTotal_twice fails fails' row row' ans db :
  succeeded (Invoices.updateTotal fails row ans db).2 ->
  Invoices.id row' = Invoices.id row ->
  let once := (Invoices.updateTotal fails row ans db).1 in
  let twice := (Invoices.updateTotal fails' row' ans once).1 in
  invoices twice = invoices once
  /\ allocations twice = allocations once
  /\ payments twice = payments once.
Proof.
  intros Hok Hrow once twice.
  destruct (updateTotal_done _ _ _ _ Hok) as (newTotal & -> & Hinv).
  destruct (updateTotal_effect fails row (Answer (Some newTotal)) db)
    as (Ha & Hp & _).
  destruct (updateTotal_effect fails' row' (Answer (Some newTotal)) once)
    as (Ha' & Hp' & Hi').
  fold twice in Ha', Hp', Hi'. fold once in Ha, Hp, Hinv.
  split; [|by split].
  destruct Hi' as [Hsame|(t & [= <-] & Hi')]; [done|].
  rewrite Hi', Hrow.
  assert (paid_to_date once (Invoices.id row) = paid_to_date db (Invoices.id row))
    as -> by (unfold paid_to_date, active_amounts; by rewrite Ha).
  rewrite Hinv. by apply update_invoices_twice.
Qed.

(** What [voidInvoice] can have done to the store, whatever its
    outcome. *)
Lemma voidInvoice_effect fails row reason db :
  let r := Invoices.voidInvoice fails row reason db in
  payments r.1 = payments db
  /\ (allocations r.1 = allocations db
      \/ allocations r.1
         = filter (fun a => al_invoice_id a <> Invoices.id row) (allocations db))
  /\ (invoices r.1 = invoices db
      \/ invoices r.1
         = (fun i => if eqs (inv_id i) (Invoices.id row)
                        && is_null (inv_deleted_at i)
                     then Invoices.set_void i else i) <$> invoices db).
Proof.
  unfold Invoices.voidInvoice.
  destruct reason as [|reason]; [by auto|].
  destruct (fails DeleteAllocations); [by auto|].
  destruct (fails UpdateInvoices).
  { simpl. rewrite kept_allocations. by auto. }
  destruct (update_invoices _ _ _) as [db2 updated] eqn:Hu.
  apply (f_equal fst) in Hu. simpl in Hu. subst db2.
  destruct updated; simpl; [rewrite kept_allocations; by auto|].
  destruct (fails LogInvoiceEvent); simpl; rewrite kept_allocations; by auto.
Qed.

(** What a [voidInvoice] that succeeded did. *)
Lemma voidInvoice_done fails row reason db :
  succeeded (Invoices.voidInvoice fails row reason db).2 ->
  allocations (Invoices.voidInvoice fails row reason db).1
  = filter (fun a => al_invoice_id a <> Invoices.id row) (allocations db)
  /\ invoices (Invoices.voidInvoice fails row reason db).1
     = (fun i => if eqs (inv_id i) (Invoices.id row)
                    && is_null (inv_deleted_at i)
                 then Invoices.set_void i else i) <$> invoices db.
Proof.
  unfold Invoices.voidInvoice.
  destruct reason as [|reason]; [done|].
  destruct (fails DeleteAllocations); [done|].
  destruct (fails UpdateInvoices); [done|].
  destruct (update_invoices _ _ _) as [db2 updated] eqn:Hu.
  apply (f_equal fst) in Hu. simpl in Hu. subst db2.
  destruct updated; [done|]. intros _.
  destruct (fails LogInvoiceEvent); simpl; by rewrite kept_allocations.
Qed.

(** X9.  After a [voidInvoice] that succeeded, running [voidInvoice] on
    the invoice again changes no invoice, allocation or payment,
    whatever is answered and whichever calls to the store fail the
    second time. *)
Theorem voidInvoice_twice fails fails' row row' reason again db :
  succeeded (Invoices.voidInvoice fails row reason db).2 ->
  Invoices.id row' = Invoices.id row ->
  let once := (Invoices.voidInvoice fails row reason db).1 in
  let twice := (Invoices.voidInvoice fails' row' again once).1 in
  invoices twice = invoices once
  /\ allocations twice = allocations once
  /\ payments twice = payments once.
Proof.
  intros Hok Hrow once twice.
  destruct (voidInvoice_done _ _ _ _ Hok) as (Ha & Hi).
  destruct (voidInvoice_effect fails' row' again once) as (Hp' & Ha' & Hi').
  fold once in Ha, Hi. fold twice in Hp', Ha', Hi'. rewrite Hrow in Ha', Hi'.
  split; [|split; [|done]].
  - destruct Hi' as [Hsame|Hi']; [done|].
    rewrite Hi', Hi. by apply update_invoices_twice.
  - destruct Ha' as [Hsame|Ha']; [done|].
    rewrite Ha', Ha, filter_filter_and. apply list_filter_iff. tauto.
Qed.

(** X10.  Voiding does not keep what had been paid: when the total of a
    voided invoice is set again to a positive amount, the invoice comes
    back open with the whole new total as its balance, and it has no
    allocation. *)
Theorem updateTotal_after_void fails row row' reason newTotal db inv :
  reliable fails ->
  inv ∈ invoices db -> inv_id inv = Invoices.id row ->
  inv_deleted_at inv = None ->
  Invoices.id row' = Invoices.id row -> 0 < newTotal ->
  let voided := (Invoices.voidInvoice fails row (Answer reason) db).1 in
  let r := Invoices.updateTotal fails row' (Answer (Some newTotal)) voided in
  r.2 = Succeeded "Total updated"
  /\ invoices r.1
     = (fun i => if eqs (inv_id i) (Invoices.id row)
                    && is_null (inv_deleted_at i)
                 then Invoices.set_total newTotal newTotal "open" i else i)
       <$> invoices db
  /\ (forall a, a ∈ allocations r.1 -> al_invoice_id a <> Invoices.id row)
  /\ payments r.1 = payments db.
Proof.
  intros Hrel Hin Hid Hlive Hrow Hpos. cbv zeta.
  rewrite voidInvoice_run; try apply Hrel.
  2:{ by apply (update_invoices_hit _ _ _ inv). }
  cbn [fst].
  set (db1 := delete_allocations _ db).
  set (db2 := (update_invoices (Invoices.id row) Invoices.set_void db1).1).
  set (db3 := log_invoice_event _ _ _ _ db2).
  assert (paid_to_date db3 (Invoices.id row') = 0) as Hpaid.
  { rewrite Hrow. unfold paid_to_date.
    change (active_amounts db3 (Invoices.id row))
      with (active_amounts db1 (Invoices.id row)).
    subst db1. by rewrite active_amounts_delete_same. }
  assert (Invoices.set_void inv ∈ invoices db3) as Hin3.
  { change (invoices db3)
      with ((fun i => if eqs (inv_id i) (Invoices.id row)
                         && is_null (inv_deleted_at i)
                      then Invoices.set_void i else i) <$> invoices db).
    apply list_elem_of_fmap. exists inv. split; [|done].
    rewrite Hlive. simpl. rewrite andb_true_r.
    by rewrite (proj2 (eqs_true _ _) Hid). }
  rewrite updateTotal_run; try apply Hrel; [|lia|].
  2:{ apply (update_invoices_hit _ _ _ (Invoices.set_void inv));
        [done|by rewrite Hrow|done]. }
  rewrite Hpaid, Hrow.
  assert (Invoices.newStatus newTotal 0 = "open") as ->.
  { unfold Invoices.newStatus.
    destruct (Z.eqb_spec newTotal 0); [lia|done]. }
  replace (Z.max 0 (newTotal - 0)) with newTotal by lia.
  split; [done|]. split; [|split].
  - cbn [fst]. simpl. rewrite <- list_fmap_compose. apply list_fmap_ext.
    intros _ i _. unfold compose.
    destruct (eqs (inv_id i) (Invoices.id row) && is_null (inv_deleted_at i))
      eqn:Hhit; [|by rewrite Hhit].
    change (inv_id (Invoices.set_void i)) with (inv_id i).
    change (inv_deleted_at (Invoices.set_void i)) with (inv_deleted_at i).
    by rewrite Hhit.
  - cbn [fst]. simpl. intros a Ha.
    apply list_elem_of_filter in Ha as [Ha _].
    by apply negb_true_iff, eqs_false in Ha.
  - done.
Qed.
End Composition.

Section CompositionScenario.
Import Db Ledger Scenario.

Lemma updateTotal_twice_witness :
  let once := (Invoices.updateTotal no_faults (listed db_E inv_E)
                 (Answer (Some (dollars 300))) db_E).1 in
  let twice := (Invoices.updateTotal allocations_refused (listed db_E inv_E)
                  (Answer (Some (dollars 300))) once).1 in
  invoices twice = invoices once
  /\ allocations twice = allocations once
  /\ payments twice = payments once.
Proof.
  apply (updateTotal_twice no_faults allocations_refused (listed db_E inv_E)
           (listed db_E inv_E) (Answer (Some (dollars 300))) db_E).
  - vm_compute. exact I.
  - reflexivity.
Defined.

Lemma voidInvoice_twice_witness :
  let once := (Invoices.voidInvoice no_faults (listed db_D inv_D)
                 (Answer "") db_D).1 in
  let twice := (Invoices.voidInvoice allocations_refused (listed db_D inv_D)
                  (Answer "again") once).1 in
  invoices twice = invoices once
  /\ allocations twice = allocations once
  /\ payments twice = payments once.
Proof.
  apply (voidInvoice_twice no_faults allocations_refused (listed db_D inv_D)
           (listed db_D inv_D) (Answer "") (Answer "again") db_D).
  - vm_compute. exact I.
  - reflexivity.
Defined.

Lemma updateTotal_after_void_witness :
  let voided := (Invoices.voidInvoice no_faults (listed db_D inv_D)
                   (Answer "") db_D).1 in
  let r := Invoices.updateTotal no_faults (listed db_D inv_D)
             (Answer (Some (dollars 500))) voided in
  r.2 = Succeeded "Total updated"
  /\ invoices r.1
     = (fun i => if eqs (inv_id i) "inv-D" && is_null (inv_deleted_at i)
                 then Invoices.set_total (dollars 500) (dollars 500) "open" i
                 else i)
       <$> invoices db_D
  /\ (forall a, a ∈ allocations r.1 -> al_invoice_id a <> "inv-D")
  /\ payments r.1 = payments db_D.
Proof.
  apply (updateTotal_after_void no_faults (listed db_D inv_D)
           (listed db_D inv_D) "" (dollars 500) db_D inv_D);
    [exact (fun _ => eq_refl)|left|reflexivity|reflexivity|reflexivity|
     reflexivity].
Defined.
End CompositionScenario.

(** ** "Allocate remaining" *)

Section AllocateRemaining.
Import Db.

Lemma whole_cents_add x y : whole_cents x -> whole_cents y -> whole_cents (x + y).
Proof.
  unfold whole_cents. intros Hx Hy.
  rewrite Z.add_mod by lia. by rewrite Hx, Hy.
Qed.

Lemma whole_cents_sub x y : whole_cents x -> whole_cents y -> whole_cents (x - y).
Proof.
  unfold whole_cents. intros Hx Hy.
  rewrite Zminus_mod. by rewrite Hx, Hy.
Qed.

Lemma whole_cents_min x y : whole_cents x -> whole_cents y -> whole_cents (Z.min x y).
Proof. intros Hx Hy. by destruct (Z.min_spec x y) as [[_ ->]|[_ ->]]. Qed.

Lemma whole_cents_max x y : whole_cents x -> whole_cents y -> whole_cents (Z.max x y).
Proof. intros Hx Hy. by destruct (Z.max_spec x y) as [[_ ->]|[_ ->]]. Qed.

Lemma allocatedTotal_whole alloc :
  Forall (fun e => whole_cents e.2) alloc ->
  whole_cents (NewPayment.allocatedTotal alloc).
Proof.
  unfold NewPayment.allocatedTotal.
  induction 1 as [|[k v] alloc Hv _ IH]; [done|].
  rewrite fmap_cons, sum_cons. by apply whole_cents_add.
Qed.

Lemma get_whole alloc k :
  Forall (fun e => whole_cents e.2) alloc ->
  whole_cents (default 0 (NewPayment.get alloc k)).
Proof.
  induction 1 as [|[k' v] alloc Hv _ IH]; [done|]. simpl.
  by destruct (eqs k' k).
Qed.

Lemma get_set_other alloc k k' v :
  k' <> k -> NewPayment.get (NewPayment.set alloc k v) k' = NewPayment.get alloc k'.
Proof.
  intros Hne. induction alloc as [|[k0 v0] alloc IH]; simpl.
  - by rewrite (proj2 (eqs_false k k')).
  - destruct (eqs k0 k) eqn:Hk; simpl; [|by rewrite IH].
    apply eqs_true in Hk. subst k0.
    by rewrite (proj2 (eqs_false k k')).
Qed.

Lemma allocatedTotal_set alloc k v :
  NewPayment.allocatedTotal (NewPayment.set alloc k v)
  = NewPayment.allocatedTotal alloc - default 0 (NewPayment.get alloc k) + v.
Proof.
  unfold NewPayment.allocatedTotal.
  induction alloc as [|[k0 v0] alloc IH];
    cbn [NewPayment.set NewPayment.get].
  - rewrite fmap_cons, sum_cons, fmap_nil, sum_nil. cbn [snd from_option id]. lia.
  - destruct (eqs k0 k); rewrite !fmap_cons, !sum_cons; cbn [snd from_option id];
      [lia|].
    rewrite IH. lia.
Qed.

(** X11.  "Allocate remaining", with amounts in whole cents of at most
    a billion dollars, at most a thousand entries, none negative, the
    invoice's entry within its balance and no more entered than the
    payment: the invoice's entry becomes what it was plus what is left
    of the payment, up to the invoice's balance; no other entry changes;
    and the allocation rows a submission would now insert add up, as
    the store holds them, to no more than the payment. *)
Theorem allocateRemainingTo_fills invoices watchAmount k alloc new_id :
  Forall (fun e => whole_cents e.2) alloc ->
  NewPayment.nonneg alloc -> (length alloc <= 1000)%nat ->
  whole_cents watchAmount -> watchAmount <= dollars 1000000000 ->
  whole_cents (default 0 (NewPayment.balance <$> NewPayment.byId invoices !! k)) ->
  default 0 (NewPayment.balance <$> NewPayment.byId invoices !! k)
  <= dollars 1000000000 ->
  NewPayment.allocatedTotal alloc <= watchAmount ->
  default 0 (NewPayment.get alloc k)
  <= default 0 (NewPayment.balance <$> NewPayment.byId invoices !! k) ->
  let bal := default 0 (NewPayment.balance <$> NewPayment.byId invoices !! k) in
  let current := default 0 (NewPayment.get alloc k) in
  let alloc' := NewPayment.allocateRemainingTo invoices watchAmount k alloc in
  default 0 (NewPayment.get alloc' k)
  = Z.min bal (current + (watchAmount - NewPayment.allocatedTotal alloc))
  /\ (forall k', k' <> k -> NewPayment.get alloc' k' = NewPayment.get alloc k')
  /\ sum (al_amount <$> NewPayment.rows_of new_id alloc') <= watchAmount.
Proof.
  intros Hw Hnn _ Hwa _ Hwb _ Hle Hcur bal current alloc'.
  assert (0 <= current) as Hcur0.
  { subst current. destruct (NewPayment.get alloc k) as [v|] eqn:Hg; [|done].
    by apply (get_nonneg alloc k v). }
  assert (NewPayment.nonneg alloc'
          /\ default 0 (NewPayment.get alloc' k)
             = Z.min bal (current + (watchAmount - NewPayment.allocatedTotal alloc))
          /\ NewPayment.allocatedTotal alloc' <= watchAmount
          /\ (forall k', k' <> k ->
                NewPayment.get alloc' k' = NewPayment.get alloc k'))
    as (Hnn' & Hnew & Htot & Hother).
  { subst alloc'.
    unfold NewPayment.allocateRemainingTo, NewPayment.remaining. fold bal current.
    cbv zeta.
    pose proof (get_whole alloc k Hw) as Hwc. fold current in Hwc.
    pose proof (allocatedTotal_whole alloc Hw) as Hwt.
    fold bal in Hwb, Hcur. fold current in Hcur.
    destruct (Z.leb_spec (Z.max 0 (bal - current)) 0) as [Hroom|Hroom]; simpl.
    { fold current. repeat split; try done; lia. }
    destruct (Z.leb_spec (Z.max 0 (watchAmount - NewPayment.allocatedTotal alloc)) 0)
      as [Hrem|Hrem].
    { fold current. repeat split; try done; lia. }
    rewrite toFixed2_whole.
    2:{ apply whole_cents_add; [done|].
        apply whole_cents_min; apply whole_cents_max; try done;
          by apply whole_cents_sub. }
    rewrite get_set_same, allocatedTotal_set. fold current. simpl.
    split; [apply set_nonneg; [done|lia]|].
    repeat split; try lia.
    intros k' Hne. by apply get_set_other. }
  split; [done|]. split; [done|].
  by rewrite rows_of_total.
Qed.
End AllocateRemaining.

Section AllocateRemainingScenario.
Import Db Ledger Scenario.

Lemma allocateRemainingTo_fills_witness :
  let invs := NewPayment.load_invoices None db_DB in
  let alloc := [("inv-B", cents 10)] in
  let alloc' := NewPayment.allocateRemainingTo invs (cents 30) "inv-D" alloc in
  default 0 (NewPayment.get alloc' "inv-D")
  = Z.min (default 0 (NewPayment.balance <$> NewPayment.byId invs !! "inv-D"))
          (default 0 (NewPayment.get alloc "inv-D")
           + (cents 30 - NewPayment.allocatedTotal alloc))
  /\ (forall k', k' <> "inv-D" ->
        NewPayment.get alloc' k' = NewPayment.get alloc k')
  /\ sum (al_amount <$> NewPayment.rows_of "pay-9" alloc') <= cents 30.
Proof.
  apply (allocateRemainingTo_fills (NewPayment.load_invoices None db_DB)
           (cents 30) "inv-D" [("inv-B", cents 10)] "pay-9").
  - repeat constructor.
  - repeat constructor. vm_compute. discriminate.
  - simpl. lia.
  - reflexivity.
  - vm_compute. discriminate.
  - vm_compute. reflexivity.
  - vm_compute. discriminate.
  - vm_compute. discriminate.
  - vm_compute. discriminate.
Defined.

(** Of a payment of 0.30, 0.10 is entered for [inv-B]; "Allocate
    remaining" then enters 0.20 for [inv-D]. *)
Example allocate_remaining_of_thirty_cents :
  NewPayment.allocateRemainingTo (NewPayment.load_invoices None db_DB)
    (cents 30) "inv-D" [("inv-B", cents 10)]
  = [("inv-B", cents 10); ("inv-D", cents 20)].
Proof. vm_compute. reflexivity. Qed.

(** The payment of 200.00 fills the 150.00 still open on [inv-D]; the
    50.00 left then go to [inv-B]. *)
Example allocate_remaining_in_turn :
  let invs := NewPayment.load_invoices None db_DB in
  let first := NewPayment.allocateRemainingTo invs (dollars 200) "inv-D" [] in
  let second := NewPayment.allocateRemainingTo invs (dollars 200) "inv-B" first in
  first = [("inv-D", dollars 150)]
  /\ second = [("inv-D", dollars 150); ("inv-B", dollars 50)]
  /\ NewPayment.allocateRemainingTo invs (dollars 200) "inv-B" second = second.
Proof. vm_compute. repeat split; reflexivity. Qed.
End AllocateRemainingScenario.

(** ** The payments listing *)

Section PaymentsListing.
Import Db PaymentsView.

Lemma truthy_spec (s : option string) :
  truthy s = true <-> exists t, s = Some t /\ t <> "".
Proof.
  destruct s as [t|]; simpl.
  - rewrite negb_true_iff, eqs_false. split; [by exists t|by intros (? & [= <-] & ?)].
  - split; [done|by intros (? & ? & _)].
Qed.

Lemma in_active_hotel_spec (hotels : list Hotel) (a : Allocation) :
  in_active_hotel (activeHotelIds hotels) a = true
  <-> exists h, invoice_hotel_id a = Some h /\ h <> ""
                /\ exists x, x ∈ hotels /\ hotel_id x = h.
Proof.
  unfold in_active_hotel, activeHotelIds.
  rewrite andb_true_iff, truthy_spec, bool_decide_eq_true, elem_of_list_to_set,
    list_elem_of_fmap.
  split.
  - intros [(h & Hh & Hne) (x & Hx & Hin)]. rewrite Hh in Hx. simpl in Hx.
    exists h. repeat split; try done. by exists x.
  - intros (h & Hh & Hne & x & Hin & Hx). rewrite Hh. simpl.
    split; [by exists h|by exists x].
Qed.

Lemma applied_acc (allocs : list Allocation) active (m : gmap string Z) p :
  default 0 (fold_left
               (fun map a =>
                  if in_active_hotel active a
                  then <[payment_id a := default 0 (map !! payment_id a) + amount a]> map
                  else map)
               allocs m !! p)
  = default 0 (m !! p) + sum (amount <$> filter (counts_for active p) allocs).
Proof.
  revert m. induction allocs as [|a allocs IH]; intros m; cbn [fold_left].
  - rewrite filter_nil, fmap_nil, sum_nil. lia.
  - rewrite IH, filter_cons.
    destruct (decide (counts_for active p a)) as [[<- Hact]|Hno].
    + rewrite Hact, lookup_insert_eq, fmap_cons, sum_cons. simpl. lia.
    + destruct (in_active_hotel active a) eqn:Hact; [|done].
      rewrite lookup_insert_ne; [done|]. intros Hp. by apply Hno.
Qed.

(** X12.  The amount the payments page shows as applied for a payment is
    the sum of the payment's allocations whose invoice is in a hotel of
    the hotel list; an allocation to an invoice with no hotel, or with
    a hotel that is not in the list, is not counted. *)
Theorem applied_by_payment (allocs : list Allocation) (hotels : list Hotel)
    (r : PaymentRow) :
  let active := activeHotelIds hotels in
  applied_of (appliedByPayment allocs active) r
  = sum (amount <$> filter (counts_for active (pay_id r)) allocs)
  /\ (forall a, counts_for active (pay_id r) a
        <-> payment_id a = pay_id r
            /\ exists h, invoice_hotel_id a = Some h /\ h <> ""
                         /\ exists x, x ∈ hotels /\ hotel_id x = h).
Proof.
  intros active. split.
  - unfold applied_of, appliedByPayment. rewrite applied_acc, lookup_empty.
    simpl. lia.
  - intros a. unfold counts_for. subst active.
    by rewrite in_active_hotel_spec.
Qed.

Lemma payments_summary_acc (rows : list PaymentRow) applied (s0 : Summary) :
  let s := fold_left
    (fun s r =>
       {| s_amount := s_amount s + pay_amount r;
          s_applied := s_applied s + applied_of applied r;
          s_unapplied :=
            s_unapplied s + Z.max 0 (pay_amount r - applied_of applied r) |})
    rows s0 in
  s_amount s = s_amount s0 + sum (pay_amount <$> rows)
  /\ s_applied s = s_applied s0 + sum (applied_of applied <$> rows)
  /\ s_unapplied s
     = s_unapplied s0
       + sum ((fun r => Z.max 0 (pay_amount r - applied_of applied r)) <$> rows).
Proof.
  revert s0. induction rows as [|r rows IH]; intros s0; cbv zeta; cbn [fold_left].
  - rewrite !fmap_nil, sum_nil. lia.
  - destruct (IH {| s_amount := s_amount s0 + pay_amount r;
                    s_applied := s_applied s0 + applied_of applied r;
                    s_unapplied :=
                      s_unapplied s0
                      + Z.max 0 (pay_amount r - applied_of applied r) |})
      as (Ha & Hp & Hu).
    rewrite Ha, Hp, Hu, !fmap_cons, !sum_cons.
    cbn [s_amount s_applied s_unapplied]. lia.
Qed.

Lemma sum_unapplied_bounds (rows : list PaymentRow) applied :
  let u := sum ((fun r => Z.max 0 (pay_amount r - applied_of applied r)) <$> rows) in
  0 <= u
  /\ sum (pay_amount <$> rows) - sum (applied_of applied <$> rows) <= u
  /\ (Forall (fun r => applied_of applied r <= pay_amount r) rows ->
        u = sum (pay_amount <$> rows) - sum (applied_of applied <$> rows)).
Proof.
  cbv zeta. induction rows as [|r rows (IH0 & IH1 & IH2)].
  - rewrite !fmap_nil, sum_nil. repeat split; lia.
  - rewrite !fmap_cons, !sum_cons. repeat split; try lia.
    intros Hall. apply Forall_cons in Hall as [Hr Hall].
    specialize (IH2 Hall). lia.
Qed.

Lemma length_split {A} (P Q : A -> Prop) `{!forall a, Decision (P a)}
    `{!forall a, Decision (Q a)} (l : list A) :
  (forall a, P a <-> ~ Q a) ->
  (length (filter P l) + length (filter Q l))%nat = length l.
Proof.
  intros HPQ. induction l as [|x l IH]; [done|].
  rewrite !filter_cons.
  destruct (decide (P x)) as [HP|HP], (decide (Q x)) as [HQ|HQ];
    cbn [length]; try lia.
  - by apply HPQ in HP.
  - exfalso. apply HP, HPQ, HQ.
Qed.

(** X13.  Under the payments listing, the amount and the applied sum are
    the sums over the rows shown, and the unapplied sum adds
    max(0, amount - applied) row by row: it is never negative and never
    less than amount minus applied, and it is amount minus applied
    exactly when no row has more applied than its amount.  The rows
    shown are counted, and so are those with something applied; every
    row is counted once, as with allocations or as unallocated. *)
Theorem payments_summary (rows : list PaymentRow) (applied : gmap string Z) :
  let s := summary rows applied in
  let c := counts rows applied in
  s_amount s = sum (pay_amount <$> rows)
  /\ s_applied s = sum (applied_of applied <$> rows)
  /\ s_unapplied s
     = sum ((fun r => Z.max 0 (pay_amount r - applied_of applied r)) <$> rows)
  /\ 0 <= s_unapplied s
  /\ s_amount s - s_applied s <= s_unapplied s
  /\ (Forall (fun r => applied_of applied r <= pay_amount r) rows ->
        s_unapplied s = s_amount s - s_applied s)
  /\ c_payments c = Z.of_nat (length rows)
  /\ c_withAlloc c
     = Z.of_nat (length (filter (fun r => 0 < applied_of applied r) rows))
  /\ c_withAlloc c + c_unallocated c = c_payments c.
Proof.
  intros s c. subst s c. unfold summary.
  destruct (payments_summary_acc rows applied
              {| s_amount := 0; s_applied := 0; s_unapplied := 0 |})
    as (Ha & Hp & Hu).
  cbn [s_amount s_applied s_unapplied] in Ha, Hp, Hu.
  destruct (sum_unapplied_bounds rows applied) as (Hb0 & Hb1 & Hb2).
  rewrite Ha, Hp, Hu, !Z.add_0_l.
  repeat split; try done.
  - unfold counts. cbn [c_withAlloc]. do 2 f_equal.
    apply list_filter_iff. intros r. apply Z.ltb_lt.
  - unfold counts. cbn [c_payments c_withAlloc c_unallocated].
    rewrite <- Nat2Z.inj_add. f_equal.
    apply length_split. intros r.
    rewrite Z.ltb_lt, Z.leb_le. lia.
Qed.

Lemma index_step_lookup active (m : gmap string Entry) (a : Allocation) p :
  let m' := index_step active m a in
  (is_Some (m' !! p) <-> is_Some (m !! p) \/ counts_for active p a)
  /\ (forall c, c ∈ companies (default no_entry (m' !! p))
        <-> c ∈ companies (default no_entry (m !! p))
            \/ (counts_for active p a
                /\ invoice_company_id a = Some c /\ c <> ""))
  /\ (forall h, h ∈ hotels (default no_entry (m' !! p))
        <-> h ∈ hotels (default no_entry (m !! p))
            \/ (counts_for active p a /\ invoice_hotel_id a = Some h)).
Proof.
  cbv zeta. unfold index_step.
  destruct (in_active_hotel active a) eqn:Hact; cbn [negb].
  2:{ assert (~ counts_for active p a) as Hno by (intros [_ ?]; congruence).
      repeat split; try tauto; try (intros; by left). }
  pose proof Hact as Hact'. unfold in_active_hotel in Hact'.
  apply andb_true_iff in Hact' as [Hth _]. rewrite Hth.
  apply truthy_spec in Hth as (h0 & Hh0 & Hh0ne).
  destruct (decide (payment_id a = p)) as [Hp|Hp].
  2:{ rewrite lookup_insert_ne by done.
      assert (~ counts_for active p a) as Hno by (intros [? _]; done).
      repeat split; try tauto; try (intros; by left). }
  subst p. rewrite lookup_insert_eq. cbn [default from_option id].
  assert (counts_for active (payment_id a) a) as Hc by done.
  set (e := from_option id no_entry (m !! payment_id a)).
  split; [|split].
  - split; [by right|done].
  - intros c. cbn [companies].
    destruct (truthy (invoice_company_id a)) eqn:Htc; cbn [companies].
    + apply truthy_spec in Htc as (c0 & Hc0 & Hc0ne). rewrite Hc0.
      cbn [from_option id]. rewrite elem_of_union, elem_of_singleton.
      split.
      * intros [->|Hin]; [by right|by left].
      * intros [Hin|(_ & [= ->] & _)]; [by right|by left].
    + split; [by left|]. intros [Hin|(_ & Hd & Hne)]; [done|].
      rewrite Hd in Htc. simpl in Htc.
      by apply negb_false_iff, eqs_true in Htc.
  - intros h. cbn [hotels]. rewrite Hh0. cbn [from_option id].
    rewrite elem_of_union, elem_of_singleton.
    assert (hotels (if truthy (invoice_company_id a)
                    then {| companies :=
                              {[ from_option id "" (invoice_company_id a) ]}
                              ∪ companies e;
                            hotels := hotels e |}
                    else e) = hotels e) as ->
      by (by destruct (truthy (invoice_company_id a))).
    split.
    + intros [->|Hin]; [by right|by left].
    + intros [Hin|(_ & [= ->])]; [by right|by left].
Qed.

Lemma index_acc (allocs : list Allocation) active (m : gmap string Entry) p :
  let m' := fold_left (index_step active) allocs m in
  (is_Some (m' !! p)
   <-> is_Some (m !! p) \/ exists a, a ∈ allocs /\ counts_for active p a)
  /\ (forall c, c ∈ companies (default no_entry (m' !! p))
        <-> c ∈ companies (default no_entry (m !! p))
            \/ exists a, a ∈ allocs /\ counts_for active p a
                         /\ invoice_company_id a = Some c /\ c <> "")
  /\ (forall h, h ∈ hotels (default no_entry (m' !! p))
        <-> h ∈ hotels (default no_entry (m !! p))
            \/ exists a, a ∈ allocs /\ counts_for active p a
                         /\ invoice_hotel_id a = Some h).
Proof.
  revert m. induction allocs as [|a allocs IH]; intros m; cbv zeta;
    cbn [fold_left].
  - repeat split; try tauto;
      intros [?|(a & Ha & _)]; try done; by apply not_elem_of_nil in Ha.
  - destruct (IH (index_step active m a)) as (IH1 & IH2 & IH3).
    destruct (index_step_lookup active m a p) as (S1 & S2 & S3).
    split; [|split].
    + rewrite IH1, S1. setoid_rewrite elem_of_cons. clear.
      split.
      * intros [[?|?]|(b & ? & ?)]; [by left|right; exists a; auto|].
        right. exists b. auto.
      * intros [?|(b & [->|?] & ?)]; [by left; left|by left; right|].
        right. by exists b.
    + intros c. rewrite IH2, S2. setoid_rewrite elem_of_cons. clear.
      split.
      * intros [[?|?]|(b & ? & ?)]; [by left|right; exists a; auto|].
        right. exists b. auto.
      * intros [?|(b & [->|?] & ?)]; [by left; left|by left; right|].
        right. by exists b.
    + intros h. rewrite IH3, S3. setoid_rewrite elem_of_cons. clear.
      split.
      * intros [[?|?]|(b & ? & ?)]; [by left|right; exists a; auto|].
        right. exists b. auto.
      * intros [?|(b & [->|?] & ?)]; [by left; left|by left; right|].
        right. by exists b.
Qed.

(** X14.  With no company and no hotel chosen the payments page shows
    every payment it loaded.  With a company or a hotel chosen it shows a
    payment only if the payment has an allocation the page counts, one of
    them to an invoice of the chosen company and one of them to an
    invoice of the chosen hotel; a payment without allocations is then
    not shown. *)
Theorem filteredRows_shows (rows : list PaymentRow) (allocs : list Allocation)
    (active : gset string) (companyId hotelId : option string) (r : PaymentRow) :
  r ∈ filteredRows rows (indexByPayment allocs active) companyId hotelId
  <-> r ∈ rows
      /\ ((companyId = None /\ hotelId = None)
          \/ ((exists a, a ∈ allocs /\ counts_for active (pay_id r) a)
              /\ (forall c, companyId = Some c ->
                    exists a, a ∈ allocs /\ counts_for active (pay_id r) a
                              /\ invoice_company_id a = Some c /\ c <> "")
              /\ (forall h, hotelId = Some h ->
                    exists a, a ∈ allocs /\ counts_for active (pay_id r) a
                              /\ invoice_hotel_id a = Some h))).
Proof.
  destruct (index_acc allocs active ∅ (pay_id r)) as (H1 & H2 & H3).
  cbv zeta in H1, H2, H3. fold (indexByPayment allocs active) in H1, H2, H3.
  rewrite lookup_empty in H1, H2, H3.
  assert (is_Some (indexByPayment allocs active !! pay_id r)
          <-> exists a, a ∈ allocs /\ counts_for active (pay_id r) a) as Hsome.
  { rewrite H1. split; [|by right]. intros [Hn|?]; [|done]. by destruct Hn. }
  assert (forall c, c ∈ companies (default no_entry
                                     (indexByPayment allocs active !! pay_id r))
            <-> exists a, a ∈ allocs /\ counts_for active (pay_id r) a
                          /\ invoice_company_id a = Some c /\ c <> "") as Hco.
  { intros c. rewrite H2. split; [|by right]. intros [Hn|?]; [|done].
    simpl in Hn. by apply not_elem_of_empty in Hn. }
  assert (forall h, h ∈ hotels (default no_entry
                                  (indexByPayment allocs active !! pay_id r))
            <-> exists a, a ∈ allocs /\ counts_for active (pay_id r) a
                          /\ invoice_hotel_id a = Some h) as Hho.
  { intros h. rewrite H3. split; [|by right]. intros [Hn|?]; [|done].
    simpl in Hn. by apply not_elem_of_empty in Hn. }
  clear H1 H2 H3.
  assert (match indexByPayment allocs active !! pay_id r with
          | None => false
          | Some entry =>
              match companyId with
              | None => true
              | Some c => bool_decide (c ∈ companies entry)
              end
              && match hotelId with
                 | None => true
                 | Some h => bool_decide (h ∈ hotels entry)
                 end
          end = true
          <-> (exists a, a ∈ allocs /\ counts_for active (pay_id r) a)
              /\ (forall c, companyId = Some c ->
                    exists a, a ∈ allocs /\ counts_for active (pay_id r) a
                              /\ invoice_company_id a = Some c /\ c <> "")
              /\ (forall h, hotelId = Some h ->
                    exists a, a ∈ allocs /\ counts_for active (pay_id r) a
                              /\ invoice_hotel_id a = Some h)) as Hkeep.
  { rewrite <- Hsome.
    destruct (indexByPayment allocs active !! pay_id r) as [entry|] eqn:He.
    - cbn [default from_option id] in Hco, Hho.
      rewrite andb_true_iff. split.
      + intros [Hc Hh]. split; [done|]. split.
        * intros c ->. apply bool_decide_eq_true in Hc. by apply Hco.
        * intros h ->. apply bool_decide_eq_true in Hh. by apply Hho.
      + intros (_ & Hc & Hh). split.
        * destruct companyId as [c|]; [|done].
          apply bool_decide_eq_true. by apply Hco, Hc.
        * destruct hotelId as [h|]; [|done].
          apply bool_decide_eq_true. by apply Hho, Hh.
    - split; [done|]. intros ([? ?] & _). done. }
  unfold filteredRows.
  destruct companyId as [c|], hotelId as [h|];
    rewrite ?list_elem_of_filter, ?Hkeep.
  - split; [intros [? ?]; split; [done|by right]|].
    intros [? [[? _]|?]]; done.
  - split; [intros [? ?]; split; [done|by right]|].
    intros [? [[? _]|?]]; done.
  - split; [intros [? ?]; split; [done|by right]|].
    intros [? [[_ ?]|?]]; done.
  - split; [intros ?; split; [done|by left]|by intros [? _]].
Qed.
End PaymentsListing.

Section PaymentsListingScenario.
Import Db PaymentsView Scenario.

(** Of three payments: 150.00 of [pay-1] is applied; the 80.00 of
    [pay-2] went to an invoice of a hotel that is not listed, so the page
    counts the payment as unallocated; with the company [c1] chosen only
    [pay-1] is shown. *)
Example payments_page_of_three :
  let active := activeHotelIds page_hotels in
  let applied := appliedByPayment page_allocs active in
  let index := indexByPayment page_allocs active in
  (applied_of applied <$> page_rows) = [dollars 150; 0; 0]
  /\ summary page_rows applied
     = {| s_amount := dollars 320; s_applied := dollars 150;
          s_unapplied := dollars 170 |}
  /\ counts page_rows applied
     = {| c_payments := 3; c_withAlloc := 1; c_unallocated := 2 |}
  /\ (pay_id <$> filteredRows page_rows index (Some "c1") None) = ["pay-1"]
  /\ (pay_id <$> filteredRows page_rows index None (Some "h2")) = ["pay-1"]
  /\ (pay_id <$> filteredRows page_rows index None None)
     = ["pay-1"; "pay-2"; "pay-3"].
Proof. vm_compute. repeat split; reflexivity. Qed.
End PaymentsListingScenario.

(** ** The aging report: the two tables and the drill-down *)

Section AgingTables.
Import Aging.

Lemma sum_sorted {A} (f : A -> Z) (cmp : A -> A -> Z) (l : list A) :
  sum (f <$> sort_by cmp l) = sum (f <$> l).
Proof. apply sum_perm, fmap_Permutation, sort_by_perm. Qed.

Lemma sum_column (l : string) (rows : list Detail) :
  l <> "Paid/Zero" ->
  sum ((fun r => if Aging.eqs (bucket r) l then balance r else 0)
         <$> filter (fun r => paid_zero r = false) rows)
  = sum (balance <$> filter (fun r => bucket r = l) rows).
Proof.
  intros Hl. induction rows as [|r rows IH]; [done|].
  rewrite sum_in_bucket, filter_cons.
  destruct (paid_zero r) eqn:Hp.
  - rewrite decide_False by done. rewrite IH.
    unfold paid_zero in Hp. apply Aging_eqs_true in Hp.
    rewrite (proj2 (Aging_eqs_false (bucket r) l)) by congruence. lia.
  - rewrite decide_True by done. rewrite fmap_cons, sum_cons, IH. lia.
Qed.

Lemma breakdown_column localeCompare details invoiceMeta
    (column : CompanyRow -> Z) (l : string) :
  l <> "Paid/Zero" ->
  (forall n, column (new_company n) = 0) ->
  (forall r a, column (add_amount r a)
               = column a + (if Aging.eqs (bucket r) l then balance r else 0)) ->
  sum (column <$> byCompanyAllBuckets localeCompare details invoiceMeta)
  = sum (balance <$> filter (fun r => bucket r = l) details).
Proof.
  intros Hl Hinit Hupd. unfold byCompanyAllBuckets.
  rewrite sum_sorted, company_loop, <- (sum_column l details Hl).
  by apply (tally_measure (company_of invoiceMeta) paid_zero new_company
              add_amount column).
Qed.

Lemma sum_by_label (rows : list Detail) :
  sum (balance <$> rows)
  = sum (balance <$> filter (fun r => bucket r = "Current (0-30)") rows)
    + sum (balance <$> filter (fun r => bucket r = "31-60") rows)
    + sum (balance <$> filter (fun r => bucket r = "61-90") rows)
    + sum (balance <$> filter (fun r => bucket r = "91+") rows)
    + sum (balance <$> filter (fun r => bucket r ∉ BUCKET_ORDER) rows).
Proof.
  induction rows as [|r rows IH]; [done|].
  rewrite !sum_in_bucket, fmap_cons, sum_cons, IH, filter_cons.
  unfold BUCKET_ORDER.
  destruct (Aging.eqs (bucket r) "Current (0-30)") eqn:E1,
           (Aging.eqs (bucket r) "31-60") eqn:E2,
           (Aging.eqs (bucket r) "61-90") eqn:E3,
           (Aging.eqs (bucket r) "91+") eqn:E4;
    repeat match goal with
           | H : Aging.eqs _ _ = true |- _ => apply Aging_eqs_true in H
           | H : Aging.eqs _ _ = false |- _ => apply Aging_eqs_false in H
           end;
    try congruence;
    (destruct (decide (bucket r ∉ ["Current (0-30)"; "31-60"; "61-90"; "91+"]))
      as [Hout|Hin];
     [rewrite ?not_elem_of_cons in Hout|
      apply dec_stable in Hin; rewrite ?elem_of_cons in Hin;
      rewrite elem_of_nil in Hin];
     rewrite ?fmap_cons, ?sum_cons; try lia; exfalso; tauto).
Qed.

(** X15.  The two tables of the aging report agree: the totals of the
    company breakdown add up to the grand total and its counts to the
    grand count, and each of its four columns adds up to the balances of
    the rows of that bucket, the total of the bucket's group in the
    summary.  In a company's row the four columns add up to its total
    less the balances of its rows whose bucket is none of the four
    labels: such a row is in the total and in no column. *)
Theorem breakdown_reconciles localeCompare (details : list Detail) invoiceMeta :
  let breakdown := byCompanyAllBuckets localeCompare details invoiceMeta in
  let in_bucket b := sum (balance <$> filter (fun r => bucket r = b) details) in
  sum (co_total <$> breakdown) = grandTotal details
  /\ sum (co_count <$> breakdown) = grandCount details
  /\ sum (b0_30 <$> breakdown) = in_bucket "Current (0-30)"
  /\ sum (b31_60 <$> breakdown) = in_bucket "31-60"
  /\ sum (b61_90 <$> breakdown) = in_bucket "61-90"
  /\ sum (b91p <$> breakdown) = in_bucket "91+"
  /\ (forall g, g ∈ groups details -> total g = in_bucket (label g))
  /\ (forall c, c ∈ breakdown ->
        b0_30 c + b31_60 c + b61_90 c + b91p c
        = co_total c
          - sum (balance <$>
                   filter (fun r => bucket r ∉ BUCKET_ORDER)
                     (counted (company_of invoiceMeta) paid_zero (company c)
                        details))).
Proof.
  intros breakdown in_bucket. subst breakdown in_bucket. cbv beta.
  split; [|split].
  { rewrite grandTotal_spec, <- not_paid_filter. unfold byCompanyAllBuckets.
    rewrite sum_sorted, company_loop.
    by apply (tally_measure (company_of invoiceMeta) paid_zero new_company
                add_amount co_total balance). }
  { rewrite grandCount_spec, <- not_paid_filter, <- sum_ones.
    unfold byCompanyAllBuckets. rewrite sum_sorted, company_loop.
    by apply (tally_measure (company_of invoiceMeta) paid_zero new_company
                add_amount co_count (fun _ => 1)). }
  split; [by apply breakdown_column|].
  split; [by apply breakdown_column|].
  split; [by apply breakdown_column|].
  split; [by apply breakdown_column|].
  split.
  - intros g Hg. apply elem_of_groups in Hg as (l & Hne & ->).
    destruct (fold_add_row (counted bucket paid_zero l details) (new_group l))
      as (Hl & Ht & _).
    cbn [new_group label total] in Hl, Ht. rewrite Hl, Ht, Z.add_0_l.
    rewrite counted_bucket; [done|]. intros ->.
    destruct (counted bucket paid_zero "Paid/Zero" details) as [|r rest] eqn:Hc;
      [done|].
    assert (r ∈ counted bucket paid_zero "Paid/Zero" details) as Hin
      by (rewrite Hc; left).
    apply counted_not_paid in Hin as (_ & Hnp & Hb). done.
  - intros c Hc. apply elem_of_breakdown in Hc as (n & Hne & ->).
    destruct (fold_add_amount
                (counted (company_of invoiceMeta) paid_zero n details)
                (new_company n)) as (Hn & _ & Ht & H1 & H2 & H3 & H4).
    cbn [new_company company co_total b0_30 b31_60 b61_90 b91p]
      in Hn, Ht, H1, H2, H3, H4.
    rewrite Hn, Ht, H1, H2, H3, H4.
    rewrite (sum_by_label (counted (company_of invoiceMeta) paid_zero n details)).
    lia.
Qed.

Lemma fold_add_to_total (l : list Detail) (a0 : CompanyTotal) :
  let a := fold_left (fun a r => add_to_total r a) l a0 in
  ct_company a = ct_company a0
  /\ ct_count a = ct_count a0 + Z.of_nat (length l)
  /\ ct_total a = ct_total a0 + sum (balance <$> l).
Proof.
  revert a0. induction l as [|r l IH]; intros a0; cbv zeta; cbn [fold_left].
  - rewrite fmap_nil, sum_nil. cbn [length]. repeat split; lia.
  - destruct (IH (add_to_total r a0)) as (Hn & Hc & Ht).
    rewrite Hn, Hc, Ht, fmap_cons, sum_cons.
    cbn [add_to_total ct_company ct_count ct_total length].
    repeat split; lia.
Qed.

Lemma filter_all {A} (P : A -> Prop) `{!forall a, Decision (P a)} (l : list A) :
  (forall a, P a) -> filter P l = l.
Proof.
  intros HP. induction l as [|x l IH]; [done|].
  by rewrite filter_cons_True, IH.
Qed.

Lemma bucket_loop invoiceMeta (rows : list Detail) :
  fold_left (bucket_step invoiceMeta) rows []
  = fold_left (tally (company_of invoiceMeta) (fun _ => false)
                 new_company_total add_to_total) rows [].
Proof. reflexivity. Qed.

(** The group that [groups.find(x => x.label === label)] finds holds the
    rows of the bucket; it finds none when no row counts for the label. *)
Lemma find_group (details : list Detail) (l : string) :
  match List.find (fun x => Aging.eqs (label x) l) (groups details) with
  | Some g => rows g = counted bucket paid_zero l details
  | None => counted bucket paid_zero l details = []
  end.
Proof.
  destruct (List.find _ _) as [g|] eqn:Hfind.
  - apply find_some in Hfind as [Hin Hl].
    apply list_elem_of_In, elem_of_groups in Hin as (l' & _ & ->).
    destruct (fold_add_row (counted bucket paid_zero l' details) (new_group l'))
      as (Hlab & _ & _ & Hrows).
    cbn [new_group label rows] in Hlab, Hrows.
    apply Aging_eqs_true in Hl. rewrite Hlab in Hl. subst l'.
    by rewrite Hrows.
  - destruct (counted bucket paid_zero l details) as [|r rest] eqn:Hc; [done|].
    exfalso.
    assert (fold_left (fun g r => add_row r g)
              (counted bucket paid_zero l details) (new_group l)
            ∈ groups details) as Hin.
    { apply elem_of_groups. exists l. split; [by rewrite Hc|done]. }
    apply list_elem_of_In in Hin.
    apply (find_none _ _ Hfind) in Hin.
    apply Aging_eqs_false in Hin. apply Hin.
    by destruct (fold_add_row (counted bucket paid_zero l details) (new_group l))
      as (-> & _).
Qed.

Lemma companyTotalsForBucket_loop localeCompare details invoiceMeta l :
  companyTotalsForBucket localeCompare details invoiceMeta l
  = sort_by (by_bucket_total_then_name localeCompare)
      (snd <$> fold_left (bucket_step invoiceMeta)
                 (counted bucket paid_zero l details) []).
Proof.
  unfold companyTotalsForBucket. pose proof (find_group details l) as Hfind.
  destruct (List.find _ _) as [g|]; [by rewrite Hfind|by rewrite Hfind].
Qed.

(** X16.  When a bucket of the aging report is expanded, the rows of the
    bucket are added up by company: each company with a row in the
    bucket gets one line, with the number of its rows there and the sum
    of their balances; the lines add up to the bucket's total and count.
    For the label Paid/Zero, or a label no row carries, there is no
    line. *)
Theorem companyTotalsForBucket_lines localeCompare (details : list Detail)
    invoiceMeta (l : string) :
  let lines := companyTotalsForBucket localeCompare details invoiceMeta l in
  let mine := filter (fun r => bucket r = l /\ l <> "Paid/Zero") details in
  let of_company n := filter (fun r => company_of invoiceMeta r = n) mine in
  (forall t, t ∈ lines
     <-> exists n, of_company n <> []
           /\ t = {| ct_company := n;
                     ct_count := Z.of_nat (length (of_company n));
                     ct_total := sum (balance <$> of_company n) |})
  /\ NoDup (ct_company <$> lines)
  /\ sum (ct_total <$> lines) = sum (balance <$> mine)
  /\ sum (ct_count <$> lines) = Z.of_nat (length mine)
  /\ (mine = [] <-> lines = []).
Proof.
  intros lines mine of_company. subst lines.
  rewrite companyTotalsForBucket_loop, bucket_loop.
  assert (counted bucket paid_zero l details = mine) as ->.
  { apply list_filter_iff. intros r. rewrite paid_zero_false.
    split; [intros [? <-]; done|intros [<- ?]; done]. }
  assert (forall n, counted (company_of invoiceMeta) (fun _ => false) n mine
                    = of_company n) as Hcounted.
  { intros n. apply list_filter_iff. intros r. tauto. }
  assert (forall n, fold_left (fun v r => add_to_total r v) (of_company n)
                      (new_company_total n)
                    = {| ct_company := n;
                         ct_count := Z.of_nat (length (of_company n));
                         ct_total := sum (balance <$> of_company n) |}) as Hline.
  { intros n.
    destruct (fold_add_to_total (of_company n) (new_company_total n))
      as (Hn & Hc & Ht).
    cbn [new_company_total ct_company ct_count ct_total] in Hn, Hc, Ht.
    destruct (fold_left _ _ _) as [n' c' t']. simpl in *. subst. f_equal; lia. }
  assert (forall t,
            t ∈ (fold_left (tally (company_of invoiceMeta) (fun _ => false)
                              new_company_total add_to_total) mine []).*2
            <-> exists n, of_company n <> []
                  /\ t = {| ct_company := n;
                            ct_count := Z.of_nat (length (of_company n));
                            ct_total := sum (balance <$> of_company n) |})
    as Helem.
  { intros t. rewrite tally_entries. split.
    - intros (n & Hne & ->). exists n. rewrite Hcounted in *. by rewrite Hline.
    - intros (n & Hne & ->). exists n. rewrite Hcounted. by rewrite Hline. }
  split; [|split; [|split; [|split]]].
  - intros t. by rewrite elem_of_sort_by.
  - rewrite (fmap_Permutation ct_company _ _ (sort_by_perm _ _)).
    pose proof (tally_NoDup (company_of invoiceMeta) (fun _ => false)
                  new_company_total add_to_total mine) as Hnd.
    assert (ct_company <$> (fold_left
               (tally (company_of invoiceMeta) (fun _ => false)
                  new_company_total add_to_total) mine []).*2
            = (fold_left
               (tally (company_of invoiceMeta) (fun _ => false)
                  new_company_total add_to_total) mine []).*1) as ->; [|done].
    rewrite <- list_fmap_compose. apply list_fmap_ext.
    intros i [k v] Hlook. unfold compose. cbn [fst snd].
    apply list_elem_of_lookup_2 in Hlook.
    apply get_elem_of in Hlook; [|done].
    rewrite tally_get in Hlook.
    assert (v = fold_left (fun v r => add_to_total r v)
                  (counted (company_of invoiceMeta) (fun _ => false) k mine)
                  (new_company_total k)) as ->.
    { destruct (counted _ _ k mine); [done|]. by injection Hlook as <-. }
    by rewrite Hcounted, Hline.
  - rewrite sum_sorted.
    rewrite (tally_measure (company_of invoiceMeta) (fun _ => false)
               new_company_total add_to_total ct_total balance) by done.
    f_equal. f_equal. by apply filter_all.
  - rewrite sum_sorted, <- sum_ones.
    rewrite (tally_measure (company_of invoiceMeta) (fun _ => false)
               new_company_total add_to_total ct_count (fun _ => 1)) by done.
    f_equal. f_equal. by apply filter_all.
  - split.
    + by intros ->.
    + intros Hnil. destruct mine as [|r rest] eqn:Hm; [done|]. exfalso.
      assert ({| ct_company := company_of invoiceMeta r;
                 ct_count := Z.of_nat (length (of_company (company_of invoiceMeta r)));
                 ct_total := sum (balance <$> of_company (company_of invoiceMeta r)) |}
              ∈ sort_by (by_bucket_total_then_name localeCompare)
                  (fold_left (tally (company_of invoiceMeta) (fun _ => false)
                     new_company_total add_to_total) (r :: rest) []).*2) as Hin.
      { apply elem_of_sort_by, Helem. exists (company_of invoiceMeta r).
        split; [|done]. subst of_company. cbv beta.
        rewrite filter_cons_True by done. done. }
      rewrite Hnil in Hin. by apply not_elem_of_nil in Hin.
Qed.

(** X17.  The rows the aging report works on: with hotels assigned to
    the user, only rows whose invoice is known to be of one of them (a
    row without a known hotel counts as the hotel with the empty id);
    with no hotel assigned, every row; and, a hotel being chosen, only
    the rows of that hotel.  The rows keep their order. *)
Theorem filtered_guard (details : list Detail) invoiceMeta hotelId myHotelIds
    (d : Detail) :
  let hotel_of d := invoiceMeta !! id d ≫= hotel_id in
  (d ∈ filtered details invoiceMeta hotelId myHotelIds
   <-> d ∈ details
       /\ (myHotelIds = [] \/ default "" (hotel_of d) ∈ myHotelIds)
       /\ (forall h, hotelId = Some h -> hotel_of d = Some h))
  /\ filtered details invoiceMeta hotelId myHotelIds `sublist_of` details.
Proof.
  intros hotel_of. unfold filtered. fold hotel_of.
  assert (forall l : list string, forall x,
            existsb (Aging.eqs x) l = true <-> x ∈ l) as Hex.
  { intros l x. rewrite existsb_exists. setoid_rewrite <- list_elem_of_In.
    split.
    - intros (y & Hy & Heq). apply Aging_eqs_true in Heq. by subst.
    - intros Hx. exists x. split; [done|by apply Aging_eqs_true]. }
  assert (forall h d, match hotel_of d with
                      | Some x => Aging.eqs x h
                      | None => false
                      end = true <-> hotel_of d = Some h) as Hh.
  { intros h d'. destruct (hotel_of d') as [x|]; [|done].
    rewrite Aging_eqs_true. split; congruence. }
  subst hotel_of. cbv beta in Hh.
  split.
  - destruct hotelId as [h|], myHotelIds as [|m ms];
      rewrite ?list_elem_of_filter, ?Hh, ?Hex.
    + split.
      * intros [Hd Hin]. repeat split; [done|by left|]. by intros ? [= <-].
      * intros (Hin & _ & Hd). split; [by apply Hd|done].
    + split.
      * intros (Hd & Hm & Hin). repeat split; [done|by right|]. by intros ? [= <-].
      * intros (Hin & [?|Hm] & Hd); [done|]. split; [by apply Hd|done].
    + split.
      * intros Hin. repeat split; [done|by left|done].
      * by intros (Hin & _).
    + split.
      * intros (Hm & Hin). repeat split; [done|by right|done].
      * intros (Hin & [?|Hm] & _); done.
  - destruct hotelId as [h|], myHotelIds as [|m ms];
      repeat (etrans; [apply sublist_filter|]); done.
Qed.
End AgingTables.

(** ** Creating an invoice *)

Section CreatedInvoice.
Import Db Ledger.

Lemma issue_if_nil (bad : bool) field message :
  NewInvoice.issue_if bad field message = [] <-> bad = false.
Proof. by destruct bad. Qed.

Lemma schema_accepts uuid v :
  NewInvoice.schema uuid v = []
  <-> uuid (NewInvoice.hotel_id v) = true
      /\ uuid (NewInvoice.company_id v) = true
      /\ uuid (NewInvoice.client_id v) = true
      /\ NewInvoice.nonempty (NewInvoice.issue_date v) = true
      /\ NewInvoice.nonempty (NewInvoice.due_date v) = true
      /\ NewInvoice.nonempty (NewInvoice.check_in v) = true
      /\ NewInvoice.nonempty (NewInvoice.check_out v) = true
      /\ match NewInvoice.rate_night v with Some r => 0 <= r | None => False end.
Proof.
  unfold NewInvoice.schema.
  rewrite !app_nil, !issue_if_nil, !negb_false_iff.
  assert (match NewInvoice.rate_night v with
          | Some r => r <? 0
          | None => true
          end = false
          <-> match NewInvoice.rate_night v with
              | Some r => 0 <= r
              | None => False
              end) as ->; [|tauto].
  destruct (NewInvoice.rate_night v) as [r|]; [|done].
  rewrite Z.ltb_ge. done.
Qed.

(** X19.  An invoice is created exactly when the insert does not fail and
    the form has three ids the validation accepts, four dates that are
    calendar days and a rate that is a number not below 0. *)
Theorem invoice_created_iff uuid fails new_id v db :
  (NewInvoice.handleSubmit uuid fails new_id v db).2
  = Ran (Succeeded "Invoice created")
  <-> fails InsertInvoice = false
      /\ exists i d ci co, NewInvoice.well_formed uuid v i d ci co.
Proof.
  split.
  - unfold NewInvoice.handleSubmit.
    destruct (NewInvoice.schema uuid v) as [|issue issues] eqn:Hs; [|done].
    apply schema_accepts in Hs as (Hh & Hc & Hcl & _ & _ & _ & _ & Hr).
    unfold NewInvoice.onSubmit.
    destruct (fails InsertInvoice); [done|].
    unfold NewInvoice.row_of, NewInvoice.well_formed.
    destruct (NewInvoice.issue_date v) as [| |i], (NewInvoice.due_date v) as [| |d],
      (NewInvoice.check_in v) as [| |ci], (NewInvoice.check_out v) as [| |co];
      try done.
    intros _. split; [done|]. by exists i, d, ci, co.
  - intros [Hins (i & d & ci & co & Hwf)].
    pose proof (well_formed_schema _ _ _ _ _ _ Hwf) as Hs.
    destruct Hwf as (_ & _ & _ & Hi & Hd & Hci & Hco & _).
    unfold NewInvoice.handleSubmit, NewInvoice.onSubmit, NewInvoice.row_of.
    by rewrite Hs, Hins, Hi, Hd, Hci, Hco.
Qed.
End CreatedInvoice.

(** ** What the listing leaves out *)

Section ListingComplete.
Import Db Ledger.

(** X20.  With no search text, when the two queries do not fail, the
    listing shows every live invoice whose check-in lies in the window,
    whose hotel is the one chosen (or, none being chosen, one of the
    hotels the page loaded, if it loaded any) and whose company is the
    one chosen, if one is: with its total and its status, and with the
    sum of its active allocations as payments, or 0 if its status is
    void.  The two queries are taken to answer with all the rows they
    select. *)
Theorem listing_lists_every_match fails f db inv day :
  fails SelectInvoices = false -> fails SelectAllocations = false ->
  Invoices.search f = "" ->
  inv ∈ invoices db -> inv_deleted_at inv = None ->
  inv_check_in inv = Some day ->
  (Invoices.window f).1 <= day <= (Invoices.window f).2 ->
  match Invoices.hotelId f with
  | Some h => inv_hotel_id inv = h
  | None => Invoices.hotels f = []
            \/ inv_hotel_id inv ∈ (Invoices.hotels f).*1
  end ->
  (forall c, Invoices.companyId f = Some c -> inv_company_id inv = Some c) ->
  exists r,
    r ∈ Invoices.fetchRows fails f db
    /\ Invoices.id r = inv_id inv
    /\ Invoices.total r = Some (inv_total inv)
    /\ Invoices.status r = inv_status inv
    /\ Invoices.payments r
       = if eqs (toLowerCase (inv_status inv)) "void" then 0
         else paid_to_date db (inv_id inv).
Proof.
  intros Hsi Hsa Hsearch Hin Hlive Hday Hwin Hhotel Hcompany.
  unfold Invoices.fetchRows. rewrite Hsi.
  assert (inv ∈ Invoices.base_query f db) as Hbase.
  { unfold Invoices.base_query. apply list_elem_of_filter. split; [|done].
    rewrite Hlive. cbn [is_null andb].
    assert (Invoices.in_window f (inv_check_in inv) = true) as ->.
    { unfold Invoices.in_window. rewrite Hday.
      apply andb_true_iff. split; apply Z.leb_le; lia. }
    assert (Invoices.hotel_ok f (inv_hotel_id inv) = true) as ->.
    { unfold Invoices.hotel_ok.
      destruct (Invoices.hotelId f) as [h|]; [by apply eqs_true|].
      destruct (Invoices.hotels f) as [|h0 hs] eqn:Hhs; [done|].
      destruct Hhotel as [?|Hmem]; [done|].
      apply existsb_exists.
      apply list_elem_of_fmap in Hmem as (x & Hx & Hxin).
      exists x. split; [by apply list_elem_of_In|].
      apply eqs_true. by rewrite Hx. }
    assert (Invoices.company_ok f (inv_company_id inv) = true) as ->; [|done].
    unfold Invoices.company_ok.
    destruct (Invoices.companyId f) as [c|]; [|done].
    rewrite (Hcompany c eq_refl). by apply eqs_true. }
  assert (inv_id inv ∈ inv_id <$> Invoices.base_query f db) as Hid
    by (by apply list_elem_of_fmap_2).
  destruct (inv_id <$> Invoices.base_query f db) as [|i0 ids] eqn:Hids;
    [by apply not_elem_of_nil in Hid|].
  rewrite Hsa. unfold Invoices.merge_rows.
  rewrite Hsearch, eqs_refl.
  set (row := Invoices.merge_row inv (paid_to_date db (inv_id inv))).
  exists (if eqs (toLowerCase (Invoices.status row)) "void"
          then Invoices.zeroed row else row).
  split.
  - apply list_elem_of_fmap. exists row. split; [done|].
    apply list_elem_of_fmap. exists inv. split; [|done].
    subst row. by rewrite pay_map_lookup, alloc_query_amounts.
  - subst row. cbn [Invoices.merge_row Invoices.status].
    by destruct (eqs (toLowerCase (inv_status inv)) "void").
Qed.
End ListingComplete.

Section ListingCompleteScenario.
Import Db Ledger Scenario.

Lemma listing_lists_every_match_witness :
  exists r,
    r ∈ Invoices.fetchRows no_faults show_all db_B_paid
    /\ Invoices.id r = inv_id inv_B
    /\ Invoices.total r = Some (inv_total inv_B)
    /\ Invoices.status r = inv_status inv_B
    /\ Invoices.payments r
       = if eqs (toLowerCase (inv_status inv_B)) "void" then 0
         else paid_to_date db_B_paid (inv_id inv_B).
Proof.
  apply (listing_lists_every_match no_faults show_all db_B_paid inv_B 19790).
  - reflexivity.
  - reflexivity.
  - reflexivity.
  - left.
  - reflexivity.
  - reflexivity.
  - vm_compute. split; discriminate.
  - right. left.
  - intros c [=].
Defined.
End ListingCompleteScenario.

(** ** What a recorded payment adds to an invoice *)

Section PaidAfterPayment.
Import Db Ledger.

Lemma set_keys alloc k v :
  (NewPayment.set alloc k v).*1
  = if decide (k ∈ alloc.*1) then alloc.*1 else alloc.*1 ++ [k].
Proof.
  induction alloc as [|[k0 v0] alloc IH]; cbn [NewPayment.set].
  - by rewrite decide_False by apply not_elem_of_nil.
  - destruct (eqs k0 k) eqn:Hk; rewrite !fmap_cons; cbn [fst].
    + apply eqs_true in Hk as ->. rewrite decide_True; [done|left].
    + apply eqs_false in Hk. rewrite IH.
      destruct (decide (k ∈ alloc.*1)) as [Hin|Hn].
      * rewrite decide_True; [done|by right].
      * rewrite decide_False; [done|].
        intros Hin. apply elem_of_cons in Hin as [->|Hin]; done.
Qed.

Lemma set_keys_NoDup alloc k v :
  NoDup alloc.*1 -> NoDup (NewPayment.set alloc k v).*1.
Proof.
  intros Hnd. rewrite set_keys. destruct (decide (k ∈ alloc.*1)); [done|].
  apply NoDup_app. repeat split; [done| |apply NoDup_singleton].
  intros x Hx Hxk. apply list_elem_of_singleton in Hxk as ->. done.
Qed.

(** The page holds one entry for an invoice. *)
Lemma reachable_keys_NoDup invoices alloc :
  NewPayment.reachable invoices alloc -> NoDup alloc.*1.
Proof.
  induction 1 as [|k value alloc _ IH|alloc _ IH|watchAmount k alloc _ IH].
  - apply NoDup_nil_2.
  - by apply set_keys_NoDup.
  - apply NoDup_nil_2.
  - unfold NewPayment.allocateRemainingTo. cbv zeta.
    destruct (_ || _); [done|]. by apply set_keys_NoDup.
Qed.

Lemma get_absent alloc k : k ∉ alloc.*1 -> NewPayment.get alloc k = None.
Proof.
  induction alloc as [|[k0 v0] alloc IH]; [done|].
  rewrite fmap_cons, not_elem_of_cons. cbn [fst NewPayment.get].
  intros [Hne Hn]. rewrite (proj2 (eqs_false k0 k)) by done. by apply IH.
Qed.

Lemma rows_of_cons new_id k v alloc :
  NewPayment.rows_of new_id ((k, v) :: alloc)
  = (if 0 <? v
     then [{| al_payment_id := new_id; al_invoice_id := k; al_amount := v;
              al_deleted_at := None |}]
     else []) ++ NewPayment.rows_of new_id alloc.
Proof.
  unfold NewPayment.rows_of. rewrite fmap_cons, filter_cons. cbn [fst snd al_amount].
  destruct (0 <? v); [by rewrite decide_True|by rewrite decide_False].
Qed.

Lemma rows_of_invoice new_id alloc k :
  NoDup alloc.*1 -> NewPayment.nonneg alloc ->
  sum (al_amount <$>
         filter (fun a => eqs (al_invoice_id a) k && is_null (al_deleted_at a) = true)
                (NewPayment.rows_of new_id alloc))
  = default 0 (NewPayment.get alloc k).
Proof.
  unfold NewPayment.nonneg.
  induction alloc as [|[k0 v0] alloc IH]; intros Hnd Hnn; [done|].
  rewrite fmap_cons in Hnd. apply NoDup_cons in Hnd as [Hk0 Hnd].
  apply Forall_cons in Hnn as [Hv0 Hnn]. cbn [fst snd] in Hk0, Hv0.
  rewrite rows_of_cons, filter_app, fmap_app, sum_app, (IH Hnd Hnn).
  cbn [NewPayment.get].
  destruct (eqs k0 k) eqn:Hk.
  - apply eqs_true in Hk as ->. rewrite (get_absent alloc k Hk0).
    cbn [from_option id].
    destruct (Z.ltb_spec 0 v0).
    + rewrite filter_cons_True.
      2:{ cbn [al_invoice_id al_deleted_at is_null].
          by rewrite eqs_refl. }
      rewrite filter_nil, fmap_cons, fmap_nil, sum_cons, sum_nil. simpl. lia.
    + rewrite filter_nil, fmap_nil, sum_nil. lia.
  - destruct (0 <? v0); [|by rewrite filter_nil, fmap_nil, sum_nil].
    rewrite filter_cons_False; [by rewrite filter_nil, fmap_nil, sum_nil|].
    cbn [al_invoice_id]. by rewrite Hk.
Qed.

Lemma onSubmit_allocations fails alloc confirmed new_id values db :
  succeeded (NewPayment.onSubmit fails alloc confirmed new_id values db).2 ->
  allocations (NewPayment.onSubmit fails alloc confirmed new_id values db).1
  = allocations db ++ NewPayment.rows_of new_id alloc.
Proof.
  unfold NewPayment.onSubmit.
  destruct (NewPayment.amount values + EPSILON <? NewPayment.allocatedTotal alloc);
    [done|].
  destruct (_ && _ && negb confirmed); [done|].
  destruct (_ && _ && _ && negb confirmed); [done|].
  destruct (fails InsertPayment); [done|].
  destruct (NewPayment.rows_of new_id alloc) as [|a rows].
  - intros _. simpl. by rewrite app_nil_r.
  - destruct (fails InsertAllocations); [done|]. by intros _.
Qed.

(** X21.  After a payment is recorded, the paid-to-date of every invoice
    is what it was plus the amount entered for the invoice on the
    payment page (nothing for an invoice with no entry), whatever the
    user did on the page before submitting. *)
Theorem payment_raises_paid fails hotelId db0 alloc confirmed new_id values db k :
  NewPayment.reachable (NewPayment.load_invoices hotelId db0) alloc ->
  succeeded (NewPayment.onSubmit fails alloc confirmed new_id values db).2 ->
  paid_to_date (NewPayment.onSubmit fails alloc confirmed new_id values db).1 k
  = paid_to_date db k + default 0 (NewPayment.get alloc k).
Proof.
  intros Hreach Hok. unfold paid_to_date, active_amounts.
  rewrite (onSubmit_allocations _ _ _ _ _ _ Hok).
  rewrite filter_app, fmap_app, sum_app. f_equal.
  apply rows_of_invoice.
  - by eapply reachable_keys_NoDup.
  - by eapply reachable_nonneg.
Qed.
End PaidAfterPayment.

Section PaidAfterPaymentScenario.
Import Db Ledger Scenario.

Lemma payment_raises_paid_witness :
  paid_to_date
    (NewPayment.onSubmit no_faults
       (NewPayment.setAllocFor (NewPayment.load_invoices None db_DB) "inv-D"
          (Some (dollars 100)) [])
       true "pay-9" pay_600 db_DB).1 "inv-D"
  = paid_to_date db_DB "inv-D"
    + default 0
        (NewPayment.get
           (NewPayment.setAllocFor (NewPayment.load_invoices None db_DB) "inv-D"
              (Some (dollars 100)) [])
           "inv-D").
Proof.
  apply (payment_raises_paid no_faults None db_DB).
  - apply NewPayment.reach_set, NewPayment.reach_empty.
  - vm_compute. exact I.
Defined.
End PaidAfterPaymentScenario.
